(** * Address spaces, the two-level page table and the fault handler

    A shallow embedding of [kern/vm/addrspace.c] and of the page-table
    and fault-handling functions that follow it in the same source file
    ([vm_add_l1_entry], [vm_add_l2_entry], [vm_copy_pt], [vm_fault],
    [load_tlb]).

    Kernel memory is a finite map from block base addresses to blocks of
    32-bit words; the two allocators ([alloc_kpages] and [kmalloc]) hand
    out addresses from pools that are part of the state, so that
    exhaustion, stale contents of fresh memory, leaks and dangling
    pointers are all visible.  Every C function is a computation in a
    state monad whose failure stands for undefined behaviour (a load or
    store through a pointer that is not live, a free of something that
    is not allocated).

    The model is sequential: one context runs a function to its end.
    The page-table lock ([lock_create], [lock_acquire], [lock_release],
    [lock_destroy]) therefore has no counterpart here; raising and
    lowering the interrupt level and the TLB writes are recorded in a
    trace. *)

From Stdlib Require Import ZArith Lia List.
From stdpp Require Import base option list gmap.

Open Scope Z_scope.

(** ** Machine words *)

(** [vaddr_t], [paddr_t], [size_t] and [uint32_t] are 32-bit unsigned. *)
Definition u32 (z : Z) : Z := z mod 2 ^ 32.

(** ** Constants and macros of the kernel headers

    The headers [vm.h], [mips/tlb.h] and [addrspace.h] are not part of
    the source file.  The page geometry is fixed by the code itself (the
    shifts by 22 and 10 in [vm_fault]) and by the specification; what
    remains machine dependent is gathered in the class [Machine]. *)

(** Modelled from the spec: the in-page offset is the low 12 bits of an
    address, so a page has 4096 bytes ([PAGE_SIZE] of [vm.h]). *)
Definition PAGE_SIZE : Z := 4096.

(** Modelled from the spec: the mask that discards the low 12 offset
    bits of a 32-bit address ([PAGE_FRAME] of [vm.h]). *)
Definition PAGE_FRAME : Z := 0xfffff000.

(** Modelled from the spec: a first-level array of [PT1_SIZE] slots that
    fills one frame and second-level arrays of [PT2_SIZE] slots, both
    indexed by 10 bits of the address ([PT_SIZE] of the headers). *)
Definition PT_SIZE : nat := 1024.

(** Modelled from the spec: [as_destroy] walks the same two levels under
    the name [PAGETABLE_SIZE]. *)
Definition PAGETABLE_SIZE : nat := 1024.

(** A page seen as 32-bit words. *)
Definition PAGE_WORDS : nat := 1024.

(** What the headers define and neither the source nor the
    specification fixes. *)
Class Machine : Type := {
  MIPS_KSEG0 : Z;              (* first address above the user segment *)
  USERSTACK : Z;               (* initial user stack pointer *)
  NUM_STACK_PAGES : Z;         (* pages of the user stack *)
  TLBLO_VALID : Z;             (* valid bit of a TLB entry's low word *)
  TLBLO_DIRTY : Z;             (* dirty (write enable) bit of the low word *)
  NUM_TLB : nat;               (* number of TLB entries *)
  KVADDR_TO_PADDR : Z -> Z;    (* kernel virtual address to physical address *)
  PADDR_TO_KVADDR : Z -> Z     (* physical address to its kernel alias *)
}.

(** The values of the MIPS port of the kernel (System/161):
    [kseg0] starts at [0x80000000] and maps physical memory directly,
    so the two conversion macros subtract and add that base. *)
Definition sys161 : Machine := {|
  MIPS_KSEG0 := 0x80000000;
  USERSTACK := 0x80000000;
  NUM_STACK_PAGES := 16;
  TLBLO_VALID := 0x200;
  TLBLO_DIRTY := 0x400;
  NUM_TLB := 64;
  KVADDR_TO_PADDR := fun v => v - 0x80000000;
  PADDR_TO_KVADDR := fun p => p + 0x80000000
|}.

(** ** Return codes, fault types *)

(** [0] and the [errno] values the file returns. *)
Inductive retcode : Type := OK | ENOMEM | EFAULT | EINVAL.

#[global] Instance retcode_eq_dec : EqDecision retcode.
Proof. solve_decision. Defined.

(** The [faulttype] argument of [vm_fault]: the three codes of [vm.h]
    and any other integer. *)
Inductive fault : Type :=
  | VM_FAULT_READ
  | VM_FAULT_WRITE
  | VM_FAULT_READONLY
  | VM_FAULT_OTHER.

(** ** Kernel state *)

(** Which allocator handed a block out. *)
Inductive akind : Type := APage | AHeap.

Record blk : Type := Blk { b_kind : akind; b_words : list Z }.

(** What the code does to the machine besides reading and writing
    memory. *)
Inductive event : Type :=
  | EvSplHigh
  | EvSplx
  | EvTlbRandom (entryhi entrylo : Z)
  | EvTlbInvalidate (i : nat).

(** [k_mem] holds the live blocks by base address.  A pool lists the
    addresses its allocator will hand out next, each with the words
    that are still lying there.  [k_trace] is chronological. *)
Record kernel : Type := Kernel {
  k_mem : gmap Z blk;
  k_page_pool : list (Z * list Z);
  k_heap_pool : list (Z * list Z);
  k_trace : list event
}.

Definition set_mem (m : gmap Z blk) (k : kernel) : kernel :=
  Kernel m (k_page_pool k) (k_heap_pool k) (k_trace k).

(** ** The monad of kernel computations *)

Definition M (A : Type) : Type := kernel -> option (A * kernel).

Definition kret {A} (a : A) : M A := fun k => Some (a, k).

Definition kbind {A B} (m : M A) (f : A -> M B) : M B :=
  fun k => match m k with
           | Some (a, k') => f a k'
           | None => None
           end.

(** Undefined behaviour. *)
Definition undef {A} : M A := fun _ => None.

Notation "x <- m ;; f" := (kbind m (fun x => f))
  (at level 100, m at next level, right associativity).
Notation "m ;;; f" := (kbind m (fun _ => f))
  (at level 100, right associativity).

(** [for (i = start; i < start + n; i++) body(i)] *)
Fixpoint for_do (n : nat) (i : nat) (body : nat -> M unit) : M unit :=
  match n with
  | O => kret tt
  | S n' => body i ;;; for_do n' (S i) body
  end.

(** The same loop when the body may [return r] from the enclosing
    function: [Some r] leaves the loop. *)
Fixpoint for_ret {R} (n : nat) (i : nat) (body : nat -> M (option R))
  : M (option R) :=
  match n with
  | O => kret None
  | S n' => r <- body i ;;
            match r with
            | Some x => kret (Some x)
            | None => for_ret n' (S i) body
            end
  end.

(** ** Allocators and memory access

    The allocators, [bzero] and [memmove] are called by the source file
    and defined elsewhere in the kernel. *)

(** Modelled from the spec: the Frame Provider's
    [allocate_frame() -> PhysicalAddress | OutOfMemory], which the
    source calls as [alloc_kpages(1)]: the kernel virtual address of a
    page that was free, or [0].  Zero-fill is the caller's
    responsibility: the page keeps whatever was in it. *)
Definition alloc_kpages : M Z := fun k =>
  match k_page_pool k with
  | [] => Some (0, k)
  | (v, junk) :: rest =>
      Some (v, Kernel (<[v := Blk APage (resize PAGE_WORDS 0 junk)]> (k_mem k))
                      rest (k_heap_pool k) (k_trace k))
  end.

(** Modelled from the spec: the allocation of table metadata, which
    can fail; the source calls it as [kmalloc]: a pointer to [nwords]
    words, or [0].  Not initialised.  For a [struct] the block only
    marks the allocation ([nwords = 0]); its fields are kept in the
    record that stands for it. *)
Definition kmalloc (nwords : nat) : M Z := fun k =>
  match k_heap_pool k with
  | [] => Some (0, k)
  | (p, junk) :: rest =>
      Some (p, Kernel (<[p := Blk AHeap (resize nwords 0 junk)]> (k_mem k))
                      (k_page_pool k) rest (k_trace k))
  end.

(** Give a block back to the pool it came from. *)
Definition release (p : Z) (b : blk) (k : kernel) : kernel :=
  match b_kind b with
  | APage => Kernel (delete p (k_mem k)) (k_page_pool k ++ [(p, b_words b)])
                    (k_heap_pool k) (k_trace k)
  | AHeap => Kernel (delete p (k_mem k)) (k_page_pool k)
                    (k_heap_pool k ++ [(p, b_words b)]) (k_trace k)
  end.

(** Modelled from the spec: the Frame Provider's
    [free_frame(PhysicalAddress)], called as [free_kpages]: the address
    must be a live page. *)
Definition free_kpages (v : Z) : M unit := fun k =>
  match k_mem k !! v with
  | Some b => match b_kind b with
              | APage => Some (tt, release v b k)
              | AHeap => None
              end
  | None => None
  end.

(** Modelled from the spec: the release of what was allocated, called
    as [kfree]: the address must be live.  The source also hands it the
    first-level table, a page, which goes back to the page pool. *)
Definition kfree (p : Z) : M unit := fun k =>
  match k_mem k !! p with
  | Some b => Some (tt, release p b k)
  | None => None
  end.

(** [base[i]] *)
Definition load (base : Z) (i : nat) : M Z := fun k =>
  match k_mem k !! base with
  | Some b => match b_words b !! i with
              | Some w => Some (w, k)
              | None => None
              end
  | None => None
  end.

(** [base[i] = w] *)
Definition store (base : Z) (i : nat) (w : Z) : M unit := fun k =>
  match k_mem k !! base with
  | Some b =>
      if decide (i < length (b_words b))%nat
      then Some (tt, set_mem (<[base := Blk (b_kind b) (<[i := w]> (b_words b))]> (k_mem k)) k)
      else None
  | None => None
  end.

(** [bzero((void * )v, PAGE_SIZE)]: the block at [v] must be live and
    hold a page. *)
Definition bzero_page (v : Z) : M unit := fun k =>
  match k_mem k !! v with
  | Some b =>
      if decide (PAGE_WORDS <= length (b_words b))%nat
      then Some (tt, set_mem (<[v := Blk (b_kind b)
                     (replicate PAGE_WORDS 0 ++ drop PAGE_WORDS (b_words b))]> (k_mem k)) k)
      else None
  | None => None
  end.

(** [memmove((void * )dst, (const void * )src, PAGE_SIZE)]: both blocks
    must be live and hold a page. *)
Definition memmove_page (dst src : Z) : M unit := fun k =>
  match k_mem k !! dst, k_mem k !! src with
  | Some d, Some s =>
      if decide (PAGE_WORDS <= length (b_words d) /\ PAGE_WORDS <= length (b_words s))%nat
      then Some (tt, set_mem (<[dst := Blk (b_kind d)
                     (take PAGE_WORDS (b_words s) ++ drop PAGE_WORDS (b_words d))]> (k_mem k)) k)
      else None
  | _, _ => None
  end.

(** [splhigh], [splx], [tlb_random] and [tlb_write] leave a record in
    the trace. *)
Definition emit (e : event) : M unit := fun k =>
  Some (tt, Kernel (k_mem k) (k_page_pool k) (k_heap_pool k) (k_trace k ++ [e])).

(** ** Regions and address spaces *)

(** A node of the region list.  [r_node] is the address [kmalloc] gave
    for it; the permission flags are C [int]s. *)
Record region : Type := Region {
  r_node : Z;
  vaddr : Z;
  memsize : Z;
  readable : Z;
  writeable : Z;
  executable : Z;
  old_writeable : Z
}.

(** [struct addrspace]: [as_self] is the address of the record itself,
    [region_list] the linked list from its head, [pagetable] the pointer
    to the first-level table. *)
Record addrspace : Type := Addrspace {
  as_self : Z;
  region_list : list region;
  pagetable : Z
}.

(** A process; [p_addrspace] is what [proc_getas] returns for it. *)
Record proc : Type := Proc { p_addrspace : option addrspace }.

Definition proc_getas (curproc : option proc) : option addrspace :=
  match curproc with
  | Some p => p_addrspace p
  | None => None
  end.

(** ** The functions of the source file *)

Section Code.
Context {mach : Machine}.

(** *** Page table functions *)

Definition vm_add_l1_entry (pagetable : Z) (pt1_index : nat) : M retcode :=
  p <- kmalloc PT_SIZE ;;
  store pagetable pt1_index p ;;;
  slot <- load pagetable pt1_index ;;
  if decide (slot = 0) then kret ENOMEM
  else
    (* initialize all pt1 level 2 to 0 *)
    for_do PT_SIZE 0 (fun i =>
      l2 <- load pagetable pt1_index ;; store l2 i 0) ;;;
    kret OK.

Definition vm_add_l2_entry (pagetable : Z) (pt1_index pt2_index : nat)
    (dirty : Z) : M retcode :=
  v_page_addrs <- alloc_kpages ;;
  if decide (v_page_addrs = 0) then kret ENOMEM
  else
    bzero_page v_page_addrs ;;;
    let p_frame_num := Z.land (u32 (KVADDR_TO_PADDR v_page_addrs)) PAGE_FRAME in
    l2 <- load pagetable pt1_index ;;
    store l2 pt2_index (Z.lor (Z.lor p_frame_num dirty) TLBLO_VALID) ;;;
    kret OK.

(** The body of the inner loop of [vm_copy_pt] at [(i, j)]. *)
Definition vm_copy_entry (old_pt new_pt : Z) (i j : nat) : M (option retcode) :=
  l2o <- load old_pt i ;;
  e <- load l2o j ;;
  if decide (e <> 0) then
    v_page_addrs <- alloc_kpages ;;
    if decide (v_page_addrs = 0) then kret (Some ENOMEM)
    else
      bzero_page v_page_addrs ;;;
      l2o1 <- load old_pt i ;;
      e1 <- load l2o1 j ;;
      memmove_page v_page_addrs (u32 (PADDR_TO_KVADDR (Z.land e1 PAGE_FRAME))) ;;;
      (* check if old_pt is dirty *)
      l2o2 <- load old_pt i ;;
      e2 <- load l2o2 j ;;
      let dirty := Z.land e2 TLBLO_DIRTY in
      l2n <- load new_pt i ;;
      store l2n j (Z.lor (Z.lor (Z.land (u32 (KVADDR_TO_PADDR v_page_addrs)) PAGE_FRAME)
                                dirty) TLBLO_VALID) ;;;
      kret None
  else
    l2n <- load new_pt i ;;
    store l2n j 0 ;;;
    kret None.

(** The body of the outer loop of [vm_copy_pt] at [i]. *)
Definition vm_copy_slot (old_pt new_pt : Z) (i : nat) : M (option retcode) :=
  l2o <- load old_pt i ;;
  if decide (l2o = 0) then kret None   (* continue *)
  else
    p <- kmalloc PT_SIZE ;;
    store new_pt i p ;;;
    for_ret PT_SIZE 0 (vm_copy_entry old_pt new_pt i).

Definition vm_copy_pt (old_pt new_pt : Z) : M retcode :=
  r <- for_ret PT_SIZE 0 (vm_copy_slot old_pt new_pt) ;;
  match r with
  | Some e => kret e
  | None => kret OK
  end.

Definition load_tlb (entryHi entryLo : Z) : M unit :=
  (* disable interrupt *)
  emit EvSplHigh ;;;
  emit (EvTlbRandom entryHi entryLo) ;;;
  emit EvSplx.

(** *** Address spaces *)

Definition as_create : M (option addrspace) :=
  a <- kmalloc 0 ;;
  if decide (a = 0) then kret None
  else
    (* initialize first-level page table *)
    pt <- alloc_kpages ;;
    if decide (pt = 0) then kfree a ;;; kret None
    else
      (* set 1st lvl page table entries to NULL *)
      for_do PT_SIZE 0 (fun i => store pt i 0) ;;;
      kret (Some (Addrspace a [] pt)).

(** The overlap scan of [as_define_region] over the list from [curr];
    [vaddr] and [memsize] are already normalised. *)
Fixpoint region_overlaps (vaddr0 memsize0 : Z) (curr : list region) : bool :=
  match curr with
  | [] => false
  | c :: next =>
      if bool_decide (vaddr0 <= u32 (vaddr c + memsize c)) &&
         bool_decide (u32 (vaddr0 + memsize0) >= vaddr c)
      then true
      else region_overlaps vaddr0 memsize0 next
  end.

Definition as_define_region (as_ : addrspace) (vaddr0 memsize0 : Z)
    (readable0 writeable0 executable0 : Z) : M (retcode * addrspace) :=
  let memsize1 := u32 (memsize0 + Z.land vaddr0 (u32 (Z.lnot PAGE_FRAME))) in
  let vaddr1 := Z.land vaddr0 PAGE_FRAME in
  let memsize2 := Z.land (u32 (memsize1 + PAGE_SIZE - 1)) PAGE_FRAME in
  (* Check for region within kuseg *)
  if decide (u32 (vaddr1 + memsize2) > MIPS_KSEG0) then kret (EFAULT, as_)
  (* Check for overlapping regions *)
  else if region_overlaps vaddr1 memsize2 (region_list as_) then kret (EINVAL, as_)
  else
    new_region <- kmalloc 0 ;;
    if decide (new_region = 0) then kret (ENOMEM, as_)
    else
      let r := Region new_region vaddr1 memsize2 readable0 writeable0
                      executable0 writeable0 in
      kret (OK, Addrspace (as_self as_) (r :: region_list as_) (pagetable as_)).

(** The inner loop of [as_destroy] over one second-level table. *)
Definition destroy_frames (l1 : Z) (i : nat) : M unit :=
  for_do PAGETABLE_SIZE 0 (fun j =>
    l2 <- load l1 i ;;
    e <- load l2 j ;;
    if decide (e <> 0)
    then free_kpages (Z.land (u32 (PADDR_TO_KVADDR e)) PAGE_FRAME)
    else kret tt).

(** The loop of [as_destroy] over the region list from [curr]. *)
Fixpoint destroy_regions (curr : list region) : M unit :=
  match curr with
  | [] => kret tt
  | tmp :: next => kfree (r_node tmp) ;;; destroy_regions next
  end.

Definition as_destroy (as_ : addrspace) : M unit :=
  for_do PAGETABLE_SIZE 0 (fun i =>
    l2 <- load (pagetable as_) i ;;
    if decide (l2 <> 0) then destroy_frames (pagetable as_) i else kret tt) ;;;
  kfree (pagetable as_) ;;;
  destroy_regions (region_list as_) ;;;
  kfree (as_self as_).

(** The first loop of [as_copy]: declare the regions from [curr] in
    [newas]; an error leaves the loop at once. *)
Fixpoint copy_regions (curr : list region) (newas : addrspace)
  : M (retcode * addrspace) :=
  match curr with
  | [] => kret (OK, newas)
  | c :: next =>
      r <- as_define_region newas (vaddr c) (memsize c) (readable c)
                            (writeable c) (executable c) ;;
      match r with
      | (OK, newas') => copy_regions next newas'
      | (e, newas') => kret (e, newas')
      end
  end.

(** [as_copy]: the second component is what is written to [*ret]. *)
Definition as_copy (old : addrspace) : M (retcode * option addrspace) :=
  n <- as_create ;;
  match n with
  | None => kret (ENOMEM, None)
  | Some newas =>
      r <- copy_regions (region_list old) newas ;;
      match r with
      | (OK, newas') =>
          vm_copy_pt (pagetable old) (pagetable newas') ;;;
          kret (OK, Some newas')
      | (e, newas') =>
          as_destroy newas' ;;;
          kret (e, None)
      end
  end.

Definition as_activate (curproc : option proc) : M unit :=
  match proc_getas curproc with
  | None => kret tt
  | Some _ =>
      emit EvSplHigh ;;;
      for_do NUM_TLB 0 (fun i => emit (EvTlbInvalidate i)) ;;;
      emit EvSplx
  end.

Definition as_deactivate (curproc : option proc) : M unit :=
  as_activate curproc.

Definition prepare_region (curr : region) : region :=
  Region (r_node curr) (vaddr curr) (memsize curr) (readable curr)
         1 (executable curr) (writeable curr).

Definition as_prepare_load (as_ : addrspace) : M (retcode * addrspace) :=
  kret (OK, Addrspace (as_self as_) (map prepare_region (region_list as_))
                      (pagetable as_)).

Definition complete_region (curr : region) : region :=
  Region (r_node curr) (vaddr curr) (memsize curr) (readable curr)
         (old_writeable curr) (executable curr) (old_writeable curr).

Definition as_complete_load (curproc : option proc) (as_ : addrspace)
  : M (retcode * addrspace) :=
  as_activate curproc ;;;
  kret (OK, Addrspace (as_self as_) (map complete_region (region_list as_))
                      (pagetable as_)).

(** Returns the result, the address space and [*stackptr]. *)
Definition as_define_stack (as_ : addrspace) : M (retcode * addrspace * Z) :=
  let stackptr := USERSTACK in
  r <- as_define_region as_ (u32 (stackptr - PAGE_SIZE * NUM_STACK_PAGES))
                        (PAGE_SIZE * NUM_STACK_PAGES) 1 1 0 ;;
  kret (r, stackptr).

(** *** The fault handler *)

(** The two table indices [vm_fault] computes. *)
Definition pt1_bits (faultaddress : Z) : Z :=
  Z.shiftr (u32 (KVADDR_TO_PADDR faultaddress)) 22.

Definition pt2_bits (faultaddress : Z) : Z :=
  Z.shiftr (u32 (Z.shiftl (u32 (KVADDR_TO_PADDR faultaddress)) 10)) 22.

(** The region scan of [vm_fault]: the first region from [cur_reg] that
    contains the address. *)
Fixpoint find_region (faultaddress : Z) (cur_reg : list region) : option region :=
  match cur_reg with
  | [] => None
  | c :: next =>
      if bool_decide (faultaddress >= vaddr c) &&
         bool_decide (faultaddress < u32 (vaddr c + memsize c))
      then Some c
      else find_region faultaddress next
  end.

(** The rollback on the error paths. *)
Definition rollback_l1 (alloc_pt1 : bool) (pagetable : Z) (i1 : nat) : M unit :=
  if alloc_pt1 then (l2 <- load pagetable i1 ;; kfree l2) else kret tt.

(** The end of [vm_fault]: load the TLB with the stored entry. *)
Definition vm_fault_load_tlb (as_ : addrspace) (i1 i2 : nat) (faultaddress : Z)
  : M retcode :=
  let entryHi := Z.land faultaddress PAGE_FRAME in
  l2 <- load (pagetable as_) i1 ;;
  entryLo <- load l2 i2 ;;
  load_tlb entryHi entryLo ;;;
  kret OK.

(** [vm_fault] from the split of the address on, [as_] being the
    address space of the current process. *)
Definition vm_fault_as (as_ : addrspace) (faultaddress : Z) : M retcode :=
  let i1 := Z.to_nat (pt1_bits faultaddress) in
  let i2 := Z.to_nat (pt2_bits faultaddress) in
  (* check if 1-lvl is NULL *)
  slot <- load (pagetable as_) i1 ;;
  r <- (if decide (slot = 0)
        then check <- vm_add_l1_entry (pagetable as_) i1 ;; kret (check, true)
        else kret (OK, false)) ;;
  match r with
  | (OK, alloc_pt1) =>
      l2 <- load (pagetable as_) i1 ;;
      e <- load l2 i2 ;;
      if decide (e = 0) then
        (* look up region *)
        match find_region faultaddress (region_list as_) with
        | None =>
            (* invalid region *)
            rollback_l1 alloc_pt1 (pagetable as_) i1 ;;;
            kret EFAULT
        | Some cur_reg =>
            let dirty := if decide (writeable cur_reg <> 0) then TLBLO_DIRTY else 0 in
            (* allocate frame, zero fill, insert *)
            check <- vm_add_l2_entry (pagetable as_) i1 i2 dirty ;;
            match check with
            | OK => vm_fault_load_tlb as_ i1 i2 faultaddress
            | _ => rollback_l1 alloc_pt1 (pagetable as_) i1 ;;; kret check
            end
        end
      else vm_fault_load_tlb as_ i1 i2 faultaddress
  | (check, _) => kret check
  end.

Definition vm_fault (curproc : option proc) (faulttype : fault)
    (faultaddress : Z) : M retcode :=
  match curproc with
  | None => kret EFAULT
  | Some _ =>
      match faulttype with
      | VM_FAULT_READONLY => kret EFAULT
      | VM_FAULT_READ | VM_FAULT_WRITE =>
          match proc_getas curproc with
          | None => kret EFAULT
          | Some as_ => vm_fault_as as_ faultaddress
          end
      | VM_FAULT_OTHER => kret EINVAL
      end
  end.

End Code.

(** ** Reading the state: predicates used in the statements *)

(** The word at [base[i]], when [base] is live and [i] in range. *)
Definition peek (k : kernel) (base : Z) (i : nat) : option Z :=
  match k_mem k !! base with
  | Some b => b_words b !! i
  | None => None
  end.

(** The page-table entry that the table rooted at [pt] holds for the
    address [fa]: [None] when the first-level slot is absent (or cannot
    be followed), [Some 0] for the unmapped sentinel. *)
Definition pt_entry {mach : Machine} (k : kernel) (pt : Z) (fa : Z) : option Z :=
  match peek k pt (Z.to_nat (pt1_bits fa)) with
  | Some l2 => if decide (l2 = 0) then None
               else peek k l2 (Z.to_nat (pt2_bits fa))
  | None => None
  end.

(** A first-level table: a live page of [PT_SIZE] slots. *)
Definition l1_table (k : kernel) (pt : Z) (t : list Z) : Prop :=
  k_mem k !! pt = Some (Blk APage t) /\ length t = PT_SIZE.

(** [a] is an address an allocator may hand out: not null, not live. *)
Definition fresh (k : kernel) (a : Z) : Prop := a <> 0 /\ k_mem k !! a = None.

(** A second-level table: a live [kmalloc] block of [PT_SIZE] entries. *)
Definition l2_table (k : kernel) (l2 : Z) (ws : list Z) : Prop :=
  l2 <> 0 /\ k_mem k !! l2 = Some (Blk AHeap ws) /\ length ws = PT_SIZE.

(** The entry [vm_add_l2_entry] stores for the page at kernel address
    [v]. *)
Definition new_entry {mach : Machine} (v dirty : Z) : Z :=
  Z.lor (Z.lor (Z.land (u32 (KVADDR_TO_PADDR v)) PAGE_FRAME) dirty) TLBLO_VALID.

(** The dirty bits [vm_fault] derives from the region found. *)
Definition region_dirty {mach : Machine} (r : region) : Z :=
  if decide (writeable r <> 0) then TLBLO_DIRTY else 0.


(** The entry of [fa] can be populated with the page [v]: the
    first-level slot leads to a live table whose entry for [fa] is the
    sentinel, or the slot is absent and [kmalloc] will deliver a fresh
    block other than [v]. *)
Definition mappable {mach : Machine} (k : kernel) (pt fa v : Z) : Prop :=
  exists t, l1_table k pt t /\
    ((t !! Z.to_nat (pt1_bits fa) = Some 0 /\
      exists p junk hrest,
        k_heap_pool k = (p, junk) :: hrest /\ fresh k p /\ p <> v) \/
     (exists l2 ws,
        t !! Z.to_nat (pt1_bits fa) = Some l2 /\ l2_table k l2 ws /\
        ws !! Z.to_nat (pt2_bits fa) = Some 0)).

(** The process whose address space is [as_]. *)
Definition proc_of (as_ : addrspace) : option proc := Some (Proc (Some as_)).

(** The kernel address [as_destroy] passes to [free_kpages] for the
    entry [e]. *)
Definition frame_of {mach : Machine} (e : Z) : Z :=
  Z.land (u32 (PADDR_TO_KVADDR e)) PAGE_FRAME.

(** The table rooted at [pt] holds the entry [e], not the sentinel, at
    the indices [(i, j)]. *)
Definition pte_at (k : kernel) (pt : Z) (i j : nat) (e : Z) : Prop :=
  exists l2, peek k pt i = Some l2 /\ l2 <> 0 /\ peek k l2 j = Some e /\ e <> 0.

(** An address space as the functions of this file keep it, in the
    kernel state [k]: the first-level table is a live page; every slot
    in use leads to a live second-level array; every entry in use names
    a live page other than the first-level table, and no two entries
    name the same one; the region records and the address-space record
    are live [kmalloc] blocks, each its own and none of them a
    second-level array. *)
Record wf_as {mach : Machine} (k : kernel) (as_ : addrspace) : Prop := {
  wf_l1 : exists t, l1_table k (pagetable as_) t;
  wf_l2 : forall i l2, peek k (pagetable as_) i = Some l2 -> l2 <> 0 ->
            (exists ws, l2_table k l2 ws) /\
            (l2 ∉ map r_node (region_list as_)) /\ l2 <> as_self as_;
  wf_frames : forall i j e, pte_at k (pagetable as_) i j e ->
            frame_of e <> pagetable as_ /\
            exists fw, k_mem k !! frame_of e = Some (Blk APage fw);
  wf_unshared : forall i j e i' j' e',
            pte_at k (pagetable as_) i j e -> pte_at k (pagetable as_) i' j' e' ->
            frame_of e = frame_of e' -> i = i' /\ j = j';
  wf_nodes : NoDup (map r_node (region_list as_)) /\
             Forall (fun n => exists w, k_mem k !! n = Some (Blk AHeap w))
                    (map r_node (region_list as_));
  wf_self : (exists w, k_mem k !! as_self as_ = Some (Blk AHeap w)) /\
            (as_self as_ ∉ map r_node (region_list as_))
}.

(** The position [(i', j')] comes before [(i, j)] in the walk of
    [as_destroy]. *)
Definition walked (i j i' j' : nat) : Prop :=
  (i' < i)%nat \/ (i' = i /\ (j' < j)%nat).

(** The state of the walk at [(i, j)]: the pages of the entries walked
    are gone, every other block is as in [k]. *)
Definition destroy_inv {mach : Machine} (k : kernel) (pt : Z) (i j : nat)
    (k0 : kernel) : Prop :=
  (forall q, (forall i' j' e', pte_at k pt i' j' e' -> walked i j i' j' ->
                               q <> frame_of e') ->
             k_mem k0 !! q = k_mem k !! q) /\
  (forall i' j' e', pte_at k pt i' j' e' -> walked i j i' j' ->
                    k_mem k0 !! frame_of e' = None).

(** ** The normalised range of a region, in the words of the specification *)

(** The normalised range as the specification words it: the base
    rounded down to a page boundary, and the length extended to cover
    the original range and rounded up to whole pages. *)
Definition spec_region_base (va : Z) : Z := va - va mod PAGE_SIZE.

Definition spec_region_length (va sz : Z) : Z :=
  PAGE_SIZE * ((sz + va mod PAGE_SIZE + PAGE_SIZE - 1) / PAGE_SIZE).

(** ** Concrete states of the MIPS machine *)

(** A kernel right after boot: nothing allocated, three free pages and
    eight free [kmalloc] blocks, all of them zero-filled. *)
Definition boot : kernel :=
  Kernel ∅
    [(0x80010000, []); (0x80011000, []); (0x80012000, [])]
    [(0x80020000, []); (0x80021000, []); (0x80022000, []); (0x80023000, []);
     (0x80024000, []); (0x80025000, []); (0x80026000, []); (0x80027000, [])]
    [].

(** A code segment at [0x1000] of two pages, read and execute only. *)
Definition code_region : region := Region 0x80021000 0x1000 0x2000 1 0 1 0.

(** An address space with that one region, and the kernel after
    [as_create] and [as_define_region] built it from [boot]. *)
Definition code_as : addrspace := Addrspace 0x80020000 [code_region] 0x80010000.

Definition k_code : kernel :=
  Kernel (<[0x80010000 := Blk APage (replicate 1024 0)]>
            (<[0x80020000 := Blk AHeap []]>
               (<[0x80021000 := Blk AHeap []]> ∅)))
    [(0x80011000, []); (0x80012000, [])]
    [(0x80022000, []); (0x80023000, []);
     (0x80024000, []); (0x80025000, []); (0x80026000, []); (0x80027000, [])]
    [].

(** [k_code] after a fault at [0x1000] has been resolved with the dirty
    bits [dirty]: the second-level array of slot 512 is at
    [0x80022000], the frame at physical [0x11000]. *)
Definition k_code_mapped (dirty : Z) : kernel :=
  Kernel (<[0x80010000 := Blk APage (<[512%nat := 0x80022000]> (replicate 1024 0))]>
            (<[0x80011000 := Blk APage (replicate 1024 0)]>
               (<[0x80020000 := Blk AHeap []]>
                  (<[0x80021000 := Blk AHeap []]>
                     (<[0x80022000 := Blk AHeap (<[1%nat := Z.lor (Z.lor 0x11000 dirty) 0x200]>
                                                   (replicate 1024 0))]> ∅)))))
    [(0x80012000, [])]
    [(0x80023000, []);
     (0x80024000, []); (0x80025000, []); (0x80026000, []); (0x80027000, [])]
    [EvSplHigh; EvTlbRandom 0x1000 (Z.lor (Z.lor 0x11000 dirty) 0x200); EvSplx].

(** The user stack as [as_define_stack] declares it on a new address
    space. *)
Definition stack_region : region := Region 0x80021000 0x7fff0000 0x10000 1 1 0 1.

Definition stack_as : addrspace := Addrspace 0x80020000 [stack_region] 0x80010000.

(** The address space [as_copy] builds for [code_as] in
    [k_code_mapped 0]. *)
Definition child_as : addrspace :=
  Addrspace 0x80023000 [Region 0x80024000 0x1000 0x2000 1 0 1 0] 0x80012000.

(** [k_code_mapped 0x400] after the process wrote a word to its page at
    [0x1000], with two pages free (the second one holding stale
    words). *)
Definition k_parent : kernel :=
  Kernel (<[0x80011000 := Blk APage (<[3%nat := 0xdeadbeef]> (replicate 1024 0))]>
            (k_mem (k_code_mapped 0x400)))
    [(0x80012000, []); (0x80013000, [7; 7; 7; 7; 7])]
    (k_heap_pool (k_code_mapped 0x400))
    (k_trace (k_code_mapped 0x400)).

#[global] Arguments PT_SIZE : simpl never.
#[global] Arguments PAGE_WORDS : simpl never.
#[global] Arguments PAGETABLE_SIZE : simpl never.

(** The base and the size [as_define_region] records for the arguments
    [va] and [sz]: its three assignments before the checks. *)
Definition norm_vaddr (va : Z) : Z := Z.land va PAGE_FRAME.

Definition norm_memsize (va sz : Z) : Z :=
  Z.land (u32 (u32 (sz + Z.land va (u32 (Z.lnot PAGE_FRAME))) + PAGE_SIZE - 1)) PAGE_FRAME.

(** The end of a region as both scans compute it, in 32 bits. *)
Definition region_end (r : region) : Z := u32 (vaddr r + memsize r).

(** The address lies in the region, by the test of [vm_fault]. *)
Definition region_has (r : region) (fa : Z) : Prop :=
  vaddr r <= fa /\ fa < region_end r.

(** Two regions that the overlap test of [as_define_region] keeps
    apart: one ends strictly below the base of the other. *)
Definition apart (a b : region) : Prop :=
  region_end b < vaddr a \/ region_end a < vaddr b.

(** Every two regions of the list are apart. *)
Fixpoint regions_apart (l : list region) : Prop :=
  match l with
  | [] => True
  | r :: l' => Forall (apart r) l' /\ regions_apart l'
  end.

(** The region lies in the user segment: base and size are not
    negative and the end, computed without wrap-around, is at most
    [MIPS_KSEG0]. *)
Definition in_user {mach : Machine} (r : region) : Prop :=
  0 <= vaddr r /\ 0 <= memsize r /\ vaddr r + memsize r <= MIPS_KSEG0.

(** What the statements on the stack assume of the headers: the stack
    pointer is page aligned, lies in the user segment and leaves room
    for the stack below it. *)
Definition stack_ok {mach : Machine} : Prop :=
  0 < NUM_STACK_PAGES /\ PAGE_SIZE * NUM_STACK_PAGES <= USERSTACK /\
  USERSTACK <= MIPS_KSEG0 /\ MIPS_KSEG0 <= 2 ^ 32 - PAGE_SIZE /\
  USERSTACK mod PAGE_SIZE = 0.

(** An address space whose second-level arrays are, beyond [wf_as],
    each reached from one slot of the first-level table only. *)
Definition tidy {mach : Machine} (k : kernel) (as_ : addrspace) : Prop :=
  wf_as k as_ /\
  forall i i' l2, peek k (pagetable as_) i = Some l2 ->
                  peek k (pagetable as_) i' = Some l2 -> l2 <> 0 -> i = i'.

(** A region as [as_define_region] leaves it: base and size are whole
    pages, and the region ends in the user segment. *)
Definition normalised {mach : Machine} (c : region) : Prop :=
  0 <= vaddr c /\ 0 <= memsize c /\
  vaddr c mod PAGE_SIZE = 0 /\ memsize c mod PAGE_SIZE = 0 /\
  vaddr c + memsize c <= MIPS_KSEG0.

(** The copy [as_copy] makes of the region [c], in the block [node]. *)
Definition copy_of (node : Z) (c : region) : region :=
  Region node (vaddr c) (memsize c) (readable c) (writeable c) (executable c)
         (writeable c).

(** Memory after [kmalloc] delivered the blocks [nodes] for region
    records. *)
Definition with_nodes (nodes : list Z) (m : gmap Z blk) : gmap Z blk :=
  foldl (fun m n => <[n := Blk AHeap []]> m) m nodes.

(** The kernel address [vm_copy_pt] copies the page of the entry [e]
    from. *)
Definition copy_src {mach : Machine} (e : Z) : Z :=
  u32 (PADDR_TO_KVADDR (Z.land e PAGE_FRAME)).

(** The words of the array at [l2]. *)
Definition l2_words (k : kernel) (l2 : Z) : list Z :=
  match k_mem k !! l2 with
  | Some b => b_words b
  | None => []
  end.

(** The number of words of [ws] that are not zero: slots in use of a
    first-level table, entries in use of a second-level array. *)
Fixpoint live_entries (ws : list Z) : nat :=
  match ws with
  | [] => 0
  | e :: ws' => (if decide (e = 0) then 0 else 1) + live_entries ws'
  end.

(** The number of pages a clone of the first-level slots [t] takes. *)
Fixpoint pages_needed (k : kernel) (t : list Z) : nat :=
  match t with
  | [] => 0
  | l2 :: t' => (if decide (l2 = 0) then 0 else live_entries (l2_words k l2))
                + pages_needed k t'
  end.

(** The free blocks and pages of [k0] are distinct, not null, and in
    use neither in [k0] nor in the earlier state [k]. *)
Definition pools_fresh (k k0 : kernel) : Prop :=
  NoDup (map fst (k_heap_pool k0) ++ map fst (k_page_pool k0)) /\
  Forall (fun a => a <> 0 /\ k_mem k0 !! a = None /\ k_mem k !! a = None)
         (map fst (k_heap_pool k0) ++ map fst (k_page_pool k0)).

(** The entry [c] of the clone, in the state [k0], stands for the entry
    [e] of the original, in the state [k]: the sentinel for the
    sentinel; otherwise a valid entry with the dirty bit of [e], for a
    page that was not in use in [k] and now holds the words of the page
    of [e]. *)
Definition clone_of {mach : Machine} (k k0 : kernel) (e : Z) (c : option Z) : Prop :=
  if decide (e = 0) then c = Some 0
  else exists v kd w,
    c = Some (new_entry v (Z.land e TLBLO_DIRTY)) /\ v <> 0 /\
    k_mem k !! v = None /\
    k_mem k !! copy_src e = Some (Blk kd w) /\
    k_mem k0 !! v = Some (Blk APage (take PAGE_WORDS w)).

(** The array at [p] in [k0] is a clone of the first [n] entries of the
    array at [l2] in [k]. *)
Definition cloned {mach : Machine} (k k0 : kernel) (p l2 : Z) (n : nat) : Prop :=
  exists ws', k_mem k0 !! p = Some (Blk AHeap ws') /\ length ws' = PT_SIZE /\
    forall j e, (j < n)%nat -> peek k l2 j = Some e -> clone_of k k0 e (ws' !! j).

(** The inner loop of [vm_copy_pt] at the entry [j] of a slot whose new
    array is [p]; [ks] is the state when the loop was entered, [need]
    the number of pages the slots after this one take. *)
Definition copy_slot_inv {mach : Machine} (k ks : kernel) (p l2 : Z) (need : nat)
    (j : nat) (k0 : kernel) : Prop :=
  (forall q b, k_mem ks !! q = Some b -> q <> p -> k_mem k0 !! q = Some b) /\
  k_heap_pool k0 = k_heap_pool ks /\
  cloned k k0 p l2 j /\ pools_fresh k k0 /\
  (live_entries (drop j (l2_words k l2)) + need <= length (k_page_pool k0))%nat.

(** The outer loop of [vm_copy_pt] at the slot [i]. *)
Definition copy_pt_inv {mach : Machine} (k : kernel) (new : Z) (to : list Z)
    (i : nat) (k0 : kernel) : Prop :=
  (forall q b, k_mem k !! q = Some b -> q <> new -> k_mem k0 !! q = Some b) /\
  (exists tn0, l1_table k0 new tn0 /\
     (forall i', to !! i' = Some 0 -> tn0 !! i' = Some 0) /\
     forall i' l2, (i' < i)%nat -> to !! i' = Some l2 -> l2 <> 0 ->
       exists p, tn0 !! i' = Some p /\ p <> 0 /\ k_mem k !! p = None /\
                 cloned k k0 p l2 PT_SIZE) /\
  pools_fresh k k0 /\
  (live_entries (drop i to) <= length (k_heap_pool k0))%nat /\
  (pages_needed k (drop i to) <= length (k_page_pool k0))%nat.

(** The address space [as_create] makes from [boot], and the kernel
    state after it. *)
Definition empty_as : addrspace := Addrspace 0x80020000 [] 0x80010000.

Definition k_created : kernel :=
  Kernel (<[0x80010000 := Blk APage (replicate 1024 0)]>
            (<[0x80020000 := Blk AHeap []]> ∅))
    [(0x80011000, []); (0x80012000, [])]
    [(0x80021000, []); (0x80022000, []); (0x80023000, []);
     (0x80024000, []); (0x80025000, []); (0x80026000, []); (0x80027000, [])]
    [].

(** [k_code_mapped 0] with two pages free: enough for a copy of
    [code_as]. *)
Definition k_fork : kernel :=
  Kernel (k_mem (k_code_mapped 0))
    [(0x80012000, []); (0x80013000, [])]
    (k_heap_pool (k_code_mapped 0)) [].

(** [k_fork] after [as_copy] has made the new address space and its
    region: the first-level table of the copy is at [0x80012000]. *)
Definition k_clone : kernel :=
  Kernel (<[0x80012000 := Blk APage (replicate 1024 0)]>
            (<[0x80023000 := Blk AHeap []]>
               (<[0x80024000 := Blk AHeap []]> (k_mem (k_code_mapped 0)))))
    [(0x80013000, [])]
    [(0x80025000, []); (0x80026000, []); (0x80027000, [])] [].

(** [code_as] with a data page declared at [0x00400000], and the
    kernel state after that declaration in [k_code]. *)
Definition data_region : region := Region 0x80022000 0x400000 0x1000 1 1 0 1.

Definition data_as : addrspace :=
  Addrspace 0x80020000 [data_region; code_region] 0x80010000.

Definition k_data : kernel :=
  Kernel (<[0x80022000 := Blk AHeap []]> (k_mem k_code))
    (k_page_pool k_code)
    [(0x80023000, []); (0x80024000, []); (0x80025000, []); (0x80026000, []);
     (0x80027000, [])]
    [].
(** ** Basic facts about the monad and the memory operations *)

Lemma kbind_some {A B} (m : M A) (f : A -> M B) k a k' :
  m k = Some (a, k') -> kbind m f k = f a k'.
Proof. intros H. unfold kbind. now rewrite H. Qed.

Lemma kbind_inv {A B} (m : M A) (f : A -> M B) k r :
  kbind m f k = Some r -> exists a k', m k = Some (a, k') /\ f a k' = Some r.
Proof.
  unfold kbind. destruct (m k) as [[a k']|] eqn:E; [|discriminate].
  intros H. now exists a, k'.
Qed.

Lemma load_peek base i k :
  load base i k = match peek k base i with
                  | Some w => Some (w, k)
                  | None => None
                  end.
Proof. unfold load, peek. destruct (k_mem k !! base); reflexivity. Qed.

Lemma load_ok base i k w : peek k base i = Some w -> load base i k = Some (w, k).
Proof. intros H. now rewrite load_peek, H. Qed.

Lemma load_inv base i k w k' :
  load base i k = Some (w, k') -> k' = k /\ peek k base i = Some w.
Proof.
  rewrite load_peek. destruct (peek k base i); [|discriminate].
  intros [= -> ->]. auto.
Qed.

Lemma store_ok base i w k b :
  k_mem k !! base = Some b -> (i < length (b_words b))%nat ->
  store base i w k =
    Some (tt, set_mem (<[base := Blk (b_kind b) (<[i := w]> (b_words b))]> (k_mem k)) k).
Proof.
  intros Hb Hi. unfold store. rewrite Hb.
  destruct (decide (i < length (b_words b))%nat); [reflexivity | contradiction].
Qed.

Lemma peek_set_mem_eq m k base b i :
  peek (set_mem (<[base := b]> m) k) base i = b_words b !! i.
Proof. unfold peek, set_mem. simpl. now rewrite lookup_insert_eq. Qed.

Lemma peek_set_mem_ne m k base base' b i :
  base <> base' ->
  peek (set_mem (<[base := b]> m) k) base' i = peek (set_mem m k) base' i.
Proof. intros Hne. unfold peek, set_mem. simpl. now rewrite lookup_insert_ne. Qed.

Lemma set_mem_set_mem m m' k : set_mem m (set_mem m' k) = set_mem m k.
Proof. reflexivity. Qed.

Lemma set_mem_id k : set_mem (k_mem k) k = k.
Proof. now destruct k. Qed.

(** *** Loops *)

(** Total correctness of [for_do] from an invariant. *)
Lemma for_do_inv (P : nat -> kernel -> Prop) body n : forall i k,
  P i k ->
  (forall j k0, (i <= j < i + n)%nat -> P j k0 ->
     exists k1, body j k0 = Some (tt, k1) /\ P (S j) k1) ->
  exists k', for_do n i body k = Some (tt, k') /\ P (i + n)%nat k'.
Proof.
  induction n as [|n IH]; intros i k HP Hbody; simpl.
  - exists k. split; [reflexivity|]. now rewrite Nat.add_0_r.
  - destruct (Hbody i k) as (k1 & Hb & HP1); [lia | assumption |].
    rewrite (kbind_some _ _ _ _ _ Hb).
    destruct (IH (S i) k1 HP1) as (k' & Hk' & HP').
    + intros j k0 Hj. apply Hbody. lia.
    + exists k'. split; [assumption|].
      now replace (i + S n)%nat with (S i + n)%nat by lia.
Qed.

(** Partial correctness of [for_do]: what every iteration preserves
    holds when the loop is left. *)
Lemma for_do_preserves (P : kernel -> Prop) body n : forall i k k',
  (forall j k0 k1, P k0 -> body j k0 = Some (tt, k1) -> P k1) ->
  P k -> for_do n i body k = Some (tt, k') -> P k'.
Proof.
  induction n as [|n IH]; intros i k k' Hbody HP; simpl.
  - now intros [= <-].
  - intros H. apply kbind_inv in H as ([] & k1 & Hb & Hrest).
    eapply IH; [exact Hbody | | exact Hrest]. eapply Hbody; eauto.
Qed.



Lemma insert_zero_prefix (ws : list Z) (j : nat) :
  (j < length ws)%nat ->
  <[j := 0]> (replicate j 0 ++ drop j ws) = replicate (S j) 0 ++ drop (S j) ws.
Proof.
  intros Hj.
  rewrite insert_app_r_alt by (rewrite length_replicate; lia).
  rewrite length_replicate, Nat.sub_diag.
  destruct (lookup_lt_is_Some_2 ws j Hj) as [x Hx].
  rewrite (drop_S _ _ _ Hx). cbn [list_insert insert].
  rewrite replicate_S_end, <- app_assoc. reflexivity.
Qed.

(** The zeroing loop of [vm_add_l1_entry]: [ws] becomes all zero. *)
Lemma zero_l2_loop k pt i1 p kd ws :
  peek k pt i1 = Some p -> pt <> p ->
  k_mem k !! p = Some (Blk kd ws) -> length ws = PT_SIZE ->
  for_do PT_SIZE 0 (fun i => l2 <- load pt i1 ;; store l2 i 0) k =
    Some (tt, set_mem (<[p := Blk kd (replicate PT_SIZE 0)]> (k_mem k)) k).
Proof.
  intros Hslot Hne Hp Hlen.
  destruct (for_do_inv
    (fun j k0 => k0 = set_mem (<[p := Blk kd (replicate j 0 ++ drop j ws)]> (k_mem k)) k)
    (fun i => l2 <- load pt i1 ;; store l2 i 0) PT_SIZE 0 k) as (k' & Hrun & Hk').
  - cbn [replicate app]. rewrite drop_0. rewrite insert_id by assumption. now rewrite set_mem_id.
  - intros j k0 Hj ->. eexists. split.
    + erewrite kbind_some.
      2:{ apply load_ok. rewrite peek_set_mem_ne by congruence.
          rewrite set_mem_id. exact Hslot. }
      erewrite store_ok.
      2:{ unfold set_mem. cbn [k_mem]. apply lookup_insert_eq. }
      2:{ cbn [b_words]. rewrite length_app, length_replicate, length_drop. lia. }
      reflexivity.
    + cbn [b_kind b_words]. rewrite set_mem_set_mem. f_equal.
      unfold set_mem at 1. cbn [k_mem].
      rewrite insert_insert_eq. do 2 f_equal.
      apply insert_zero_prefix. lia.
  - rewrite Hrun. cbn [Nat.add] in Hk'. subst k'. do 3 f_equal.
    rewrite drop_ge by lia. now rewrite app_nil_r.
Qed.

(** *** Table indices *)

Lemma u32_range z : 0 <= u32 z < 2 ^ 32.
Proof. unfold u32. apply Z.mod_pos_bound. lia. Qed.

Section Exec.
Context {mach : Machine}.

Lemma pt1_bits_range fa : 0 <= pt1_bits fa < 1024.
Proof.
  unfold pt1_bits. pose proof (u32_range (KVADDR_TO_PADDR fa)) as H.
  rewrite Z.shiftr_div_pow2 by lia. split.
  - apply Z.div_pos; lia.
  - apply Z.div_lt_upper_bound; lia.
Qed.

Lemma pt2_bits_range fa : 0 <= pt2_bits fa < 1024.
Proof.
  unfold pt2_bits.
  pose proof (u32_range (Z.shiftl (u32 (KVADDR_TO_PADDR fa)) 10)) as H.
  rewrite Z.shiftr_div_pow2 by lia. split.
  - apply Z.div_pos; lia.
  - apply Z.div_lt_upper_bound; lia.
Qed.

Lemma pt1_index_lt fa : (Z.to_nat (pt1_bits fa) < PT_SIZE)%nat.
Proof. pose proof (pt1_bits_range fa). unfold PT_SIZE. lia. Qed.

Lemma pt2_index_lt fa : (Z.to_nat (pt2_bits fa) < PT_SIZE)%nat.
Proof. pose proof (pt2_bits_range fa). unfold PT_SIZE. lia. Qed.

(** *** Growing the first level *)

Lemma vm_add_l1_entry_ok k pt i1 t p junk rest :
  l1_table k pt t -> (i1 < PT_SIZE)%nat ->
  k_heap_pool k = (p, junk) :: rest -> fresh k p ->
  vm_add_l1_entry pt i1 k =
    Some (OK, Kernel (<[p := Blk AHeap (replicate PT_SIZE 0)]>
                        (<[pt := Blk APage (<[i1 := p]> t)]> (k_mem k)))
                     (k_page_pool k) rest (k_trace k)).
Proof.
  intros [Hpt Hlen] Hi Hpool [Hp0 Hpf].
  assert (Hne : pt <> p) by congruence.
  unfold vm_add_l1_entry.
  erewrite kbind_some; [|unfold kmalloc; rewrite Hpool; reflexivity].
  erewrite kbind_some.
  2:{ eapply store_ok.
      - cbn [k_mem]. rewrite lookup_insert_ne by congruence. exact Hpt.
      - cbn [b_words]. lia. }
  erewrite kbind_some.
  2:{ apply load_ok. unfold peek, set_mem. cbn [k_mem b_words b_kind].
      rewrite lookup_insert_eq. cbn [b_words].
      apply list_lookup_insert_eq. lia. }
  destruct (decide (p = 0)) as [|_]; [contradiction|].
  erewrite kbind_some.
  2:{ eapply zero_l2_loop with (p := p).
      - unfold peek, set_mem. cbn [k_mem b_words b_kind].
        rewrite lookup_insert_eq. cbn [b_words].
        apply list_lookup_insert_eq. lia.
      - exact Hne.
      - unfold set_mem. cbn [k_mem]. rewrite lookup_insert_ne by exact Hne.
        apply lookup_insert_eq.
      - apply length_resize. }
  unfold kret, set_mem. cbn [k_mem k_page_pool k_heap_pool k_trace b_kind b_words].
  do 3 f_equal.
  rewrite (insert_insert_ne _ pt p) by exact Hne.
  now rewrite insert_insert_eq.
Qed.

Lemma vm_add_l1_entry_nomem k pt i1 t :
  l1_table k pt t -> t !! i1 = Some 0 -> k_heap_pool k = [] ->
  vm_add_l1_entry pt i1 k = Some (ENOMEM, k).
Proof.
  intros [Hpt Hlen] Hi Hpool. unfold vm_add_l1_entry.
  erewrite kbind_some; [|unfold kmalloc; rewrite Hpool; reflexivity].
  erewrite kbind_some.
  2:{ eapply store_ok; [exact Hpt|]. cbn [b_words]. now apply lookup_lt_Some in Hi. }
  cbn [b_kind b_words]. rewrite list_insert_id by exact Hi.
  rewrite insert_id by exact Hpt. rewrite set_mem_id.
  erewrite kbind_some; [|apply load_ok; unfold peek; rewrite Hpt; exact Hi].
  destruct (decide (0 = 0)); [reflexivity | contradiction].
Qed.

(** *** Populating the second level *)

Lemma vm_add_l2_entry_ok k pt i1 i2 dirty l2 kd ws v junk rest :
  peek k pt i1 = Some l2 ->
  k_mem k !! l2 = Some (Blk kd ws) -> (i2 < length ws)%nat ->
  k_page_pool k = (v, junk) :: rest -> fresh k v ->
  vm_add_l2_entry pt i1 i2 dirty k =
    Some (OK, Kernel (<[l2 := Blk kd (<[i2 := new_entry v dirty]> ws)]>
                        (<[v := Blk APage (replicate PAGE_WORDS 0)]> (k_mem k)))
                     rest (k_heap_pool k) (k_trace k)).
Proof.
  intros Hslot Hl2 Hi Hpool [Hv0 Hvf].
  assert (Hne : v <> l2) by congruence.
  assert (Hnept : v <> pt).
  { intros ->. unfold peek in Hslot. now rewrite Hvf in Hslot. }
  unfold vm_add_l2_entry.
  erewrite kbind_some; [|unfold alloc_kpages; rewrite Hpool; reflexivity].
  destruct (decide (v = 0)) as [|_]; [contradiction|].
  erewrite kbind_some.
  2:{ unfold bzero_page. cbn [k_mem]. rewrite lookup_insert_eq. cbn [b_words b_kind].
      rewrite length_resize. destruct (decide (PAGE_WORDS <= PAGE_WORDS)%nat); [|lia].
      reflexivity. }
  rewrite drop_ge by (rewrite length_resize; lia). rewrite app_nil_r.
  erewrite kbind_some.
  2:{ apply load_ok. unfold peek, set_mem. cbn [k_mem].
      rewrite insert_insert_eq, lookup_insert_ne by exact Hnept. exact Hslot. }
  erewrite kbind_some.
  2:{ eapply store_ok.
      - unfold set_mem. cbn [k_mem].
        rewrite insert_insert_eq, lookup_insert_ne by exact Hne. exact Hl2.
      - exact Hi. }
  unfold kret, set_mem. cbn [k_mem k_page_pool k_heap_pool k_trace b_kind b_words].
  now rewrite insert_insert_eq.
Qed.

Lemma vm_add_l2_entry_nomem k pt i1 i2 dirty :
  k_page_pool k = [] -> vm_add_l2_entry pt i1 i2 dirty k = Some (ENOMEM, k).
Proof.
  intros Hpool. unfold vm_add_l2_entry.
  erewrite kbind_some; [|unfold alloc_kpages; rewrite Hpool; reflexivity].
  destruct (decide (0 = 0)); [reflexivity | contradiction].
Qed.

End Exec.

(** *** The fault handler, path by path *)

Section Fault.
Context {mach : Machine}.

(** What [load_tlb] adds to the trace. *)
Lemma load_tlb_run hi lo k :
  load_tlb hi lo k =
    Some (tt, Kernel (k_mem k) (k_page_pool k) (k_heap_pool k)
                     (k_trace k ++ [EvSplHigh; EvTlbRandom hi lo; EvSplx])).
Proof.
  unfold load_tlb, kbind, emit. cbn [k_mem k_page_pool k_heap_pool k_trace].
  now rewrite <- !app_assoc.
Qed.

Lemma vm_fault_load_tlb_run as_ i1 i2 fa k l2 e :
  peek k (pagetable as_) i1 = Some l2 -> peek k l2 i2 = Some e ->
  vm_fault_load_tlb as_ i1 i2 fa k =
    Some (OK, Kernel (k_mem k) (k_page_pool k) (k_heap_pool k)
                     (k_trace k ++ [EvSplHigh; EvTlbRandom (Z.land fa PAGE_FRAME) e; EvSplx])).
Proof.
  intros H1 H2. unfold vm_fault_load_tlb.
  rewrite (kbind_some _ _ _ _ _ (load_ok _ _ _ _ H1)).
  rewrite (kbind_some _ _ _ _ _ (load_ok _ _ _ _ H2)).
  rewrite (kbind_some _ _ _ _ _ (load_tlb_run _ _ _)).
  reflexivity.
Qed.

(** The page is resident: nothing but the TLB is touched. *)
Lemma vm_fault_as_resident as_ fa k e :
  pt_entry k (pagetable as_) fa = Some e -> e <> 0 ->
  vm_fault_as as_ fa k =
    Some (OK, Kernel (k_mem k) (k_page_pool k) (k_heap_pool k)
                     (k_trace k ++ [EvSplHigh; EvTlbRandom (Z.land fa PAGE_FRAME) e; EvSplx])).
Proof.
  unfold pt_entry. intros He Hne.
  destruct (peek k (pagetable as_) (Z.to_nat (pt1_bits fa))) as [l2|] eqn:H1; [|discriminate].
  destruct (decide (l2 = 0)) as [|Hl2]; [discriminate|].
  unfold vm_fault_as.
  rewrite (kbind_some _ _ _ _ _ (load_ok _ _ _ _ H1)).
  destruct (decide (l2 = 0)) as [|_]; [contradiction|].
  unfold kbind at 1. unfold kret at 1.
  rewrite (kbind_some _ _ _ _ _ (load_ok _ _ _ _ H1)).
  rewrite (kbind_some _ _ _ _ _ (load_ok _ _ _ _ He)).
  destruct (decide (e = 0)) as [|_]; [contradiction|].
  now apply vm_fault_load_tlb_run with (l2 := l2).
Qed.


(** First-level slot present, entry unmapped, region found, a frame is
    available. *)
Lemma vm_fault_as_map_l2 as_ fa k r t l2 ws v vjunk prest :
  l1_table k (pagetable as_) t ->
  t !! Z.to_nat (pt1_bits fa) = Some l2 ->
  l2_table k l2 ws -> ws !! Z.to_nat (pt2_bits fa) = Some 0 ->
  find_region fa (region_list as_) = Some r ->
  k_page_pool k = (v, vjunk) :: prest -> fresh k v ->
  vm_fault_as as_ fa k =
    Some (OK, Kernel (<[l2 := Blk AHeap (<[Z.to_nat (pt2_bits fa) := new_entry v (region_dirty r)]> ws)]>
                        (<[v := Blk APage (replicate PAGE_WORDS 0)]> (k_mem k)))
                     prest (k_heap_pool k)
                     (k_trace k ++ [EvSplHigh;
                                    EvTlbRandom (Z.land fa PAGE_FRAME) (new_entry v (region_dirty r));
                                    EvSplx])).
Proof.
  intros Ht Hslot (Hl2 & Hlive & Hlen) He Hr Hpool Hv.
  assert (H1 : peek k (pagetable as_) (Z.to_nat (pt1_bits fa)) = Some l2).
  { unfold peek. destruct Ht as [-> _]. exact Hslot. }
  assert (Hl2pt : l2 <> pagetable as_).
  { intros ->. destruct Ht as [Ht _]. congruence. }
  assert (Hpeek : peek k l2 (Z.to_nat (pt2_bits fa)) = Some 0).
  { unfold peek. now rewrite Hlive. }
  assert (Hi2 : (Z.to_nat (pt2_bits fa) < length ws)%nat) by (now apply lookup_lt_Some in He).
  assert (Hvl2 : v <> l2) by (destruct Hv; congruence).
  assert (Hvpt : v <> pagetable as_).
  { intros ->. destruct Hv as [_ Hv]. unfold peek in H1. now rewrite Hv in H1. }
  unfold vm_fault_as.
  rewrite (kbind_some _ _ _ _ _ (load_ok _ _ _ _ H1)).
  destruct (decide (l2 = 0)) as [|_]; [contradiction|].
  unfold kbind at 1. unfold kret at 1.
  rewrite (kbind_some _ _ _ _ _ (load_ok _ _ _ _ H1)).
  rewrite (kbind_some _ _ _ _ _ (load_ok _ _ _ _ Hpeek)).
  destruct (decide (0 = 0)) as [_|]; [|contradiction].
  rewrite Hr. fold (region_dirty r).
  erewrite kbind_some.
  2:{ eapply vm_add_l2_entry_ok; eauto. }
  cbv beta iota.
  erewrite vm_fault_load_tlb_run with (l2 := l2).
  - reflexivity.
  - unfold peek. cbn [k_mem]. unfold peek in H1.
    rewrite lookup_insert_ne by congruence.
    rewrite lookup_insert_ne by congruence. exact H1.
  - unfold peek. cbn [k_mem]. rewrite lookup_insert_eq. cbn [b_words].
    now apply list_lookup_insert_eq.
Qed.

(** First-level slot absent, [kmalloc] and the frame provider both
    deliver, region found. *)
Lemma vm_fault_as_map_l1 as_ fa k r t p junk hrest v vjunk prest :
  l1_table k (pagetable as_) t ->
  t !! Z.to_nat (pt1_bits fa) = Some 0 ->
  find_region fa (region_list as_) = Some r ->
  k_heap_pool k = (p, junk) :: hrest -> fresh k p ->
  k_page_pool k = (v, vjunk) :: prest -> fresh k v -> p <> v ->
  vm_fault_as as_ fa k =
    Some (OK, Kernel (<[p := Blk AHeap (<[Z.to_nat (pt2_bits fa) := new_entry v (region_dirty r)]>
                                          (replicate PT_SIZE 0))]>
                        (<[v := Blk APage (replicate PAGE_WORDS 0)]>
                           (<[pagetable as_ := Blk APage (<[Z.to_nat (pt1_bits fa) := p]> t)]>
                              (k_mem k))))
                     prest hrest
                     (k_trace k ++ [EvSplHigh;
                                    EvTlbRandom (Z.land fa PAGE_FRAME) (new_entry v (region_dirty r));
                                    EvSplx])).
Proof.
  intros Ht Hslot Hr Hhp Hp Hpp Hv Hpv.
  pose proof (pt1_index_lt fa) as Hi1. pose proof (pt2_index_lt fa) as Hi2.
  assert (H1 : peek k (pagetable as_) (Z.to_nat (pt1_bits fa)) = Some 0).
  { unfold peek. destruct Ht as [-> _]. exact Hslot. }
  assert (Hppt : p <> pagetable as_).
  { intros ->. destruct Hp as [_ Hp], Ht as [Ht _]. congruence. }
  assert (Hvpt : v <> pagetable as_).
  { intros ->. destruct Hv as [_ Hv], Ht as [Ht _]. congruence. }
  unfold vm_fault_as.
  rewrite (kbind_some _ _ _ _ _ (load_ok _ _ _ _ H1)).
  destruct (decide (0 = 0)) as [_|]; [|contradiction].
  erewrite kbind_some.
  2:{ erewrite kbind_some; [|eapply vm_add_l1_entry_ok; eauto]. reflexivity. }
  cbv beta iota.
  set (k1 := Kernel _ _ _ _).
  assert (Hs1 : peek k1 (pagetable as_) (Z.to_nat (pt1_bits fa)) = Some p).
  { unfold peek, k1. cbn [k_mem]. rewrite lookup_insert_ne by congruence.
    rewrite lookup_insert_eq. cbn [b_words]. apply list_lookup_insert_eq.
    destruct Ht as [_ ->]. exact Hi1. }
  assert (Hl2 : k_mem k1 !! p = Some (Blk AHeap (replicate PT_SIZE 0))).
  { unfold k1. cbn [k_mem]. apply lookup_insert_eq. }
  assert (He : peek k1 p (Z.to_nat (pt2_bits fa)) = Some 0).
  { unfold peek. rewrite Hl2. cbn [b_words]. now apply lookup_replicate_2. }
  rewrite (kbind_some _ _ _ _ _ (load_ok _ _ _ _ Hs1)).
  rewrite (kbind_some _ _ _ _ _ (load_ok _ _ _ _ He)).
  destruct (decide (0 = 0)) as [_|]; [|contradiction].
  rewrite Hr. fold (region_dirty r).
  erewrite kbind_some.
  2:{ eapply vm_add_l2_entry_ok with (v := v) (junk := vjunk) (rest := prest).
      - exact Hs1.
      - exact Hl2.
      - rewrite length_replicate. exact Hi2.
      - exact Hpp.
      - destruct Hv as [Hv0 Hv]. split; [exact Hv0|]. unfold k1. cbn [k_mem].
        rewrite lookup_insert_ne by congruence.
        rewrite lookup_insert_ne by congruence. exact Hv. }
  cbv beta iota.
  erewrite vm_fault_load_tlb_run with (l2 := p).
  - unfold k1. cbn [k_mem k_page_pool k_heap_pool k_trace].
    do 3 f_equal. rewrite (insert_insert_ne _ v p) by congruence.
    now rewrite insert_insert_eq.
  - unfold peek. cbn [k_mem]. rewrite lookup_insert_ne by congruence.
    rewrite lookup_insert_ne by congruence. exact Hs1.
  - unfold peek. cbn [k_mem]. rewrite lookup_insert_eq. cbn [b_words].
    apply list_lookup_insert_eq. rewrite length_replicate. exact Hi2.
Qed.

End Fault.

(** *** Flag bits of an entry *)

Section Flags.
Context {mach : Machine}.


Lemma new_entry_valid v dirty :
  Z.land (new_entry v dirty) TLBLO_VALID = TLBLO_VALID.
Proof.
  unfold new_entry. apply Z.bits_inj'. intros n _.
  rewrite Z.land_spec, Z.lor_spec.
  destruct (Z.testbit TLBLO_VALID n);
    [now rewrite orb_true_r | apply andb_false_r].
Qed.

Lemma new_entry_nonzero v dirty : TLBLO_VALID <> 0 -> new_entry v dirty <> 0.
Proof.
  intros HV He. pose proof (new_entry_valid v dirty) as H.
  rewrite He, Z.land_0_l in H. congruence.
Qed.



End Flags.

(** ** The fault handler: statements *)

Section FaultClaims.
Context {mach : Machine}.


(** A fault on an unmapped page inside a region, with memory
    available: the entry is installed with the region's dirty bits, one
    page leaves the pool and is zero-filled. *)
Lemma vm_fault_as_maps as_ fa k r v vjunk prest :
  find_region fa (region_list as_) = Some r ->
  mappable k (pagetable as_) fa v ->
  k_page_pool k = (v, vjunk) :: prest -> fresh k v ->
  exists k',
    vm_fault_as as_ fa k = Some (OK, k') /\
    pt_entry k' (pagetable as_) fa = Some (new_entry v (region_dirty r)) /\
    k_mem k' !! v = Some (Blk APage (replicate PAGE_WORDS 0)) /\
    k_page_pool k' = prest /\
    k_trace k' = k_trace k ++ [EvSplHigh;
                               EvTlbRandom (Z.land fa PAGE_FRAME) (new_entry v (region_dirty r));
                               EvSplx].
Proof.
  intros Hr (t & Ht & Hcase) Hpool Hv.
  pose proof (pt1_index_lt fa) as Hi1. pose proof (pt2_index_lt fa) as Hi2.
  assert (Hvpt : v <> pagetable as_).
  { intros ->. destruct Hv as [_ Hv], Ht as [Ht _]. congruence. }
  destruct Hcase as [(Hslot & p & junk & hrest & Hhp & Hp & Hpv)
                    |(l2 & ws & Hslot & Hl2 & He)].
  - assert (Hppt : p <> pagetable as_).
    { intros ->. destruct Hp as [_ Hp], Ht as [Ht _]. congruence. }
    eexists. split; [eapply vm_fault_as_map_l1; eauto|].
    unfold pt_entry, peek. cbn [k_mem k_page_pool k_trace].
    rewrite lookup_insert_ne by congruence.
    rewrite lookup_insert_ne by congruence.
    rewrite lookup_insert_eq. cbn [b_words].
    rewrite list_lookup_insert_eq by (destruct Ht as [_ ->]; exact Hi1).
    destruct Hp as [Hp0 _]. destruct (decide (p = 0)) as [|_]; [contradiction|].
    rewrite lookup_insert_eq. cbn [b_words].
    rewrite list_lookup_insert_eq by (rewrite length_replicate; exact Hi2).
    rewrite lookup_insert_ne by congruence. rewrite lookup_insert_eq.
    auto.
  - destruct Hl2 as (Hl20 & Hlive & Hlen).
    assert (Hl2pt : l2 <> pagetable as_).
    { intros ->. destruct Ht as [Ht _]. congruence. }
    assert (Hvl2 : v <> l2) by (destruct Hv; congruence).
    eexists. split; [eapply vm_fault_as_map_l2; eauto; now repeat split|].
    unfold pt_entry, peek. cbn [k_mem k_page_pool k_trace].
    rewrite lookup_insert_ne by congruence.
    rewrite lookup_insert_ne by congruence.
    destruct Ht as [-> _]. cbn [b_words]. rewrite Hslot.
    destruct (decide (l2 = 0)) as [|_]; [contradiction|].
    rewrite lookup_insert_eq. cbn [b_words].
    rewrite list_lookup_insert_eq by (rewrite Hlen; exact Hi2).
    rewrite lookup_insert_ne by congruence. rewrite lookup_insert_eq.
    auto.
Qed.

(** C10: when the entry of the faulting page is already present (not
    the sentinel), a READ or WRITE fault returns success, leaves memory
    and both pools as they are and inserts the stored entry in the TLB
    for the page of the fault address; this holds for every region
    list, so neither containment nor permission is looked at. *)
Theorem vm_fault_resident_ignores_regions
    (self pt : Z) (regions : list region) (ft : fault) (fa : Z)
    (k : kernel) (e : Z) :
  ft = VM_FAULT_READ \/ ft = VM_FAULT_WRITE ->
  pt_entry k pt fa = Some e -> e <> 0 ->
  vm_fault (proc_of (Addrspace self regions pt)) ft fa k =
    Some (OK, Kernel (k_mem k) (k_page_pool k) (k_heap_pool k)
                     (k_trace k ++ [EvSplHigh; EvTlbRandom (Z.land fa PAGE_FRAME) e; EvSplx])).
Proof.
  intros Hft He Hne.
  assert (H : vm_fault (proc_of (Addrspace self regions pt)) ft fa k =
              vm_fault_as (Addrspace self regions pt) fa k).
  { destruct Hft as [-> | ->]; reflexivity. }
  rewrite H. now apply vm_fault_as_resident.
Qed.


End FaultClaims.

Section Rollback.
Context {mach : Machine}.

(** The first-level slot was absent, [kmalloc] delivered [p] for it,
    and no region contains the address: [p] is freed but stays in the
    slot. *)
Lemma vm_fault_as_rollback_noregion as_ fa k t p junk hrest :
  l1_table k (pagetable as_) t ->
  t !! Z.to_nat (pt1_bits fa) = Some 0 ->
  k_heap_pool k = (p, junk) :: hrest -> fresh k p ->
  find_region fa (region_list as_) = None ->
  vm_fault_as as_ fa k =
    Some (EFAULT,
          Kernel (<[pagetable as_ := Blk APage (<[Z.to_nat (pt1_bits fa) := p]> t)]> (k_mem k))
                 (k_page_pool k) (hrest ++ [(p, replicate PT_SIZE 0)]) (k_trace k)).
Proof.
  intros Ht Hslot Hhp Hp Hr.
  pose proof (pt1_index_lt fa) as Hi1. pose proof (pt2_index_lt fa) as Hi2.
  assert (H1 : peek k (pagetable as_) (Z.to_nat (pt1_bits fa)) = Some 0).
  { unfold peek. destruct Ht as [-> _]. exact Hslot. }
  assert (Hppt : p <> pagetable as_).
  { intros ->. destruct Hp as [_ Hp], Ht as [Ht _]. congruence. }
  unfold vm_fault_as.
  rewrite (kbind_some _ _ _ _ _ (load_ok _ _ _ _ H1)).
  destruct (decide (0 = 0)) as [_|]; [|contradiction].
  erewrite kbind_some.
  2:{ erewrite kbind_some; [|eapply vm_add_l1_entry_ok; eauto]. reflexivity. }
  cbv beta iota.
  set (k1 := Kernel _ _ _ _).
  assert (Hs1 : peek k1 (pagetable as_) (Z.to_nat (pt1_bits fa)) = Some p).
  { unfold peek, k1. cbn [k_mem]. rewrite lookup_insert_ne by congruence.
    rewrite lookup_insert_eq. cbn [b_words]. apply list_lookup_insert_eq.
    destruct Ht as [_ ->]. exact Hi1. }
  assert (Hl2 : k_mem k1 !! p = Some (Blk AHeap (replicate PT_SIZE 0))).
  { unfold k1. cbn [k_mem]. apply lookup_insert_eq. }
  assert (He : peek k1 p (Z.to_nat (pt2_bits fa)) = Some 0).
  { unfold peek. rewrite Hl2. cbn [b_words]. now apply lookup_replicate_2. }
  rewrite (kbind_some _ _ _ _ _ (load_ok _ _ _ _ Hs1)).
  rewrite (kbind_some _ _ _ _ _ (load_ok _ _ _ _ He)).
  destruct (decide (0 = 0)) as [_|]; [|contradiction].
  rewrite Hr. unfold rollback_l1.
  erewrite kbind_some.
  2:{ rewrite (kbind_some _ _ _ _ _ (load_ok _ _ _ _ Hs1)).
      unfold kfree. rewrite Hl2. reflexivity. }
  unfold kret, release, k1. cbn [b_kind b_words k_mem k_page_pool k_heap_pool k_trace].
  do 3 f_equal. rewrite delete_insert_eq. apply delete_id.
  rewrite lookup_insert_ne by congruence. now destruct Hp.
Qed.

(** The same when a region is found but the frame provider has nothing
    left. *)
Lemma vm_fault_as_rollback_nomem as_ fa k t p junk hrest r :
  l1_table k (pagetable as_) t ->
  t !! Z.to_nat (pt1_bits fa) = Some 0 ->
  k_heap_pool k = (p, junk) :: hrest -> fresh k p ->
  find_region fa (region_list as_) = Some r ->
  k_page_pool k = [] ->
  vm_fault_as as_ fa k =
    Some (ENOMEM,
          Kernel (<[pagetable as_ := Blk APage (<[Z.to_nat (pt1_bits fa) := p]> t)]> (k_mem k))
                 [] (hrest ++ [(p, replicate PT_SIZE 0)]) (k_trace k)).
Proof.
  intros Ht Hslot Hhp Hp Hr Hpp.
  pose proof (pt1_index_lt fa) as Hi1. pose proof (pt2_index_lt fa) as Hi2.
  assert (H1 : peek k (pagetable as_) (Z.to_nat (pt1_bits fa)) = Some 0).
  { unfold peek. destruct Ht as [-> _]. exact Hslot. }
  assert (Hppt : p <> pagetable as_).
  { intros ->. destruct Hp as [_ Hp], Ht as [Ht _]. congruence. }
  unfold vm_fault_as.
  rewrite (kbind_some _ _ _ _ _ (load_ok _ _ _ _ H1)).
  destruct (decide (0 = 0)) as [_|]; [|contradiction].
  erewrite kbind_some.
  2:{ erewrite kbind_some; [|eapply vm_add_l1_entry_ok; eauto]. reflexivity. }
  cbv beta iota.
  set (k1 := Kernel _ _ _ _).
  assert (Hs1 : peek k1 (pagetable as_) (Z.to_nat (pt1_bits fa)) = Some p).
  { unfold peek, k1. cbn [k_mem]. rewrite lookup_insert_ne by congruence.
    rewrite lookup_insert_eq. cbn [b_words]. apply list_lookup_insert_eq.
    destruct Ht as [_ ->]. exact Hi1. }
  assert (Hl2 : k_mem k1 !! p = Some (Blk AHeap (replicate PT_SIZE 0))).
  { unfold k1. cbn [k_mem]. apply lookup_insert_eq. }
  assert (He : peek k1 p (Z.to_nat (pt2_bits fa)) = Some 0).
  { unfold peek. rewrite Hl2. cbn [b_words]. now apply lookup_replicate_2. }
  rewrite (kbind_some _ _ _ _ _ (load_ok _ _ _ _ Hs1)).
  rewrite (kbind_some _ _ _ _ _ (load_ok _ _ _ _ He)).
  destruct (decide (0 = 0)) as [_|]; [|contradiction].
  rewrite Hr.
  erewrite kbind_some; [|apply vm_add_l2_entry_nomem; exact Hpp].
  cbv beta iota. unfold rollback_l1.
  erewrite kbind_some.
  2:{ rewrite (kbind_some _ _ _ _ _ (load_ok _ _ _ _ Hs1)).
      unfold kfree. rewrite Hl2. reflexivity. }
  unfold kret, release, k1. cbn [b_kind b_words k_mem k_page_pool k_heap_pool k_trace].
  rewrite Hpp. do 3 f_equal. rewrite delete_insert_eq. apply delete_id.
  rewrite lookup_insert_ne by congruence. now destruct Hp.
Qed.

(** C3: when this call allocated the second-level array of the slot
    and then fails (no region contains the address, or a region does
    and no frame is left), the handler returns the error (EFAULT, or
    ENOMEM) and frees the array, but the first-level slot is not put
    back to absent: it keeps the address of the freed array, so the page
    table after the failed call differs from the one before it, and the
    next fault in that slot's range follows the dangling pointer. *)
Theorem vm_fault_failed_rollback_leaves_slot
    (as_ : addrspace) (ft : fault) (fa : Z) (k : kernel) (t : list Z)
    (p : Z) (junk : list Z) (hrest : list (Z * list Z)) :
  ft = VM_FAULT_READ \/ ft = VM_FAULT_WRITE ->
  l1_table k (pagetable as_) t ->
  t !! Z.to_nat (pt1_bits fa) = Some 0 ->
  k_heap_pool k = (p, junk) :: hrest -> fresh k p ->
  find_region fa (region_list as_) = None \/ k_page_pool k = [] ->
  exists err k',
    vm_fault (proc_of as_) ft fa k = Some (err, k') /\
    err = match find_region fa (region_list as_) with
           | Some _ => ENOMEM
           | None => EFAULT
           end /\
    peek k (pagetable as_) (Z.to_nat (pt1_bits fa)) = Some 0 /\
    peek k' (pagetable as_) (Z.to_nat (pt1_bits fa)) = Some p /\
    p <> 0 /\ k_mem k' !! p = None /\
    vm_fault (proc_of as_) ft fa k' = None.
Proof.
  intros Hft Ht Hslot Hhp Hp Hfail.
  pose proof (pt1_index_lt fa) as Hi1.
  assert (Hppt : p <> pagetable as_).
  { intros ->. destruct Hp as [_ Hp], Ht as [Ht _]. congruence. }
  assert (H : forall k0, vm_fault (proc_of as_) ft fa k0 = vm_fault_as as_ fa k0).
  { intros k0. destruct Hft as [-> | ->]; reflexivity. }
  rewrite H.
  assert (Hrun : exists pp,
    vm_fault_as as_ fa k =
      Some (match find_region fa (region_list as_) with
            | Some _ => ENOMEM
            | None => EFAULT
            end,
            Kernel (<[pagetable as_ := Blk APage (<[Z.to_nat (pt1_bits fa) := p]> t)]> (k_mem k))
                   pp (hrest ++ [(p, replicate PT_SIZE 0)]) (k_trace k))).
  { destruct (find_region fa (region_list as_)) as [r|] eqn:Hr.
    - destruct Hfail as [|Hpp]; [discriminate|].
      exists []. eapply vm_fault_as_rollback_nomem; eauto.
    - exists (k_page_pool k). eapply vm_fault_as_rollback_noregion; eauto. }
  destruct Hrun as (pp & Hrun).
  eexists _, _. split; [exact Hrun|]. split; [reflexivity|].
  assert (Hs' : forall pl hl tr,
    peek (Kernel (<[pagetable as_ := Blk APage (<[Z.to_nat (pt1_bits fa) := p]> t)]> (k_mem k))
                 pl hl tr) (pagetable as_) (Z.to_nat (pt1_bits fa)) = Some p).
  { intros. unfold peek. cbn [k_mem]. rewrite lookup_insert_eq. cbn [b_words].
    apply list_lookup_insert_eq. destruct Ht as [_ ->]. exact Hi1. }
  assert (Hdead : (<[pagetable as_ := Blk APage (<[Z.to_nat (pt1_bits fa) := p]> t)]> (k_mem k))
                    !! p = None).
  { rewrite lookup_insert_ne by congruence. now destruct Hp. }
  repeat split.
  - unfold peek. destruct Ht as [-> _]. exact Hslot.
  - apply Hs'.
  - now destruct Hp.
  - exact Hdead.
  - rewrite H. unfold vm_fault_as.
    rewrite (kbind_some _ _ _ _ _ (load_ok _ _ _ _ (Hs' _ _ _))).
    destruct Hp as [Hp0 _]. destruct (decide (p = 0)) as [|_]; [contradiction|].
    unfold kbind at 1. unfold kret at 1.
    rewrite (kbind_some _ _ _ _ _ (load_ok _ _ _ _ (Hs' _ _ _))).
    unfold kbind, load. cbn [k_mem]. now rewrite Hdead.
Qed.

End Rollback.

(** ** The load-time permission window *)

Section LoadWindow.
Context {mach : Machine}.

(** [as_activate] only adds to the trace. *)
Lemma as_activate_run cur k :
  exists tr, as_activate cur k =
    Some (tt, Kernel (k_mem k) (k_page_pool k) (k_heap_pool k) (k_trace k ++ tr)).
Proof.
  unfold as_activate. destruct (proc_getas cur) as [a|].
  - destruct (for_do_inv
      (fun _ k0 => exists tr, k0 = Kernel (k_mem k) (k_page_pool k) (k_heap_pool k)
                                          (k_trace k ++ tr))
      (fun i => emit (EvTlbInvalidate i)) NUM_TLB 0
      (Kernel (k_mem k) (k_page_pool k) (k_heap_pool k) (k_trace k ++ [EvSplHigh])))
      as (k' & Hrun & tr & ->).
    + now exists [EvSplHigh].
    + intros j k0 _ (tr & ->). eexists. split; [reflexivity|].
      exists (tr ++ [EvTlbInvalidate j]). cbn [k_mem k_page_pool k_heap_pool k_trace].
      now rewrite app_assoc.
    + exists (tr ++ [EvSplx]).
      unfold kbind at 1. unfold emit at 1. rewrite (kbind_some _ _ _ _ _ Hrun).
      unfold emit. cbn [k_mem k_page_pool k_heap_pool k_trace].
      now rewrite app_assoc.
  - exists []. unfold kret. rewrite app_nil_r. now destruct k.
Qed.

Lemma as_complete_load_run cur as_ k :
  exists tr, as_complete_load cur as_ k =
    Some ((OK, Addrspace (as_self as_) (map complete_region (region_list as_)) (pagetable as_)),
          Kernel (k_mem k) (k_page_pool k) (k_heap_pool k) (k_trace k ++ tr)).
Proof.
  destruct (as_activate_run cur k) as (tr & Hrun). exists tr.
  unfold as_complete_load. now rewrite (kbind_some _ _ _ _ _ Hrun).
Qed.

Lemma complete_prepare_region r :
  complete_region (prepare_region r) =
    Region (r_node r) (vaddr r) (memsize r) (readable r) (writeable r)
           (executable r) (writeable r).
Proof. reflexivity. Qed.


(** C9: [as_prepare_load] returns 0, saves every region's [writeable]
    flag in [old_writeable] and sets the flag to true; [as_complete_load]
    on the result returns 0 and puts back exactly the saved value, so
    the two calls together leave every region's permission, and every
    other field that describes the region, as it was.  Memory and the
    allocators are not touched. *)
Theorem prepare_then_complete_load_is_identity
    (cur : option proc) (as_ : addrspace) (k : kernel) :
  exists as1 as2 k2,
    as_prepare_load as_ k = Some ((OK, as1), k) /\
    map old_writeable (region_list as1) = map writeable (region_list as_) /\
    Forall (fun r => writeable r = 1) (region_list as1) /\
    as_complete_load cur as1 k = Some ((OK, as2), k2) /\
    map writeable (region_list as2) = map writeable (region_list as_) /\
    map vaddr (region_list as2) = map vaddr (region_list as_) /\
    map memsize (region_list as2) = map memsize (region_list as_) /\
    map readable (region_list as2) = map readable (region_list as_) /\
    map executable (region_list as2) = map executable (region_list as_) /\
    pagetable as2 = pagetable as_ /\
    k_mem k2 = k_mem k /\ k_page_pool k2 = k_page_pool k /\
    k_heap_pool k2 = k_heap_pool k.
Proof.
  destruct (as_complete_load_run cur
    (Addrspace (as_self as_) (map prepare_region (region_list as_)) (pagetable as_)) k)
    as (tr & Hrun).
  cbn [as_self region_list pagetable] in Hrun.
  eexists _, _, _. split; [reflexivity|].
  cbn [region_list]. rewrite Hrun. cbn [region_list pagetable k_mem k_page_pool k_heap_pool].
  rewrite !map_map. cbn [complete_region prepare_region old_writeable writeable vaddr
    memsize readable executable].
  repeat split; try reflexivity.
  all: cbn [region_list]; rewrite ?map_map; try reflexivity.
  apply Forall_map. now apply Forall_true.
Qed.

End LoadWindow.

(** ** Region declaration *)


Lemma PAGE_FRAME_testbit n :
  0 <= n -> Z.testbit PAGE_FRAME n = (12 <=? n) && (n <? 32).
Proof.
  intros Hn. change PAGE_FRAME with (Z.shiftl (Z.ones 20) 12).
  rewrite Z.shiftl_spec by assumption.
  destruct (Z.leb_spec 12 n) as [H12|H12]; destruct (Z.ltb_spec n 32) as [H32|H32];
    cbn [andb].
  - apply Z.ones_spec_low. lia.
  - apply Z.ones_spec_high. lia.
  - apply Z.testbit_neg_r. lia.
  - apply Z.testbit_neg_r. lia.
Qed.

Lemma testbit_above_u32 x n : 0 <= x < 2 ^ 32 -> 32 <= n -> Z.testbit x n = false.
Proof.
  intros Hx Hn. apply Z.testbit_false; [lia|].
  rewrite Z.div_small; [reflexivity|].
  split; [lia|]. apply Z.lt_le_trans with (2 ^ 32); [lia|].
  apply Z.pow_le_mono_r; lia.
Qed.

(** Masking with [PAGE_FRAME] rounds a 32-bit value down to a page
    boundary. *)
Lemma land_PAGE_FRAME x :
  0 <= x < 2 ^ 32 -> Z.land x PAGE_FRAME = PAGE_SIZE * (x / PAGE_SIZE).
Proof.
  intros Hx. transitivity (Z.shiftl (Z.shiftr x 12) 12).
  - apply Z.bits_inj'. intros n Hn.
    rewrite Z.land_spec, PAGE_FRAME_testbit by assumption.
    rewrite Z.shiftl_spec by assumption.
    destruct (Z.leb_spec 12 n) as [H12|H12]; destruct (Z.ltb_spec n 32) as [H32|H32];
      cbn [andb].
    + rewrite Z.shiftr_spec by lia. replace (n - 12 + 12) with n by lia.
      apply andb_true_r.
    + rewrite Z.shiftr_spec by lia. replace (n - 12 + 12) with n by lia.
      rewrite testbit_above_u32 by (assumption || lia). reflexivity.
    + rewrite andb_false_r. symmetry. apply Z.testbit_neg_r. lia.
    + lia.
  - rewrite Z.shiftl_mul_pow2, Z.shiftr_div_pow2 by lia.
    change (2 ^ 12) with PAGE_SIZE. lia.
Qed.

Lemma land_offset_mask x :
  0 <= x -> Z.land x (u32 (Z.lnot PAGE_FRAME)) = x mod PAGE_SIZE.
Proof.
  intros Hx. change (u32 (Z.lnot PAGE_FRAME)) with (Z.ones 12).
  now rewrite Z.land_ones by lia.
Qed.

Lemma u32_small z : 0 <= z < 2 ^ 32 -> u32 z = z.
Proof. intros H. unfold u32. now apply Z.mod_small. Qed.

Section Regions.
Context {mach : Machine}.

Lemma region_overlaps_elem base len l other :
  other ∈ l ->
  base <= u32 (vaddr other + memsize other) ->
  u32 (base + len) >= vaddr other ->
  region_overlaps base len l = true.
Proof.
  intros Hin H1 H2. induction l as [|c l IH]; [now apply elem_of_nil in Hin|].
  cbn [region_overlaps]. apply elem_of_cons in Hin as [<- | Hin].
  - rewrite !bool_decide_eq_true_2 by assumption. reflexivity.
  - destruct (_ && _); [reflexivity | now apply IH].
Qed.

(** What [as_define_region] computes for the normalised range when the
    range ends in the user segment. *)
Lemma define_region_normalises va sz :
  0 <= va < 2 ^ 32 -> 0 <= sz < 2 ^ 32 ->
  0 <= MIPS_KSEG0 <= 2 ^ 32 - PAGE_SIZE ->
  spec_region_base va + spec_region_length va sz <= MIPS_KSEG0 ->
  Z.land va PAGE_FRAME = spec_region_base va /\
  Z.land (u32 (u32 (sz + Z.land va (u32 (Z.lnot PAGE_FRAME))) + PAGE_SIZE - 1)) PAGE_FRAME
    = spec_region_length va sz.
Proof.
  intros Hva Hsz HK Hend. unfold spec_region_base, spec_region_length in *.
  unfold PAGE_SIZE in *.
  pose proof (Z.mod_pos_bound va 4096 ltac:(lia)) as Hoff.
  assert (Hlen : sz + va mod 4096 <= 4096 * ((sz + va mod 4096 + 4096 - 1) / 4096)
                 /\ 4096 * ((sz + va mod 4096 + 4096 - 1) / 4096) <= sz + va mod 4096 + 4095).
  { pose proof (Z.div_mod (sz + va mod 4096 + 4096 - 1) 4096 ltac:(lia)).
    pose proof (Z.mod_pos_bound (sz + va mod 4096 + 4096 - 1) 4096 ltac:(lia)). lia. }
  split.
  - rewrite land_PAGE_FRAME by assumption. unfold PAGE_SIZE.
    pose proof (Z.div_mod va 4096 ltac:(lia)). lia.
  - rewrite land_offset_mask by lia. unfold PAGE_SIZE.
    rewrite (u32_small (sz + va mod 4096)) by lia.
    rewrite u32_small by lia.
    rewrite land_PAGE_FRAME by lia. reflexivity.
Qed.

(** C8 (amended): declaring a region whose normalised range ends at or
    below [MIPS_KSEG0] and touches or overlaps a region already in the
    list (new base <= other end and new end >= other base, a shared
    boundary included; the other region's end being below 2^32, as the
    invariant of regions has it) returns EINVAL and leaves the address
    space, its region list and the kernel state as they were.  (The
    test of the end against [MIPS_KSEG0] comes first in the code and
    answers with EFAULT.) *)
Theorem define_region_overlap_is_einval
    (as_ : addrspace) (va sz rd wr ex : Z) (k : kernel) (other : region) :
  0 <= va < 2 ^ 32 -> 0 <= sz < 2 ^ 32 ->
  0 <= MIPS_KSEG0 <= 2 ^ 32 - PAGE_SIZE ->
  spec_region_base va + spec_region_length va sz <= MIPS_KSEG0 ->
  other ∈ region_list as_ ->
  0 <= vaddr other + memsize other < 2 ^ 32 ->
  spec_region_base va <= vaddr other + memsize other ->
  spec_region_base va + spec_region_length va sz >= vaddr other ->
  as_define_region as_ va sz rd wr ex k = Some ((EINVAL, as_), k).
Proof.
  intros Hva Hsz HK Hend Hin Hother Hlo Hhi.
  destruct (define_region_normalises va sz Hva Hsz HK Hend) as [Hb Hl].
  assert (Hb0 : 0 <= spec_region_base va).
  { unfold spec_region_base. pose proof (Z.mod_pos_bound va PAGE_SIZE ltac:(reflexivity)).
    pose proof (Z.mod_le va PAGE_SIZE ltac:(lia) ltac:(reflexivity)). lia. }
  assert (Hl0 : 0 <= spec_region_length va sz).
  { unfold spec_region_length. apply Z.mul_nonneg_nonneg; [unfold PAGE_SIZE; lia|].
    apply Z.div_pos; [|reflexivity].
    pose proof (Z.mod_pos_bound va PAGE_SIZE ltac:(reflexivity)). unfold PAGE_SIZE in *. lia. }
  unfold as_define_region. cbv zeta. rewrite Hb, Hl.
  assert (He : u32 (spec_region_base va + spec_region_length va sz)
               = spec_region_base va + spec_region_length va sz).
  { apply u32_small. unfold PAGE_SIZE in HK. lia. }
  rewrite He.
  destruct (decide (spec_region_base va + spec_region_length va sz > MIPS_KSEG0)); [lia|].
  rewrite (region_overlaps_elem _ _ _ other Hin).
  - reflexivity.
  - rewrite u32_small by assumption. assumption.
  - rewrite He. assumption.
Qed.

(** A range whose end, computed in 32 bits, is above [MIPS_KSEG0] is
    refused with EFAULT, whatever the region list holds. *)
Lemma define_region_past_kseg0 as_ va sz rd wr ex k :
  u32 (Z.land va PAGE_FRAME
       + Z.land (u32 (u32 (sz + Z.land va (u32 (Z.lnot PAGE_FRAME))) + PAGE_SIZE - 1))
                PAGE_FRAME) > MIPS_KSEG0 ->
  as_define_region as_ va sz rd wr ex k = Some ((EFAULT, as_), k).
Proof.
  intros H. unfold as_define_region. cbv zeta.
  destruct (decide _); [reflexivity | contradiction].
Qed.

End Regions.

(** ** The split of the fault address *)

Section Split.
Context {mach : Machine}.

(** The two indices of the handler in numbers.  The handler splits
    [KVADDR_TO_PADDR(faultaddress)], not the fault address itself: with
    the kernel's macro ([v - MIPS_KSEG0] in 32 bits,
    [MIPS_KSEG0 = 0x80000000]) the first-level index is the high 10
    bits of the fault address plus 512, modulo 1024, and the
    second-level index is the next 10 bits of the fault address. *)
Lemma fault_address_split (fa : Z) :
  MIPS_KSEG0 = 0x80000000 ->
  KVADDR_TO_PADDR fa = fa - MIPS_KSEG0 ->
  0 <= fa < 2 ^ 32 ->
  pt1_bits fa = (fa / 2 ^ 22 + 512) mod 1024 /\
  pt2_bits fa = (fa / 2 ^ 12) mod 1024.
Proof.
  intros HK HM Hfa. unfold pt1_bits, pt2_bits. rewrite HM, HK.
  rewrite !Z.shiftr_div_pow2, Z.shiftl_mul_pow2 by lia. unfold u32.
  change (2 ^ 32) with 4294967296. change (2 ^ 22) with 4194304.
  change (2 ^ 12) with 4096. change (2 ^ 10) with 1024.
  split.
  - Z.div_mod_to_equations. lia.
  - Z.div_mod_to_equations. lia.
Qed.

End Split.

(** ** Faults around the load window *)

Section WindowFaults.
Context {mach : Machine}.






End WindowFaults.

(** ** Destruction and duplication *)

Section Lifecycle.
Context {mach : Machine}.

Lemma free_kpages_keeps_heap x k k' q ws :
  free_kpages x k = Some (tt, k') ->
  k_mem k !! q = Some (Blk AHeap ws) -> k_mem k' !! q = Some (Blk AHeap ws).
Proof.
  unfold free_kpages. destruct (k_mem k !! x) as [b|] eqn:Hx; [|discriminate].
  destruct b as [[] bw]; cbn [b_kind]; [|discriminate].
  intros [= <-] Hq. unfold release. cbn [b_kind k_mem].
  rewrite lookup_delete_ne; [exact Hq|]. intros ->. congruence.
Qed.

Lemma kfree_keeps x k k' q b :
  kfree x k = Some (tt, k') -> x <> q ->
  k_mem k !! q = Some b -> k_mem k' !! q = Some b.
Proof.
  unfold kfree. destruct (k_mem k !! x) as [bx|] eqn:Hx; [|discriminate].
  intros [= <-] Hne Hq. unfold release.
  destruct (b_kind bx); cbn [k_mem]; now rewrite lookup_delete_ne.
Qed.

Lemma destroy_frames_keeps_heap l1 i k k' q ws :
  destroy_frames l1 i k = Some (tt, k') ->
  k_mem k !! q = Some (Blk AHeap ws) -> k_mem k' !! q = Some (Blk AHeap ws).
Proof.
  unfold destroy_frames. intros Hrun Hq.
  eapply (for_do_preserves (fun k0 => k_mem k0 !! q = Some (Blk AHeap ws)));
    [| exact Hq | exact Hrun].
  intros j k0 k1 HP Hbody.
  apply kbind_inv in Hbody as (l2 & ka & Hl & Hbody). apply load_inv in Hl as [-> _].
  apply kbind_inv in Hbody as (e & kb & Hl & Hbody). apply load_inv in Hl as [-> _].
  destruct (decide (e <> 0)).
  - eapply free_kpages_keeps_heap; eauto.
  - injection Hbody as <-. exact HP.
Qed.

Lemma destroy_regions_keeps l k k' q b :
  destroy_regions l k = Some (tt, k') -> q ∉ map r_node l ->
  k_mem k !! q = Some b -> k_mem k' !! q = Some b.
Proof.
  revert k. induction l as [|c l IH]; intros k Hrun Hq Hb.
  - injection Hrun as <-. exact Hb.
  - cbn [destroy_regions] in Hrun.
    apply kbind_inv in Hrun as ([] & k1 & Hfree & Hrun).
    cbn [map] in Hq. apply not_elem_of_cons in Hq as [Hne Hq].
    eapply IH; [exact Hrun | exact Hq |].
    eapply kfree_keeps; eauto.
Qed.

(** [as_destroy] calls [kfree] on the first-level table, the region
    records and the address-space record only: whenever it returns,
    any other [kmalloc] block is still allocated, with its contents. *)
Lemma as_destroy_keeps_heap_block
    (as_ : addrspace) (k k' : kernel) (t : list Z) (i : nat) (l2 : Z)
    (ws : list Z) :
  l1_table k (pagetable as_) t -> t !! i = Some l2 -> l2_table k l2 ws ->
  l2 ∉ map r_node (region_list as_) -> l2 <> as_self as_ ->
  as_destroy as_ k = Some (tt, k') ->
  k_mem k' !! l2 = Some (Blk AHeap ws).
Proof.
  intros [Ht _] _ (_ & Hlive & _) Hnodes Hself Hrun.
  assert (Hpt : pagetable as_ <> l2) by congruence.
  unfold as_destroy in Hrun.
  apply kbind_inv in Hrun as ([] & k1 & Hloop & Hrun).
  apply kbind_inv in Hrun as ([] & k2 & Hfree1 & Hrun).
  apply kbind_inv in Hrun as ([] & k3 & Hregs & Hfree2).
  eapply kfree_keeps; [exact Hfree2 | congruence |].
  eapply destroy_regions_keeps; [exact Hregs | exact Hnodes |].
  eapply kfree_keeps; [exact Hfree1 | exact Hpt |].
  eapply (for_do_preserves (fun k0 => k_mem k0 !! l2 = Some (Blk AHeap ws)));
    [| exact Hlive | exact Hloop].
  intros j k0 kb HP Hbody.
  apply kbind_inv in Hbody as (s & ka & Hl & Hbody). apply load_inv in Hl as [-> _].
  destruct (decide (s <> 0)).
  - eapply destroy_frames_keeps_heap; eauto.
  - injection Hbody as <-. exact HP.
Qed.

(** C2: [as_copy] discards what [vm_copy_pt] returns.  Once the new
    address space is created and the regions are declared in it,
    [as_copy] returns 0 and hands the destination out through [*ret]
    whatever the clone returned, ENOMEM included, in the state the
    clone left it in; [as_destroy] is not called. *)
Theorem as_copy_ignores_clone_failure
    (old : addrspace) (k k1 k2 k3 : kernel) (newas newas' : addrspace)
    (clone_result : retcode) :
  as_create k = Some (Some newas, k1) ->
  copy_regions (region_list old) newas k1 = Some ((OK, newas'), k2) ->
  vm_copy_pt (pagetable old) (pagetable newas') k2 = Some (clone_result, k3) ->
  as_copy old k = Some ((OK, Some newas'), k3).
Proof.
  intros Hc Hr Hp. unfold as_copy.
  rewrite (kbind_some _ _ _ _ _ Hc). rewrite (kbind_some _ _ _ _ _ Hr).
  cbv beta iota. now rewrite (kbind_some _ _ _ _ _ Hp).
Qed.

End Lifecycle.

(** ** What [as_destroy] frees *)

Section Destroy.
Context {mach : Machine}.


Lemma pte_at_bounds k as_ i j e :
  wf_as k as_ -> pte_at k (pagetable as_) i j e ->
  (i < PT_SIZE)%nat /\ (j < PT_SIZE)%nat.
Proof.
  intros Hwf (l2 & H1 & Hl2 & H2 & He).
  destruct (wf_l1 _ _ Hwf) as (t & Ht & Hlen).
  destruct (wf_l2 _ _ Hwf i l2 H1 Hl2) as ((ws & _ & Hws & Hlws) & _ & _).
  unfold peek in H1, H2. rewrite Ht in H1. rewrite Hws in H2. cbn [b_words] in *.
  apply lookup_lt_Some in H1. apply lookup_lt_Some in H2. lia.
Qed.

(** The first-level table and the [kmalloc] blocks are no frames of the
    table, so the walk leaves them alone. *)
Lemma destroy_inv_keeps k as_ i j k0 q kd w :
  wf_as k as_ -> destroy_inv k (pagetable as_) i j k0 ->
  k_mem k !! q = Some (Blk kd w) -> kd = AHeap \/ q = pagetable as_ ->
  k_mem k0 !! q = Some (Blk kd w).
Proof.
  intros Hwf [Hsame _] Hq Hkind. rewrite Hsame; [exact Hq|].
  intros i' j' e' Hpte _ ->.
  destruct (wf_frames _ _ Hwf i' j' e' Hpte) as (Hnpt & fw & Hfw).
  destruct Hkind as [-> | Hpt]; [congruence | contradiction].
Qed.

Lemma destroy_inv_peek k as_ i j k0 q kd w n :
  wf_as k as_ -> destroy_inv k (pagetable as_) i j k0 ->
  k_mem k !! q = Some (Blk kd w) -> kd = AHeap \/ q = pagetable as_ ->
  peek k0 q n = peek k q n.
Proof.
  intros Hwf Hinv Hq Hkind. unfold peek.
  now rewrite (destroy_inv_keeps _ _ _ _ _ _ _ _ Hwf Hinv Hq Hkind), Hq.
Qed.

(** One step of the inner loop. *)
Lemma destroy_frames_step k as_ i l2 j k0 :
  wf_as k as_ -> peek k (pagetable as_) i = Some l2 -> l2 <> 0 ->
  (j < PAGETABLE_SIZE)%nat ->
  destroy_inv k (pagetable as_) i j k0 ->
  exists k1,
    (l2' <- load (pagetable as_) i ;;
     e <- load l2' j ;;
     if decide (e <> 0)
     then free_kpages (Z.land (u32 (PADDR_TO_KVADDR e)) PAGE_FRAME)
     else kret tt) k0 = Some (tt, k1) /\
    destroy_inv k (pagetable as_) i (S j) k1.
Proof.
  intros Hwf H1 Hl2 Hj Hinv.
  destruct (wf_l1 _ _ Hwf) as (t & Ht & Hlen).
  destruct (wf_l2 _ _ Hwf i l2 H1 Hl2) as ((ws & _ & Hws & Hlws) & _ & _).
  assert (H1' : peek k0 (pagetable as_) i = Some l2).
  { erewrite destroy_inv_peek; eauto. }
  assert (Hje : exists e, peek k l2 j = Some e).
  { unfold peek. rewrite Hws. cbn [b_words]. apply lookup_lt_is_Some_2.
    unfold PAGETABLE_SIZE, PT_SIZE in *. lia. }
  destruct Hje as (e & He).
  assert (He' : peek k0 l2 j = Some e).
  { erewrite destroy_inv_peek; eauto. }
  rewrite (kbind_some _ _ _ _ _ (load_ok _ _ _ _ H1')).
  rewrite (kbind_some _ _ _ _ _ (load_ok _ _ _ _ He')).
  destruct Hinv as [Hsame Hgone].
  destruct (decide (e <> 0)) as [Hne | Hz].
  - assert (Hpte : pte_at k (pagetable as_) i j e) by (now exists l2).
    destruct (wf_frames _ _ Hwf i j e Hpte) as (Hnpt & fw & Hfw).
    fold (frame_of e).
    assert (Hlive : k_mem k0 !! frame_of e = Some (Blk APage fw)).
    { rewrite Hsame; [exact Hfw|]. intros i' j' e' Hpte' Hw Heq.
      destruct (wf_unshared _ _ Hwf i j e i' j' e' Hpte Hpte' Heq) as [-> ->].
      destruct Hw as [Hw | [_ Hw]]; lia. }
    eexists. split.
    + unfold free_kpages. rewrite Hlive. cbn [b_kind]. reflexivity.
    + unfold release. cbn [b_kind]. split; cbn [k_mem].
      * intros q Hq. rewrite lookup_delete_ne.
        -- apply Hsame. intros i' j' e' Hpte' Hw. apply (Hq i' j' e' Hpte').
           destruct Hw as [Hw | [-> Hw]]; [now left | right; split; [reflexivity | lia]].
        -- intros Heq. apply (Hq i j e Hpte); [right; split; [reflexivity | lia] | ].
           now symmetry.
      * intros i' j' e' Hpte' Hw.
        destruct (decide (frame_of e = frame_of e')) as [Heq | Hneq].
        -- rewrite <- Heq. apply lookup_delete_eq.
        -- rewrite lookup_delete_ne by exact Hneq.
           apply (Hgone i' j' e' Hpte').
           destruct Hw as [Hw | [-> Hw]]; [now left|].
           destruct (decide (j' = j)) as [-> | Hjj]; [|right; split; [reflexivity | lia]].
           exfalso. destruct Hpte' as (l2' & H1'' & _ & H2'' & _).
           rewrite H1 in H1''. injection H1'' as <-.
           rewrite He in H2''. injection H2'' as <-. now apply Hneq.
  - exists k0. split; [reflexivity|]. split.
    + intros q Hq. apply Hsame. intros i' j' e' Hpte' Hw. apply (Hq i' j' e' Hpte').
      destruct Hw as [Hw | [-> Hw]]; [now left | right; split; [reflexivity | lia]].
    + intros i' j' e' Hpte' Hw. apply (Hgone i' j' e' Hpte').
      destruct Hw as [Hw | [-> Hw]]; [now left|].
      destruct (decide (j' = j)) as [-> | Hjj]; [|right; split; [reflexivity | lia]].
      exfalso. destruct Hpte' as (l2' & H1'' & _ & H2'' & Hne').
      rewrite H1 in H1''. injection H1'' as <-.
      rewrite He in H2''. injection H2'' as <-. apply Hz. exact Hne'.
Qed.

(** The inner loop over one second-level table. *)
Lemma destroy_frames_run k as_ i l2 k0 :
  wf_as k as_ -> peek k (pagetable as_) i = Some l2 -> l2 <> 0 ->
  destroy_inv k (pagetable as_) i 0 k0 ->
  exists k1, destroy_frames (pagetable as_) i k0 = Some (tt, k1) /\
             destroy_inv k (pagetable as_) (S i) 0 k1.
Proof.
  intros Hwf H1 Hl2 Hinv. unfold destroy_frames.
  destruct (for_do_inv (fun j k1 => destroy_inv k (pagetable as_) i j k1)
    (fun j => l2' <- load (pagetable as_) i ;;
              e <- load l2' j ;;
              if decide (e <> 0)
              then free_kpages (Z.land (u32 (PADDR_TO_KVADDR e)) PAGE_FRAME)
              else kret tt)
    PAGETABLE_SIZE 0 k0 Hinv) as (k1 & Hrun & [Hsame Hgone]).
  - intros j k1 Hj Hinv1. eapply destroy_frames_step; eauto. lia.
  - exists k1. split; [exact Hrun|]. cbn [Nat.add] in *. split.
    + intros q Hq. apply Hsame. intros i' j' e' Hpte' Hw. apply (Hq i' j' e' Hpte').
      destruct Hw as [Hw | [-> Hw]]; left; lia.
    + intros i' j' e' Hpte' Hw. apply (Hgone i' j' e' Hpte').
      destruct Hw as [Hw | [Hw Hw']]; [|lia].
      destruct (decide (i' = i)) as [-> | Hii]; [|left; lia].
      right. split; [reflexivity|].
      destruct (pte_at_bounds _ _ _ _ _ Hwf Hpte') as [_ Hb].
      unfold PAGETABLE_SIZE, PT_SIZE in *. lia.
Qed.

(** The whole walk. *)
Lemma destroy_walk_run k as_ :
  wf_as k as_ ->
  exists k1,
    for_do PAGETABLE_SIZE 0 (fun i =>
      l2 <- load (pagetable as_) i ;;
      if decide (l2 <> 0) then destroy_frames (pagetable as_) i else kret tt) k
      = Some (tt, k1) /\
    destroy_inv k (pagetable as_) PAGETABLE_SIZE 0 k1.
Proof.
  intros Hwf.
  destruct (wf_l1 _ _ Hwf) as (t & Ht & Hlen).
  apply (for_do_inv (fun i k1 => destroy_inv k (pagetable as_) i 0 k1)).
  - split; [reflexivity|]. intros i' j' e' _ [Hw | [_ Hw]]; lia.
  - intros i k0 Hi Hinv.
    assert (Hs : exists l2, peek k (pagetable as_) i = Some l2).
    { unfold peek. rewrite Ht. cbn [b_words]. apply lookup_lt_is_Some_2.
      unfold PAGETABLE_SIZE, PT_SIZE in *. lia. }
    destruct Hs as (l2 & H1).
    assert (H1' : peek k0 (pagetable as_) i = Some l2).
    { erewrite destroy_inv_peek; eauto. }
    rewrite (kbind_some _ _ _ _ _ (load_ok _ _ _ _ H1')).
    destruct (decide (l2 <> 0)) as [Hne | Hz].
    + eapply destroy_frames_run; eauto.
    + exists k0. split; [reflexivity|]. destruct Hinv as [Hsame Hgone]. split.
      * intros q Hq. apply Hsame. intros i' j' e' Hpte' Hw. apply (Hq i' j' e' Hpte').
        destruct Hw as [Hw | [Hw Hw']]; left; lia.
      * intros i' j' e' Hpte' Hw. apply (Hgone i' j' e' Hpte').
        destruct Hw as [Hw | [Hw Hw']]; [|lia].
        destruct (decide (i' = i)) as [-> | Hii]; [|left; lia].
        exfalso. destruct Hpte' as (l2' & H1'' & Hne' & _).
        rewrite H1 in H1''. injection H1'' as <-. contradiction.
Qed.

(** The region loop frees each node once. *)
Lemma destroy_regions_run l : forall k0,
  NoDup (map r_node l) ->
  Forall (fun n => is_Some (k_mem k0 !! n)) (map r_node l) ->
  exists k1, destroy_regions l k0 = Some (tt, k1) /\
    (forall q, q ∉ map r_node l -> k_mem k1 !! q = k_mem k0 !! q) /\
    (forall n, n ∈ map r_node l -> k_mem k1 !! n = None).
Proof.
  induction l as [|c l IH]; intros k0 Hnd Hlive.
  - exists k0. split; [reflexivity|]. split; [reflexivity|].
    intros n Hn. now apply elem_of_nil in Hn.
  - cbn [map] in *. apply NoDup_cons in Hnd as [Hc Hnd].
    apply Forall_cons in Hlive as [[b Hb] Hlive].
    cbn [destroy_regions].
    assert (Hfree : kfree (r_node c) k0 = Some (tt, release (r_node c) b k0)).
    { unfold kfree. now rewrite Hb. }
    rewrite (kbind_some _ _ _ _ _ Hfree).
    assert (Hmem : k_mem (release (r_node c) b k0) = delete (r_node c) (k_mem k0)).
    { unfold release. now destruct (b_kind b). }
    destruct (IH (release (r_node c) b k0) Hnd) as (k1 & Hrun & Hsame & Hgone).
    { rewrite Hmem. apply Forall_forall. intros n Hn.
      rewrite lookup_delete_ne by (intros <-; contradiction).
      now apply (proj1 (Forall_forall _ _) Hlive). }
    exists k1. split; [exact Hrun|]. split.
    + intros q Hq. apply not_elem_of_cons in Hq as [Hqc Hq].
      rewrite (Hsame q Hq), Hmem. now apply lookup_delete_ne.
    + intros n Hn. apply elem_of_cons in Hn as [-> | Hn]; [|now apply Hgone].
      rewrite (Hsame (r_node c) Hc), Hmem. apply lookup_delete_eq.
Qed.

(** C4: on a well-formed address space [as_destroy] returns, and it
    has then freed the page of every entry in use, the first-level
    table, every region record and the address-space record; but it
    frees no second-level array: every array a first-level slot points
    to is still allocated afterwards, with its contents. *)
Theorem as_destroy_leaks_second_level (as_ : addrspace) (k : kernel) :
  wf_as k as_ ->
  exists k',
    as_destroy as_ k = Some (tt, k') /\
    (forall i j e, pte_at k (pagetable as_) i j e -> k_mem k' !! frame_of e = None) /\
    k_mem k' !! pagetable as_ = None /\
    (forall n, n ∈ map r_node (region_list as_) -> k_mem k' !! n = None) /\
    k_mem k' !! as_self as_ = None /\
    (forall i l2, peek k (pagetable as_) i = Some l2 -> l2 <> 0 ->
       exists ws, l2_table k l2 ws /\ k_mem k' !! l2 = Some (Blk AHeap ws)).
Proof.
  intros Hwf.
  destruct (wf_l1 _ _ Hwf) as (t & Ht & Hlen).
  destruct (wf_nodes _ _ Hwf) as [Hnd Hnodes].
  destruct (wf_self _ _ Hwf) as [[wself Hself] Hselfn].
  destruct (destroy_walk_run k as_ Hwf) as (k1 & Hwalk & Hinv).
  (* the first-level table *)
  assert (Hpt1 : k_mem k1 !! pagetable as_ = Some (Blk APage t)).
  { eapply destroy_inv_keeps; eauto. }
  assert (Hfree1 : kfree (pagetable as_) k1 = Some (tt, release (pagetable as_) (Blk APage t) k1)).
  { unfold kfree. now rewrite Hpt1. }
  set (k2 := release (pagetable as_) (Blk APage t) k1) in *.
  assert (Hmem2 : k_mem k2 = delete (pagetable as_) (k_mem k1)) by reflexivity.
  assert (Hheap2 : forall q w, k_mem k !! q = Some (Blk AHeap w) ->
                               k_mem k2 !! q = Some (Blk AHeap w)).
  { intros q w Hq. rewrite Hmem2, lookup_delete_ne by congruence.
    eapply destroy_inv_keeps; eauto. }
  (* the region records *)
  destruct (destroy_regions_run (region_list as_) k2 Hnd) as (k3 & Hregs & Hsame3 & Hgone3).
  { apply Forall_forall. intros n Hn.
    destruct (proj1 (Forall_forall _ _) Hnodes n Hn) as (w & Hw).
    rewrite (Hheap2 _ _ Hw). eauto. }
  (* the address-space record *)
  assert (Hself3 : k_mem k3 !! as_self as_ = Some (Blk AHeap wself)).
  { rewrite (Hsame3 _ Hselfn). now apply Hheap2. }
  assert (Hfree2 : kfree (as_self as_) k3 = Some (tt, release (as_self as_) (Blk AHeap wself) k3)).
  { unfold kfree. now rewrite Hself3. }
  set (k4 := release (as_self as_) (Blk AHeap wself) k3) in *.
  assert (Hmem4 : k_mem k4 = delete (as_self as_) (k_mem k3)) by reflexivity.
  assert (Hgone : forall q, k_mem k2 !! q = None -> k_mem k4 !! q = None).
  { intros q Hq. rewrite Hmem4. apply lookup_delete_None. right.
    destruct (decide (q ∈ map r_node (region_list as_))) as [Hin | Hnin].
    - now apply Hgone3.
    - now rewrite (Hsame3 _ Hnin). }
  exists k4. split.
  { unfold as_destroy.
    rewrite (kbind_some _ _ _ _ _ Hwalk), (kbind_some _ _ _ _ _ Hfree1).
    rewrite (kbind_some _ _ _ _ _ Hregs). exact Hfree2. }
  split.
  { intros i j e Hpte. apply Hgone. rewrite Hmem2. apply lookup_delete_None. right.
    destruct Hinv as [_ Hg]. apply (Hg i j e Hpte). left.
    destruct (pte_at_bounds _ _ _ _ _ Hwf Hpte) as [Hb _].
    unfold PAGETABLE_SIZE, PT_SIZE in *. lia. }
  split.
  { apply Hgone. rewrite Hmem2. apply lookup_delete_eq. }
  split.
  { intros n Hn. rewrite Hmem4. apply lookup_delete_None. right. now apply Hgone3. }
  split.
  { rewrite Hmem4. apply lookup_delete_eq. }
  intros i l2 H1 Hl2.
  destruct (wf_l2 _ _ Hwf i l2 H1 Hl2) as ((ws & Hws) & Hl2n & Hl2s).
  exists ws. split; [exact Hws|].
  destruct Hws as (_ & Hws & _).
  rewrite Hmem4, lookup_delete_ne by congruence.
  rewrite (Hsame3 _ Hl2n). now apply Hheap2.
Qed.

End Destroy.

(** ** One step of the clone *)

Section Clone.
Context {mach : Machine}.

(** The entry at [(i, j)] of the source is in use and the frame
    provider delivers [v]: the page [v] receives the words of the source
    page, and the new table gets, at [(i, j)], the entry of [v] with the
    dirty bit of the source entry and the valid bit. *)
Lemma vm_copy_entry_clones k old_pt new_pt i j l2o kdo wso e kds srcw
    l2n kdn wsn v junk rest :
  peek k old_pt i = Some l2o -> k_mem k !! l2o = Some (Blk kdo wso) ->
  wso !! j = Some e -> e <> 0 ->
  k_mem k !! u32 (PADDR_TO_KVADDR (Z.land e PAGE_FRAME)) = Some (Blk kds srcw) ->
  (PAGE_WORDS <= length srcw)%nat ->
  peek k new_pt i = Some l2n -> k_mem k !! l2n = Some (Blk kdn wsn) ->
  (j < length wsn)%nat ->
  k_page_pool k = (v, junk) :: rest -> fresh k v ->
  vm_copy_entry old_pt new_pt i j k =
    Some (None,
          Kernel (<[l2n := Blk kdn (<[j := new_entry v (Z.land e TLBLO_DIRTY)]> wsn)]>
                    (<[v := Blk APage (take PAGE_WORDS srcw)]> (k_mem k)))
                 rest (k_heap_pool k) (k_trace k)).
Proof.
  intros Ho Hl2o He Hne Hsrc Hlen Hn Hl2n Hj Hpool [Hv0 Hvf].
  assert (Hpe : peek k l2o j = Some e) by (unfold peek; now rewrite Hl2o).
  assert (Hvo : v <> old_pt) by (intros ->; unfold peek in Ho; now rewrite Hvf in Ho).
  assert (Hvn : v <> new_pt) by (intros ->; unfold peek in Hn; now rewrite Hvf in Hn).
  assert (Hvl2o : v <> l2o) by congruence.
  assert (Hvl2n : v <> l2n) by congruence.
  assert (Hvsrc : v <> u32 (PADDR_TO_KVADDR (Z.land e PAGE_FRAME))) by congruence.
  unfold vm_copy_entry.
  rewrite (kbind_some _ _ _ _ _ (load_ok _ _ _ _ Ho)).
  rewrite (kbind_some _ _ _ _ _ (load_ok _ _ _ _ Hpe)).
  destruct (decide (e <> 0)) as [_|]; [|contradiction].
  erewrite kbind_some; [|unfold alloc_kpages; rewrite Hpool; reflexivity].
  destruct (decide (v = 0)) as [|_]; [contradiction|].
  erewrite kbind_some.
  2:{ unfold bzero_page. cbn [k_mem]. rewrite lookup_insert_eq. cbn [b_words b_kind].
      rewrite length_resize. destruct (decide (PAGE_WORDS <= PAGE_WORDS)%nat); [|lia].
      reflexivity. }
  rewrite drop_ge by (rewrite length_resize; lia). rewrite app_nil_r.
  unfold set_mem. cbn [k_mem k_page_pool k_heap_pool k_trace]. rewrite insert_insert_eq.
  set (k1 := Kernel _ _ _ _).
  assert (Hsame : forall q, v <> q -> k_mem k1 !! q = k_mem k !! q).
  { intros q Hq. unfold k1. cbn [k_mem]. now rewrite lookup_insert_ne. }
  assert (Ho1 : peek k1 old_pt i = Some l2o) by (unfold peek; rewrite Hsame by exact Hvo; exact Ho).
  assert (Hpe1 : peek k1 l2o j = Some e) by (unfold peek; rewrite Hsame by exact Hvl2o; exact Hpe).
  rewrite (kbind_some _ _ _ _ _ (load_ok _ _ _ _ Ho1)).
  rewrite (kbind_some _ _ _ _ _ (load_ok _ _ _ _ Hpe1)).
  erewrite kbind_some.
  2:{ unfold memmove_page. rewrite (Hsame _ Hvsrc), Hsrc.
      unfold k1 at 1. cbn [k_mem]. rewrite lookup_insert_eq. cbn [b_words b_kind].
      rewrite length_replicate.
      destruct (decide (PAGE_WORDS <= PAGE_WORDS /\ PAGE_WORDS <= length srcw)%nat); [|lia].
      reflexivity. }
  rewrite drop_ge by (rewrite length_replicate; lia). rewrite app_nil_r.
  unfold set_mem, k1. cbn [k_mem k_page_pool k_heap_pool k_trace]. rewrite insert_insert_eq.
  set (k2 := Kernel _ _ _ _).
  assert (Hsame2 : forall q, v <> q -> k_mem k2 !! q = k_mem k !! q).
  { intros q Hq. unfold k2. cbn [k_mem]. now rewrite lookup_insert_ne. }
  assert (Ho2 : peek k2 old_pt i = Some l2o) by (unfold peek; rewrite Hsame2 by exact Hvo; exact Ho).
  assert (Hpe2 : peek k2 l2o j = Some e) by (unfold peek; rewrite Hsame2 by exact Hvl2o; exact Hpe).
  assert (Hn2 : peek k2 new_pt i = Some l2n) by (unfold peek; rewrite Hsame2 by exact Hvn; exact Hn).
  rewrite (kbind_some _ _ _ _ _ (load_ok _ _ _ _ Ho2)).
  rewrite (kbind_some _ _ _ _ _ (load_ok _ _ _ _ Hpe2)).
  rewrite (kbind_some _ _ _ _ _ (load_ok _ _ _ _ Hn2)).
  erewrite kbind_some.
  2:{ eapply store_ok; [rewrite (Hsame2 _ Hvl2n); exact Hl2n | exact Hj]. }
  reflexivity.
Qed.

(** The same entry when the frame provider has nothing left: the
    clone stops with ENOMEM and has changed nothing in this step. *)
Lemma vm_copy_entry_nomem k old_pt new_pt i j l2o e :
  peek k old_pt i = Some l2o -> peek k l2o j = Some e -> e <> 0 ->
  k_page_pool k = [] ->
  vm_copy_entry old_pt new_pt i j k = Some (Some ENOMEM, k).
Proof.
  intros Ho Hpe Hne Hpool. unfold vm_copy_entry.
  rewrite (kbind_some _ _ _ _ _ (load_ok _ _ _ _ Ho)).
  rewrite (kbind_some _ _ _ _ _ (load_ok _ _ _ _ Hpe)).
  destruct (decide (e <> 0)) as [_|]; [|contradiction].
  erewrite kbind_some; [|unfold alloc_kpages; rewrite Hpool; reflexivity].
  destruct (decide (0 = 0)); [reflexivity | contradiction].
Qed.

End Clone.

(** ** Regions: what a declaration records and what the list keeps *)


Section RegionList.
Context {mach : Machine}.

Lemma region_overlaps_false base len l :
  region_overlaps base len l = false ->
  Forall (fun c => region_end c < base \/ u32 (base + len) < vaddr c) l.
Proof.
  induction l as [|c l IH]; [constructor|].
  cbn [region_overlaps].
  destruct (bool_decide (base <= u32 (vaddr c + memsize c))) eqn:H1;
    destruct (bool_decide (u32 (base + len) >= vaddr c)) eqn:H2;
    cbn [andb]; try discriminate; intros H; constructor; try (now apply IH).
  - right. apply bool_decide_eq_false in H2. lia.
  - left. apply bool_decide_eq_false in H1. unfold region_end. lia.
  - left. apply bool_decide_eq_false in H1. unfold region_end. lia.
Qed.

(** What a call that returns 0 has done. *)
Lemma as_define_region_ok_inv as_ va sz rd wr ex k as' k' :
  as_define_region as_ va sz rd wr ex k = Some ((OK, as'), k') ->
  exists node junk rest,
    k_heap_pool k = (node, junk) :: rest /\ node <> 0 /\
    as' = Addrspace (as_self as_)
            (Region node (norm_vaddr va) (norm_memsize va sz) rd wr ex wr
               :: region_list as_) (pagetable as_) /\
    k' = Kernel (<[node := Blk AHeap []]> (k_mem k)) (k_page_pool k) rest (k_trace k) /\
    u32 (norm_vaddr va + norm_memsize va sz) <= MIPS_KSEG0 /\
    region_overlaps (norm_vaddr va) (norm_memsize va sz) (region_list as_) = false.
Proof.
  unfold as_define_region. cbv zeta. fold (norm_vaddr va). fold (norm_memsize va sz).
  destruct (decide (u32 (norm_vaddr va + norm_memsize va sz) > MIPS_KSEG0)) as [|Hin];
    [discriminate|].
  destruct (region_overlaps _ _ _) eqn:Hov; [discriminate|].
  unfold kbind, kmalloc. destruct (k_heap_pool k) as [|[node junk] rest] eqn:Hpool.
  - destruct (decide (0 = 0)); [discriminate | contradiction].
  - destruct (decide (node = 0)) as [|Hnode]; [discriminate|].
    rewrite resize_0. intros [= <- <-]. exists node, junk, rest.
    split; [reflexivity|]. split; [exact Hnode|]. split; [reflexivity|].
    split; [reflexivity|]. split; [lia | reflexivity].
Qed.

(** A call that returns an error has changed nothing ([kmalloc]
    handing out no null block). *)
Lemma as_define_region_err_inv as_ va sz rd wr ex k e as' k' :
  as_define_region as_ va sz rd wr ex k = Some ((e, as'), k') -> e <> OK ->
  Forall (fun a => a <> 0) (map fst (k_heap_pool k)) ->
  as' = as_ /\ k' = k.
Proof.
  unfold as_define_region. cbv zeta.
  destruct (decide _); [intros [= <- <- <-]; auto|].
  destruct (region_overlaps _ _ _); [intros [= <- <- <-]; auto|].
  unfold kbind, kmalloc. destruct (k_heap_pool k) as [|[node junk] rest] eqn:Hpool.
  - destruct (decide (0 = 0)); [|contradiction]. intros [= <- <- <-]; auto.
  - intros H He Hnz. cbn [map fst] in Hnz. apply Forall_cons in Hnz as [Hnode _].
    destruct (decide (node = 0)) as [|_]; [contradiction|].
    injection H as <- _ _. contradiction.
Qed.

Lemma regions_apart_cons r l :
  regions_apart (r :: l) <-> Forall (apart r) l /\ regions_apart l.
Proof. reflexivity. Qed.

(** In a list of regions kept apart the scan of [vm_fault] finds the
    region that has the address, wherever it stands in the list. *)
Lemma find_region_apart fa l r :
  regions_apart l -> r ∈ l -> region_has r fa -> find_region fa l = Some r.
Proof.
  induction l as [|c l IH]; intros Hap Hin Hhas; [now apply elem_of_nil in Hin|].
  destruct Hap as [Hc Hap]. cbn [find_region].
  apply elem_of_cons in Hin as [<- | Hin].
  - destruct Hhas as [H1 H2]. unfold region_end in H2.
    rewrite !bool_decide_eq_true_2 by lia. reflexivity.
  - destruct (bool_decide (fa >= vaddr c)) eqn:H1;
      destruct (bool_decide (fa < u32 (vaddr c + memsize c))) eqn:H2;
      cbn [andb]; try (now apply IH).
    exfalso. apply bool_decide_eq_true in H1. apply bool_decide_eq_true in H2.
    destruct Hhas as [H3 H4].
    destruct (proj1 (Forall_forall _ _) Hc r Hin) as [Ha | Ha];
      unfold region_end in *; lia.
Qed.

Lemma find_region_Some fa l r :
  find_region fa l = Some r -> r ∈ l /\ region_has r fa.
Proof.
  induction l as [|c l IH]; [discriminate|]. cbn [find_region].
  destruct (bool_decide (fa >= vaddr c)) eqn:H1;
    destruct (bool_decide (fa < u32 (vaddr c + memsize c))) eqn:H2;
    cbn [andb]; try (intros H; destruct (IH H); split; [now right | assumption]).
  intros [= <-]. apply bool_decide_eq_true in H1. apply bool_decide_eq_true in H2.
  split; [now left | split; unfold region_end; lia].
Qed.

Lemma find_region_None fa l :
  find_region fa l = None -> forall r, r ∈ l -> ~ region_has r fa.
Proof.
  induction l as [|c l IH]; intros H r Hin; [now apply elem_of_nil in Hin|].
  cbn [find_region] in H.
  destruct (bool_decide (fa >= vaddr c)) eqn:H1;
    destruct (bool_decide (fa < u32 (vaddr c + memsize c))) eqn:H2;
    cbn [andb] in H; try discriminate;
    (apply elem_of_cons in Hin as [-> | Hin]; [|now apply IH]);
    intros [H3 H4]; unfold region_end in H4.
  - apply bool_decide_eq_false in H2. lia.
  - apply bool_decide_eq_false in H1. lia.
  - apply bool_decide_eq_false in H1. lia.
Qed.

(** X1: in a region list whose regions the overlap test keeps apart,
    the scan of the fault handler does not depend on the order of the
    list: it returns a region exactly when that region is in the list
    and has the address, and it returns nothing exactly when no region
    of the list has the address. *)
Theorem find_region_unambiguous (fa : Z) (l : list region) :
  regions_apart l ->
  (forall r, find_region fa l = Some r <-> r ∈ l /\ region_has r fa) /\
  (find_region fa l = None <-> forall r, r ∈ l -> ~ region_has r fa).
Proof.
  intros Hap. split.
  - intros r. split; [apply find_region_Some|].
    intros [Hin Hhas]. now apply find_region_apart.
  - split; [apply find_region_None|].
    intros Hno. destruct (find_region fa l) as [r|] eqn:Hf; [|reflexivity].
    apply find_region_Some in Hf as [Hin Hhas]. now destruct (Hno r Hin).
Qed.

Lemma regions_apart_lookup l : forall i j a b,
  regions_apart l -> i <> j -> l !! i = Some a -> l !! j = Some b -> apart a b.
Proof.
  induction l as [|c l IH]; intros i j a b Hap Hij Ha Hb; [discriminate|].
  destruct Hap as [Hc Hap]. rewrite Forall_forall in Hc.
  destruct i as [|i], j as [|j]; cbn [lookup list_lookup] in Ha, Hb.
  - contradiction.
  - injection Ha as <-. apply Hc. eapply list_elem_of_lookup_2. exact Hb.
  - injection Hb as <-.
    assert (H : apart c a) by (apply Hc; eapply list_elem_of_lookup_2; exact Ha).
    unfold apart in *. tauto.
  - apply (IH i j); [exact Hap | congruence | exact Ha | exact Hb].
Qed.

(** X2: a declaration that returns 0 keeps the region list in order,
    when the base and the size it records do not add up past the end
    of the 32-bit address space.  If the regions were pairwise apart
    and each lay in the user segment, ending at most at [MIPS_KSEG0]
    without wrap-around, the same holds of the list with the new
    region, which stands at its head; the regions that were there are
    not touched; and no address lies in, or at the end of, two regions
    of the new list. *)
Theorem as_define_region_keeps_apart
    (as_ : addrspace) (va sz rd wr ex : Z) (k k' : kernel) (as' : addrspace) :
  0 <= MIPS_KSEG0 <= 2 ^ 32 - PAGE_SIZE ->
  regions_apart (region_list as_) -> Forall in_user (region_list as_) ->
  norm_vaddr va + norm_memsize va sz < 2 ^ 32 ->
  as_define_region as_ va sz rd wr ex k = Some ((OK, as'), k') ->
  regions_apart (region_list as') /\ Forall in_user (region_list as') /\
  tail (region_list as') = region_list as_ /\
  forall i j a b fa,
    region_list as' !! i = Some a -> region_list as' !! j = Some b ->
    vaddr a <= fa <= vaddr a + memsize a ->
    vaddr b <= fa <= vaddr b + memsize b -> i = j.
Proof.
  intros HK Hap Hin Hnowrap Hrun.
  apply as_define_region_ok_inv in Hrun
    as (node & junk & rest & _ & _ & -> & _ & Hend & Hov).
  cbn [region_list tail].
  assert (Hnv : 0 <= norm_vaddr va).
  { unfold norm_vaddr. apply Z.land_nonneg. right. unfold PAGE_FRAME. lia. }
  assert (Hnm : 0 <= norm_memsize va sz).
  { unfold norm_memsize. apply Z.land_nonneg. right. unfold PAGE_FRAME. lia. }
  rewrite u32_small in Hend by lia.
  set (r := Region node (norm_vaddr va) (norm_memsize va sz) rd wr ex wr).
  assert (Hap' : regions_apart (r :: region_list as_)).
  { split; [|exact Hap]. apply region_overlaps_false in Hov.
    eapply Forall_impl; [exact Hov|]. intros c Hc.
    unfold apart, region_end at 2. cbn [vaddr memsize r]. exact Hc. }
  assert (Hin' : Forall in_user (r :: region_list as_)).
  { constructor; [|exact Hin]. unfold in_user. cbn [vaddr memsize r]. auto. }
  split; [exact Hap'|]. split; [exact Hin'|]. split; [reflexivity|].
  intros i j a b fa Ha Hb Hfa Hfb.
  destruct (decide (i = j)) as [|Hij]; [assumption|]. exfalso.
  pose proof (regions_apart_lookup _ i j a b Hap' Hij Ha Hb) as Hab.
  rewrite Forall_forall in Hin'.
  destruct (Hin' a (list_elem_of_lookup_2 _ _ _ Ha)) as (Ha0 & Ha1 & Ha2).
  destruct (Hin' b (list_elem_of_lookup_2 _ _ _ Hb)) as (Hb0 & Hb1 & Hb2).
  unfold apart, region_end in Hab.
  rewrite !u32_small in Hab by (unfold PAGE_SIZE in HK; lia).
  lia.
Qed.

(** X3: a declaration that returns an error (EFAULT, EINVAL or ENOMEM)
    has changed neither the address space nor the kernel state. *)
Theorem as_define_region_error_changes_nothing
    (as_ : addrspace) (va sz rd wr ex : Z) (k k' : kernel) (e : retcode)
    (as' : addrspace) :
  Forall (fun a => a <> 0) (map fst (k_heap_pool k)) ->
  as_define_region as_ va sz rd wr ex k = Some ((e, as'), k') -> e <> OK ->
  as' = as_ /\ k' = k.
Proof. intros Hnz Hrun He. eapply as_define_region_err_inv; eauto. Qed.

End RegionList.

Section Declare.
Context {mach : Machine}.

Lemma spec_region_base_range va :
  0 <= va -> 0 <= spec_region_base va <= va /\ spec_region_base va mod PAGE_SIZE = 0.
Proof.
  intros Hva. unfold spec_region_base, PAGE_SIZE.
  pose proof (Z.mod_pos_bound va 4096 ltac:(lia)).
  pose proof (Z.mod_le va 4096 ltac:(lia) ltac:(lia)).
  split; [lia|].
  rewrite Zminus_mod, Z.mod_mod, Z.sub_diag by lia. reflexivity.
Qed.

Lemma spec_region_length_range va sz :
  0 <= va -> 0 <= sz ->
  sz + va mod PAGE_SIZE <= spec_region_length va sz < sz + va mod PAGE_SIZE + PAGE_SIZE /\
  spec_region_length va sz mod PAGE_SIZE = 0.
Proof.
  intros Hva Hsz. unfold spec_region_length, PAGE_SIZE.
  pose proof (Z.mod_pos_bound va 4096 ltac:(lia)).
  pose proof (Z.div_mod (sz + va mod 4096 + 4096 - 1) 4096 ltac:(lia)).
  pose proof (Z.mod_pos_bound (sz + va mod 4096 + 4096 - 1) 4096 ltac:(lia)).
  split; [lia|].
  rewrite Z.mul_comm. apply Z.mod_mul. lia.
Qed.

(** The declaration of a range that ends in the user segment and that
    the overlap test lets pass, [kmalloc] delivering. *)
Lemma as_define_region_ok_run as_ va sz rd wr ex k node junk rest :
  0 <= va < 2 ^ 32 -> 0 <= sz < 2 ^ 32 ->
  0 <= MIPS_KSEG0 <= 2 ^ 32 - PAGE_SIZE ->
  spec_region_base va + spec_region_length va sz <= MIPS_KSEG0 ->
  Forall (fun c => region_end c < spec_region_base va \/
                   spec_region_base va + spec_region_length va sz < vaddr c)
         (region_list as_) ->
  k_heap_pool k = (node, junk) :: rest -> node <> 0 ->
  as_define_region as_ va sz rd wr ex k =
    Some ((OK, Addrspace (as_self as_)
                 (Region node (spec_region_base va) (spec_region_length va sz)
                         rd wr ex wr :: region_list as_) (pagetable as_)),
          Kernel (<[node := Blk AHeap []]> (k_mem k)) (k_page_pool k) rest (k_trace k)).
Proof.
  intros Hva Hsz HK Hend Hfree Hpool Hnode.
  destruct (define_region_normalises va sz Hva Hsz HK Hend) as [Hb Hl].
  destruct (spec_region_base_range va ltac:(lia)) as [Hb0 _].
  destruct (spec_region_length_range va sz ltac:(lia) ltac:(lia)) as [Hl0 _].
  pose proof (Z.mod_pos_bound va PAGE_SIZE ltac:(reflexivity)) as Hoff.
  unfold as_define_region. cbv zeta. rewrite Hb, Hl.
  assert (He : u32 (spec_region_base va + spec_region_length va sz)
               = spec_region_base va + spec_region_length va sz).
  { apply u32_small. unfold PAGE_SIZE in *. lia. }
  rewrite He.
  destruct (decide (spec_region_base va + spec_region_length va sz > MIPS_KSEG0)); [lia|].
  assert (Hov : region_overlaps (spec_region_base va) (spec_region_length va sz)
                  (region_list as_) = false).
  { induction (region_list as_) as [|c l IH]; [reflexivity|].
    apply Forall_cons in Hfree as [Hc Hfree]. cbn [region_overlaps].
    rewrite He. unfold region_end in Hc.
    destruct Hc as [Hc | Hc].
    - rewrite (bool_decide_eq_false_2 (spec_region_base va <= _)) by lia.
      cbn [andb]. now apply IH.
    - rewrite (bool_decide_eq_false_2 (_ >= vaddr c)) by lia.
      rewrite andb_false_r. now apply IH. }
  rewrite Hov. unfold kbind, kmalloc. rewrite Hpool, resize_0.
  destruct (decide (node = 0)); [contradiction | reflexivity].
Qed.

(** X4: the declaration of a range [va, va + sz) that ends in the user
    segment, overlaps no region of the list and finds [kmalloc] with a
    block returns 0 and puts at the head of the list a region that
    starts at [va] rounded down to a page boundary, is a whole number
    of pages long, covers the range declared, ends in the user segment,
    and has the permissions given, [old_writeable] being set to
    [writeable].  One block is taken from [kmalloc]; the page table and
    the frame provider are not touched. *)
Theorem as_define_region_records_range
    (as_ : addrspace) (va sz rd wr ex : Z) (k : kernel)
    (node : Z) (junk : list Z) (rest : list (Z * list Z)) :
  0 <= va < 2 ^ 32 -> 0 <= sz < 2 ^ 32 ->
  0 <= MIPS_KSEG0 <= 2 ^ 32 - PAGE_SIZE ->
  spec_region_base va + spec_region_length va sz <= MIPS_KSEG0 ->
  Forall (fun c => region_end c < spec_region_base va \/
                   spec_region_base va + spec_region_length va sz < vaddr c)
         (region_list as_) ->
  k_heap_pool k = (node, junk) :: rest -> node <> 0 ->
  exists r as' k',
    as_define_region as_ va sz rd wr ex k = Some ((OK, as'), k') /\
    region_list as' = r :: region_list as_ /\
    pagetable as' = pagetable as_ /\ as_self as' = as_self as_ /\
    vaddr r <= va /\ va + sz <= vaddr r + memsize r /\
    vaddr r mod PAGE_SIZE = 0 /\ memsize r mod PAGE_SIZE = 0 /\
    va - vaddr r < PAGE_SIZE /\ vaddr r + memsize r < va + sz + PAGE_SIZE /\
    vaddr r + memsize r <= MIPS_KSEG0 /\
    readable r = rd /\ writeable r = wr /\ executable r = ex /\
    old_writeable r = wr /\ r_node r = node /\
    k_mem k' = <[node := Blk AHeap []]> (k_mem k) /\
    k_page_pool k' = k_page_pool k /\ k_heap_pool k' = rest.
Proof.
  intros Hva Hsz HK Hend Hfree Hpool Hnode.
  destruct (spec_region_base_range va ltac:(lia)) as [Hb0 Hbm].
  destruct (spec_region_length_range va sz ltac:(lia) ltac:(lia)) as [Hl0 Hlm].
  pose proof (Z.mod_pos_bound va PAGE_SIZE ltac:(reflexivity)) as Hoff.
  exists (Region node (spec_region_base va) (spec_region_length va sz) rd wr ex wr).
  eexists _, _. split; [eapply as_define_region_ok_run; eauto|].
  cbn [region_list pagetable as_self vaddr memsize readable writeable executable
       old_writeable r_node k_mem k_page_pool k_heap_pool].
  repeat split; try reflexivity; try assumption;
    unfold spec_region_base in *; lia.
Qed.


End Declare.

Section StackAndActivate.
Context {mach : Machine}.

(** Declaring again a range that was declared with success. *)
Lemma as_define_region_again as_ as' va sz rd wr ex rd2 wr2 ex2 k k' :
  0 <= va < 2 ^ 32 -> 0 <= sz < 2 ^ 32 ->
  0 <= MIPS_KSEG0 <= 2 ^ 32 - PAGE_SIZE ->
  spec_region_base va + spec_region_length va sz <= MIPS_KSEG0 ->
  as_define_region as_ va sz rd wr ex k = Some ((OK, as'), k') ->
  as_define_region as' va sz rd2 wr2 ex2 k' = Some ((EINVAL, as'), k').
Proof.
  intros Hva Hsz HK Hend Hrun.
  apply as_define_region_ok_inv in Hrun
    as (node & junk & rest & _ & _ & -> & _ & _ & _).
  destruct (define_region_normalises va sz Hva Hsz HK Hend) as [Hb Hl].
  fold (norm_vaddr va) in Hb. fold (norm_memsize va sz) in Hl. rewrite Hb, Hl.
  destruct (spec_region_base_range va ltac:(lia)) as [Hb0 _].
  destruct (spec_region_length_range va sz ltac:(lia) ltac:(lia)) as [Hl0 _].
  pose proof (Z.mod_pos_bound va PAGE_SIZE ltac:(reflexivity)) as Hoff.
  assert (He : u32 (spec_region_base va + spec_region_length va sz)
               = spec_region_base va + spec_region_length va sz).
  { apply u32_small. unfold PAGE_SIZE in *. lia. }
  unfold as_define_region. cbv zeta.
  fold (norm_vaddr va). fold (norm_memsize va sz). rewrite Hb, Hl, He.
  destruct (decide (spec_region_base va + spec_region_length va sz > MIPS_KSEG0)); [lia|].
  cbn [region_list region_overlaps vaddr memsize]. rewrite He.
  rewrite !bool_decide_eq_true_2 by lia. reflexivity.
Qed.

(** X6: a range that was declared with success cannot be declared a
    second time, when the arguments are 32-bit values and the range,
    rounded to pages, ends at most at [MIPS_KSEG0] without wrapping
    around the address space: whatever the permissions asked for, the
    second call returns EINVAL and changes nothing. *)
Theorem as_define_region_twice_is_einval
    (as_ as' : addrspace) (va sz rd wr ex rd2 wr2 ex2 : Z) (k k' : kernel) :
  0 <= va < 2 ^ 32 -> 0 <= sz < 2 ^ 32 ->
  0 <= MIPS_KSEG0 <= 2 ^ 32 - PAGE_SIZE ->
  spec_region_base va + spec_region_length va sz <= MIPS_KSEG0 ->
  as_define_region as_ va sz rd wr ex k = Some ((OK, as'), k') ->
  as_define_region as' va sz rd2 wr2 ex2 k' = Some ((EINVAL, as'), k').
Proof. apply as_define_region_again. Qed.


Lemma stack_range :
  stack_ok ->
  let va := USERSTACK - PAGE_SIZE * NUM_STACK_PAGES in
  u32 va = va /\ 0 <= va < 2 ^ 32 /\ 0 <= PAGE_SIZE * NUM_STACK_PAGES < 2 ^ 32 /\
  spec_region_base va = va /\
  spec_region_length va (PAGE_SIZE * NUM_STACK_PAGES) = PAGE_SIZE * NUM_STACK_PAGES.
Proof.
  intros (HN & Hroom & HU & HK & Hal) va.
  assert (Hva : 0 <= va < 2 ^ 32) by (unfold va, PAGE_SIZE in *; lia).
  assert (Hm : va mod PAGE_SIZE = 0).
  { unfold va. rewrite Zminus_mod, Hal, Z.mul_comm, Z.mod_mul by (unfold PAGE_SIZE; lia).
    reflexivity. }
  split; [now apply u32_small|]. split; [exact Hva|].
  split; [unfold PAGE_SIZE in *; lia|].
  unfold spec_region_base, spec_region_length. rewrite Hm. split; [lia|].
  rewrite Z.add_0_r. f_equal.
  replace (PAGE_SIZE * NUM_STACK_PAGES + PAGE_SIZE - 1)
    with (NUM_STACK_PAGES * PAGE_SIZE + (PAGE_SIZE - 1)) by lia.
  rewrite Z.div_add_l by (unfold PAGE_SIZE; lia).
  rewrite (Z.div_small (PAGE_SIZE - 1)) by (unfold PAGE_SIZE; lia). lia.
Qed.

(** X7: [as_define_stack] stores [USERSTACK] in [*stackptr] and, no
    region of the list reaching into the stack and [kmalloc]
    delivering, returns 0 and puts at the head of the list the region
    of [NUM_STACK_PAGES] pages that ends at [USERSTACK], readable and
    writeable, not executable.  Called once more it returns EINVAL and
    changes nothing. *)
Theorem as_define_stack_declares_stack
    (as_ : addrspace) (k : kernel)
    (node : Z) (junk : list Z) (rest : list (Z * list Z)) :
  stack_ok ->
  Forall (fun c => region_end c < USERSTACK - PAGE_SIZE * NUM_STACK_PAGES \/
                   USERSTACK < vaddr c) (region_list as_) ->
  k_heap_pool k = (node, junk) :: rest -> node <> 0 ->
  exists r as' k',
    as_define_stack as_ k = Some ((OK, as', USERSTACK), k') /\
    region_list as' = r :: region_list as_ /\
    vaddr r = USERSTACK - PAGE_SIZE * NUM_STACK_PAGES /\
    memsize r = PAGE_SIZE * NUM_STACK_PAGES /\
    readable r = 1 /\ writeable r = 1 /\ executable r = 0 /\
    (forall fa, USERSTACK - PAGE_SIZE * NUM_STACK_PAGES <= fa < USERSTACK ->
                find_region fa (region_list as') = Some r) /\
    as_define_stack as' k' = Some ((EINVAL, as', USERSTACK), k').
Proof.
  intros Hok Hfree Hpool Hnode.
  destruct (stack_range Hok) as (Hu & Hva & Hsz & Hb & Hl).
  destruct Hok as (HN & Hroom & HU & HK & Hal).
  set (va := USERSTACK - PAGE_SIZE * NUM_STACK_PAGES) in *.
  set (sz := PAGE_SIZE * NUM_STACK_PAGES) in *.
  assert (HK' : 0 <= MIPS_KSEG0 <= 2 ^ 32 - PAGE_SIZE) by (unfold PAGE_SIZE in *; lia).
  assert (Hend : spec_region_base va + spec_region_length va sz <= MIPS_KSEG0).
  { rewrite Hb, Hl. unfold va, sz. lia. }
  assert (Hfree' : Forall (fun c => region_end c < spec_region_base va \/
                     spec_region_base va + spec_region_length va sz < vaddr c)
                    (region_list as_)).
  { rewrite Hb, Hl. eapply Forall_impl; [exact Hfree|].
    intros c [Hc | Hc]; [now left | right; unfold va, sz; lia]. }
  pose proof (as_define_region_ok_run as_ va sz 1 1 0 k node junk rest
                Hva Hsz HK' Hend Hfree' Hpool Hnode) as Hrun.
  rewrite Hb, Hl in Hrun.
  exists (Region node va sz 1 1 0 1). eexists _, _.
  split.
  { unfold as_define_stack. cbv zeta.
    change (USERSTACK - PAGE_SIZE * NUM_STACK_PAGES) with va.
    change (PAGE_SIZE * NUM_STACK_PAGES) with sz. rewrite Hu.
    rewrite (kbind_some _ _ _ _ _ Hrun). reflexivity. }
  cbn [region_list vaddr memsize readable writeable executable].
  repeat split; try reflexivity.
  - intros fa Hfa. cbn [find_region vaddr memsize].
    rewrite u32_small by (unfold va, sz, PAGE_SIZE in *; lia).
    rewrite !bool_decide_eq_true_2 by (unfold va, sz in *; lia). reflexivity.
  - unfold as_define_stack. cbv zeta.
    change (USERSTACK - PAGE_SIZE * NUM_STACK_PAGES) with va.
    change (PAGE_SIZE * NUM_STACK_PAGES) with sz. rewrite Hu.
    erewrite kbind_some.
    2:{ eapply as_define_region_again; eauto. }
    reflexivity.
Qed.

(** The loop of [as_activate]. *)
Lemma invalidate_loop n : forall i k,
  for_do n i (fun i => emit (EvTlbInvalidate i)) k =
    Some (tt, Kernel (k_mem k) (k_page_pool k) (k_heap_pool k)
                     (k_trace k ++ map EvTlbInvalidate (seq i n))).
Proof.
  induction n as [|n IH]; intros i k.
  - cbn [for_do seq map]. rewrite app_nil_r. now destruct k.
  - cbn [for_do seq map]. unfold kbind at 1, emit at 1. rewrite IH.
    cbn [k_mem k_page_pool k_heap_pool k_trace]. now rewrite <- app_assoc.
Qed.

(** X8: for a process with an address space [as_activate] raises the
    interrupt level, invalidates the TLB entries 0 to [NUM_TLB - 1],
    each once and in this order, and lowers the level again; memory and
    the allocators are not touched.  Without an address space it does
    nothing.  [as_deactivate] does the same. *)
Theorem as_activate_flushes_tlb (curproc : option proc) (k : kernel) :
  as_activate curproc k =
    Some (tt, match proc_getas curproc with
              | Some _ =>
                  Kernel (k_mem k) (k_page_pool k) (k_heap_pool k)
                         (k_trace k ++ [EvSplHigh]
                            ++ map EvTlbInvalidate (seq 0 NUM_TLB) ++ [EvSplx])
              | None => k
              end) /\
  as_deactivate curproc k = as_activate curproc k.
Proof.
  split; [|reflexivity]. unfold as_activate.
  destruct (proc_getas curproc); [|reflexivity].
  unfold kbind at 1, emit at 1. unfold kbind at 1. rewrite invalidate_loop.
  unfold emit. cbn [k_mem k_page_pool k_heap_pool k_trace].
  now rewrite <- !app_assoc.
Qed.

End StackAndActivate.

(** ** Creation *)

Section Create.
Context {mach : Machine}.

(** The loop of [as_create] that clears the first-level table. *)
Lemma zero_l1_loop k pt kd ws :
  k_mem k !! pt = Some (Blk kd ws) -> length ws = PT_SIZE ->
  for_do PT_SIZE 0 (fun i => store pt i 0) k =
    Some (tt, set_mem (<[pt := Blk kd (replicate PT_SIZE 0)]> (k_mem k)) k).
Proof.
  intros Hp Hlen.
  destruct (for_do_inv
    (fun j k0 => k0 = set_mem (<[pt := Blk kd (replicate j 0 ++ drop j ws)]> (k_mem k)) k)
    (fun i => store pt i 0) PT_SIZE 0 k) as (k' & Hrun & Hk').
  - cbn [replicate app]. rewrite drop_0. rewrite insert_id by assumption. now rewrite set_mem_id.
  - intros j k0 Hj ->. eexists. split.
    + erewrite store_ok.
      2:{ unfold set_mem. cbn [k_mem]. apply lookup_insert_eq. }
      2:{ cbn [b_words]. rewrite length_app, length_replicate, length_drop. lia. }
      reflexivity.
    + cbn [b_kind b_words]. rewrite set_mem_set_mem. f_equal.
      unfold set_mem at 1. cbn [k_mem].
      rewrite insert_insert_eq. do 2 f_equal.
      apply insert_zero_prefix. lia.
  - rewrite Hrun. cbn [Nat.add] in Hk'. subst k'. do 3 f_equal.
    rewrite drop_ge by lia. now rewrite app_nil_r.
Qed.

Lemma as_create_ok_run k a ja hrest pt jp prest :
  k_heap_pool k = (a, ja) :: hrest -> fresh k a ->
  k_page_pool k = (pt, jp) :: prest -> fresh k pt -> a <> pt ->
  as_create k =
    Some (Some (Addrspace a [] pt),
          Kernel (<[pt := Blk APage (replicate PT_SIZE 0)]>
                    (<[a := Blk AHeap []]> (k_mem k)))
                 prest hrest (k_trace k)).
Proof.
  intros Hhp [Ha0 Haf] Hpp [Hp0 Hpf] Hne. unfold as_create.
  erewrite kbind_some; [|unfold kmalloc; rewrite Hhp, resize_0; reflexivity].
  destruct (decide (a = 0)) as [|_]; [contradiction|].
  erewrite kbind_some; [|unfold alloc_kpages; cbn [k_page_pool]; rewrite Hpp; reflexivity].
  destruct (decide (pt = 0)) as [|_]; [contradiction|].
  erewrite kbind_some.
  2:{ eapply zero_l1_loop; [cbn [k_mem]; apply lookup_insert_eq | apply length_resize]. }
  unfold kret, set_mem. cbn [k_mem k_page_pool k_heap_pool k_trace].
  now rewrite insert_insert_eq.
Qed.

(** X9: when [kmalloc] and the frame provider each deliver a block that
    is not in use, [as_create] returns an address space with no region
    whose first-level table has every slot NULL, so that no address is
    mapped; the address space is tidy, and nothing that was allocated
    before is touched. *)
Theorem as_create_gives_empty_space
    (k : kernel) (a : Z) (ja : list Z) (hrest : list (Z * list Z))
    (pt : Z) (jp : list Z) (prest : list (Z * list Z)) :
  k_heap_pool k = (a, ja) :: hrest -> fresh k a ->
  k_page_pool k = (pt, jp) :: prest -> fresh k pt -> a <> pt ->
  exists as_ k',
    as_create k = Some (Some as_, k') /\
    as_self as_ = a /\ pagetable as_ = pt /\ region_list as_ = [] /\
    (forall i, (i < PT_SIZE)%nat -> peek k' pt i = Some 0) /\
    (forall fa, pt_entry k' pt fa = None) /\
    tidy k' as_ /\
    (forall q, q <> a -> q <> pt -> k_mem k' !! q = k_mem k !! q) /\
    k_page_pool k' = prest /\ k_heap_pool k' = hrest /\ k_trace k' = k_trace k.
Proof.
  intros Hhp Ha Hpp Hp Hne.
  eexists _, _. split; [eapply as_create_ok_run; eauto|].
  cbn [as_self pagetable region_list k_mem k_page_pool k_heap_pool k_trace].
  assert (Hpeek : forall pl hl tr i, (i < PT_SIZE)%nat ->
    peek (Kernel (<[pt := Blk APage (replicate PT_SIZE 0)]>
                    (<[a := Blk AHeap []]> (k_mem k))) pl hl tr) pt i = Some 0).
  { intros. unfold peek. cbn [k_mem]. rewrite lookup_insert_eq. cbn [b_words].
    now apply lookup_replicate_2. }
  assert (Hslot : forall pl hl tr i l2,
    peek (Kernel (<[pt := Blk APage (replicate PT_SIZE 0)]>
                    (<[a := Blk AHeap []]> (k_mem k))) pl hl tr) pt i = Some l2 -> l2 = 0).
  { intros pl hl tr i l2. unfold peek. cbn [k_mem]. rewrite lookup_insert_eq. cbn [b_words].
    intros H. now apply lookup_replicate in H as [-> _]. }
  assert (Hpte : forall pl hl tr i j e,
    ~ pte_at (Kernel (<[pt := Blk APage (replicate PT_SIZE 0)]>
                    (<[a := Blk AHeap []]> (k_mem k))) pl hl tr) pt i j e).
  { intros pl hl tr i j e (l2 & H & Hl2 & _). now apply Hslot in H. }
  split; [reflexivity|]. split; [reflexivity|]. split; [reflexivity|].
  split; [intros i Hi; now apply Hpeek|].
  split.
  { intros fa. unfold pt_entry. rewrite Hpeek by apply pt1_index_lt.
    destruct (decide (0 = 0)); [reflexivity | contradiction]. }
  split.
  { split; [|intros i i' l2 H _ Hl2; now apply Hslot in H].
    constructor; cbn [as_self pagetable region_list map].
    - exists (replicate PT_SIZE 0). split; [apply lookup_insert_eq | apply length_replicate].
    - intros i l2 H Hl2. now apply Hslot in H.
    - intros i j e H. now apply Hpte in H.
    - intros i j e i' j' e' H. now apply Hpte in H.
    - split; constructor.
    - split; [|apply not_elem_of_nil].
      exists []. cbn [k_mem]. rewrite lookup_insert_ne by congruence. apply lookup_insert_eq. }
  split; [|auto].
  intros q Hqa Hqp. rewrite !lookup_insert_ne by congruence. reflexivity.
Qed.

(** X10: [as_create] returns NULL when [kmalloc] has no block, and when
    the frame provider has no page for the first-level table; in the
    second case it frees the record it had allocated.  Either way
    memory is afterwards as it was before the call. *)
Theorem as_create_out_of_memory (k : kernel) :
  k_heap_pool k = [] \/
  (k_page_pool k = [] /\
   exists a ja hrest, k_heap_pool k = (a, ja) :: hrest /\ fresh k a) ->
  exists k',
    as_create k = Some (None, k') /\
    k_mem k' = k_mem k /\ k_page_pool k' = k_page_pool k /\
    k_trace k' = k_trace k /\
    map fst (k_heap_pool k') ≡ₚ map fst (k_heap_pool k).
Proof.
  intros [Hhp | (Hpp & a & ja & hrest & Hhp & Ha0 & Haf)].
  - exists k. split; [|auto]. unfold as_create.
    erewrite kbind_some; [|unfold kmalloc; rewrite Hhp; reflexivity].
    destruct (decide (0 = 0)); [reflexivity | contradiction].
  - eexists. split.
    + unfold as_create.
      erewrite kbind_some; [|unfold kmalloc; rewrite Hhp, resize_0; reflexivity].
      destruct (decide (a = 0)) as [|_]; [contradiction|].
      erewrite kbind_some; [|unfold alloc_kpages; cbn [k_page_pool]; rewrite Hpp; reflexivity].
      destruct (decide (0 = 0)) as [_|]; [|contradiction].
      erewrite kbind_some.
      2:{ unfold kfree. cbn [k_mem]. rewrite lookup_insert_eq. reflexivity. }
      reflexivity.
    + unfold release. cbn [b_kind b_words k_mem k_page_pool k_heap_pool k_trace].
      split; [|split; [now rewrite ?Hpp|split; [reflexivity|]]].
      * rewrite delete_insert_eq. now apply delete_id.
      * rewrite Hhp, map_app. cbn [map fst]. symmetry. apply Permutation_cons_append.
Qed.

(** X11: an address space that [as_create] has just made is given back
    whole by [as_destroy]: after the two calls memory is what it was,
    and the page and the block are back in their pools. *)
Theorem as_create_then_destroy
    (k : kernel) (a : Z) (ja : list Z) (hrest : list (Z * list Z))
    (pt : Z) (jp : list Z) (prest : list (Z * list Z)) :
  k_heap_pool k = (a, ja) :: hrest -> fresh k a ->
  k_page_pool k = (pt, jp) :: prest -> fresh k pt -> a <> pt ->
  exists as_ k' k'',
    as_create k = Some (Some as_, k') /\
    as_destroy as_ k' = Some (tt, k'') /\
    k_mem k'' = k_mem k /\
    k_page_pool k'' = prest ++ [(pt, replicate PT_SIZE 0)] /\
    k_heap_pool k'' = hrest ++ [(a, [])] /\
    k_trace k'' = k_trace k.
Proof.
  intros Hhp Ha Hpp Hp Hne.
  eexists _, _, _. split; [eapply as_create_ok_run; eauto|].
  set (k1 := Kernel _ _ _ _).
  assert (Hwalk : for_do PAGETABLE_SIZE 0 (fun i =>
      l2 <- load pt i ;;
      if decide (l2 <> 0) then destroy_frames pt i else kret tt) k1 = Some (tt, k1)).
  { destruct (for_do_inv (fun _ k0 => k0 = k1)
      (fun i => l2 <- load pt i ;;
                if decide (l2 <> 0) then destroy_frames pt i else kret tt)
      PAGETABLE_SIZE 0 k1 eq_refl) as (k2 & Hrun & ->); [|exact Hrun].
    intros j k0 Hj ->. exists k1. split; [|reflexivity].
    erewrite kbind_some.
    2:{ apply load_ok. unfold peek, k1. cbn [k_mem]. rewrite lookup_insert_eq.
        cbn [b_words]. apply lookup_replicate_2.
        unfold PAGETABLE_SIZE, PT_SIZE in *. lia. }
    destruct (decide (0 <> 0)); [contradiction | reflexivity]. }
  split.
  { unfold as_destroy. cbn [pagetable region_list as_self destroy_regions].
    rewrite (kbind_some _ _ _ _ _ Hwalk).
    erewrite kbind_some.
    2:{ unfold kfree, k1. cbn [k_mem]. rewrite lookup_insert_eq. reflexivity. }
    unfold kbind at 1, kret at 1.
    unfold kfree, release. cbn [b_kind b_words k_mem k_page_pool k_heap_pool k_trace].
    rewrite delete_insert_eq, lookup_delete_ne by congruence.
    rewrite lookup_insert_eq. reflexivity. }
  cbn [b_kind b_words k_mem k_page_pool k_heap_pool k_trace].
  repeat split; try reflexivity.
  destruct Ha as [_ Haf], Hp as [_ Hpf].
  rewrite (delete_id (<[a := _]> (k_mem k)) pt)
    by (rewrite lookup_insert_ne by congruence; exact Hpf).
  rewrite delete_insert_eq. now apply delete_id.
Qed.

End Create.

(** ** Faults that fail, and faults that repeat *)

Section FaultMore.
Context {mach : Machine}.

Lemma vm_fault_is_vm_fault_as as_ ft fa k :
  ft = VM_FAULT_READ \/ ft = VM_FAULT_WRITE ->
  vm_fault (proc_of as_) ft fa k = vm_fault_as as_ fa k.
Proof. intros [-> | ->]; reflexivity. Qed.

Lemma vm_fault_as_present_fails as_ fa k l2 :
  peek k (pagetable as_) (Z.to_nat (pt1_bits fa)) = Some l2 -> l2 <> 0 ->
  peek k l2 (Z.to_nat (pt2_bits fa)) = Some 0 ->
  match find_region fa (region_list as_) with
  | None => vm_fault_as as_ fa k = Some (EFAULT, k)
  | Some _ => k_page_pool k = [] -> vm_fault_as as_ fa k = Some (ENOMEM, k)
  end.
Proof.
  intros H1 Hl2 He.
  assert (Hgo : vm_fault_as as_ fa k =
    match find_region fa (region_list as_) with
    | None => (rollback_l1 false (pagetable as_) (Z.to_nat (pt1_bits fa)) ;;; kret EFAULT) k
    | Some cur_reg =>
        (check <- vm_add_l2_entry (pagetable as_) (Z.to_nat (pt1_bits fa))
                    (Z.to_nat (pt2_bits fa))
                    (if decide (writeable cur_reg <> 0) then TLBLO_DIRTY else 0) ;;
         match check with
         | OK => vm_fault_load_tlb as_ (Z.to_nat (pt1_bits fa)) (Z.to_nat (pt2_bits fa)) fa
         | _ => rollback_l1 false (pagetable as_) (Z.to_nat (pt1_bits fa)) ;;; kret check
         end) k
    end).
  { unfold vm_fault_as.
    rewrite (kbind_some _ _ _ _ _ (load_ok _ _ _ _ H1)).
    destruct (decide (l2 = 0)) as [|_]; [contradiction|].
    unfold kbind at 1. unfold kret at 1.
    rewrite (kbind_some _ _ _ _ _ (load_ok _ _ _ _ H1)).
    rewrite (kbind_some _ _ _ _ _ (load_ok _ _ _ _ He)).
    destruct (decide (0 = 0)) as [_|]; [|contradiction].
    destruct (find_region fa (region_list as_)); reflexivity. }
  rewrite Hgo. destruct (find_region fa (region_list as_)) as [r|].
  - intros Hpp. erewrite kbind_some; [|apply vm_add_l2_entry_nomem; exact Hpp].
    reflexivity.
  - reflexivity.
Qed.

(** X12: a fault on a page that is not mapped, in a part of the table
    whose second-level array exists already, fails without a trace when
    no region holds the address (EFAULT) or when the frame provider has
    no page (ENOMEM): the kernel state after the call is the state
    before it.  (The failures that leave a dangling slot are those
    where the array was allocated by the same call.) *)
Theorem vm_fault_failure_changes_nothing
    (as_ : addrspace) (ft : fault) (fa : Z) (k : kernel) (l2 : Z) :
  ft = VM_FAULT_READ \/ ft = VM_FAULT_WRITE ->
  peek k (pagetable as_) (Z.to_nat (pt1_bits fa)) = Some l2 -> l2 <> 0 ->
  peek k l2 (Z.to_nat (pt2_bits fa)) = Some 0 ->
  (find_region fa (region_list as_) = None ->
     vm_fault (proc_of as_) ft fa k = Some (EFAULT, k)) /\
  (find_region fa (region_list as_) <> None -> k_page_pool k = [] ->
     vm_fault (proc_of as_) ft fa k = Some (ENOMEM, k)).
Proof.
  intros Hft H1 Hl2 He. rewrite vm_fault_is_vm_fault_as by assumption.
  pose proof (vm_fault_as_present_fails as_ fa k l2 H1 Hl2 He) as H.
  destruct (find_region fa (region_list as_)); split; intros; try congruence; auto.
Qed.

(** X13: when the first-level slot of the address is NULL and [kmalloc]
    has no block for the second-level array, the fault fails with
    ENOMEM before any region is looked at, and the kernel state is
    unchanged: the NULL that [vm_add_l1_entry] stored is the NULL that
    was there. *)
Theorem vm_fault_no_table_memory
    (as_ : addrspace) (ft : fault) (fa : Z) (k : kernel) (t : list Z) :
  ft = VM_FAULT_READ \/ ft = VM_FAULT_WRITE ->
  l1_table k (pagetable as_) t ->
  t !! Z.to_nat (pt1_bits fa) = Some 0 ->
  k_heap_pool k = [] ->
  vm_fault (proc_of as_) ft fa k = Some (ENOMEM, k).
Proof.
  intros Hft Ht Hslot Hhp. rewrite vm_fault_is_vm_fault_as by assumption.
  assert (H1 : peek k (pagetable as_) (Z.to_nat (pt1_bits fa)) = Some 0).
  { unfold peek. destruct Ht as [-> _]. exact Hslot. }
  unfold vm_fault_as.
  rewrite (kbind_some _ _ _ _ _ (load_ok _ _ _ _ H1)).
  destruct (decide (0 = 0)) as [_|]; [|contradiction].
  erewrite kbind_some.
  2:{ erewrite kbind_some; [|eapply vm_add_l1_entry_nomem; eauto]. reflexivity. }
  reflexivity.
Qed.

Lemma pt_entry_same_page k pt fa fa' :
  pt1_bits fa' = pt1_bits fa -> pt2_bits fa' = pt2_bits fa ->
  pt_entry k pt fa' = pt_entry k pt fa.
Proof. unfold pt_entry. now intros -> ->. Qed.

(** X14: once a fault has mapped a page, a later fault of either kind
    at any address with the same two table indices is served from the
    table: it returns 0, allocates nothing and changes no memory, and
    loads the TLB with the entry the first fault stored. *)
Theorem vm_fault_second_fault_is_resident
    (as_ : addrspace) (ft ft' : fault) (fa fa' : Z) (k : kernel) (r : region)
    (v : Z) (vjunk : list Z) (prest : list (Z * list Z)) :
  ft = VM_FAULT_READ \/ ft = VM_FAULT_WRITE ->
  ft' = VM_FAULT_READ \/ ft' = VM_FAULT_WRITE ->
  TLBLO_VALID <> 0 ->
  find_region fa (region_list as_) = Some r ->
  mappable k (pagetable as_) fa v ->
  k_page_pool k = (v, vjunk) :: prest -> fresh k v ->
  pt1_bits fa' = pt1_bits fa -> pt2_bits fa' = pt2_bits fa ->
  exists k1 k2,
    vm_fault (proc_of as_) ft fa k = Some (OK, k1) /\
    vm_fault (proc_of as_) ft' fa' k1 = Some (OK, k2) /\
    k_mem k2 = k_mem k1 /\ k_page_pool k2 = k_page_pool k1 /\
    k_heap_pool k2 = k_heap_pool k1 /\
    k_trace k2 = k_trace k1 ++
      [EvSplHigh;
       EvTlbRandom (Z.land fa' PAGE_FRAME) (new_entry v (region_dirty r));
       EvSplx].
Proof.
  intros Hft Hft' Hvalid Hr Hmap Hpool Hv H1 H2.
  destruct (vm_fault_as_maps as_ fa k r v vjunk prest Hr Hmap Hpool Hv)
    as (k1 & Hrun & Hent & _).
  exists k1. eexists. rewrite !vm_fault_is_vm_fault_as by assumption.
  split; [exact Hrun|]. split.
  - apply vm_fault_as_resident.
    + rewrite (pt_entry_same_page _ _ _ _ H1 H2). exact Hent.
    + now apply new_entry_nonzero.
  - cbn [k_mem k_page_pool k_heap_pool k_trace]. auto.
Qed.

End FaultMore.

(** ** What a successful fault changes, and what it keeps *)


Section FaultEffect.
Context {mach : Machine}.

(** The state after a fault that maps a page, by what can be read from
    it: [L] is the second-level array of the address, allocated by the
    call (first case) or found (second case). *)
Lemma vm_fault_as_effect as_ fa k r v vjunk prest :
  find_region fa (region_list as_) = Some r ->
  mappable k (pagetable as_) fa v ->
  k_page_pool k = (v, vjunk) :: prest -> fresh k v ->
  exists k' L t' ws',
    vm_fault_as as_ fa k = Some (OK, k') /\
    l1_table k' (pagetable as_) t' /\ l2_table k' L ws' /\
    t' !! Z.to_nat (pt1_bits fa) = Some L /\
    ws' !! Z.to_nat (pt2_bits fa) = Some (new_entry v (region_dirty r)) /\
    k_mem k' !! v = Some (Blk APage (replicate PAGE_WORDS 0)) /\
    (forall q, q <> pagetable as_ -> q <> L -> q <> v ->
               k_mem k' !! q = k_mem k !! q) /\
    (forall i, i <> Z.to_nat (pt1_bits fa) -> t' !! i = peek k (pagetable as_) i) /\
    ((peek k (pagetable as_) (Z.to_nat (pt1_bits fa)) = Some 0 /\
      k_mem k !! L = None /\
      forall j e, j <> Z.to_nat (pt2_bits fa) -> ws' !! j = Some e -> e = 0) \/
     (peek k (pagetable as_) (Z.to_nat (pt1_bits fa)) = Some L /\
      (exists ws, l2_table k L ws) /\
      peek k L (Z.to_nat (pt2_bits fa)) = Some 0 /\
      forall j, j <> Z.to_nat (pt2_bits fa) -> ws' !! j = peek k L j)) /\
    L <> pagetable as_ /\ L <> v /\ v <> pagetable as_.
Proof.
  intros Hr (t & Ht & Hcase) Hpool Hv.
  pose proof (pt1_index_lt fa) as Hi1. pose proof (pt2_index_lt fa) as Hi2.
  assert (Hvpt : v <> pagetable as_).
  { intros ->. destruct Hv as [_ Hv], Ht as [Ht _]. congruence. }
  assert (Hpk : forall i, peek k (pagetable as_) i = t !! i).
  { intros i. unfold peek. destruct Ht as [-> _]. reflexivity. }
  destruct Hcase as [(Hslot & p & junk & hrest & Hhp & Hp & Hpv)
                    |(l2 & ws & Hslot & Hl2 & He)].
  - assert (Hppt : p <> pagetable as_).
    { intros ->. destruct Hp as [_ Hp], Ht as [Ht _]. congruence. }
    eexists _, p, (<[Z.to_nat (pt1_bits fa) := p]> t), _.
    split; [eapply vm_fault_as_map_l1; eauto|].
    unfold l1_table, l2_table. cbn [k_mem]. destruct Ht as [Ht Hlen], Hp as [Hp0 Hpf].
    split.
    { split; [|now rewrite length_insert].
      rewrite lookup_insert_ne by congruence.
      rewrite lookup_insert_ne by congruence. apply lookup_insert_eq. }
    split.
    { split; [exact Hp0|]. split; [apply lookup_insert_eq|].
      now rewrite length_insert, length_replicate. }
    split; [apply list_lookup_insert_eq; now rewrite Hlen|].
    split; [apply list_lookup_insert_eq; now rewrite length_replicate|].
    split; [rewrite lookup_insert_ne by congruence; apply lookup_insert_eq|].
    split; [intros q ? ? ?; now rewrite !lookup_insert_ne by congruence|].
    split; [intros i Hi; rewrite Hpk; now apply list_lookup_insert_ne|].
    split; [|auto].
    left. rewrite Hpk. split; [exact Hslot|]. split; [exact Hpf|].
    intros j e Hj. rewrite list_lookup_insert_ne by congruence.
    intros H. now apply lookup_replicate in H as [-> _].
  - destruct Hl2 as (Hl20 & Hlive & Hlen).
    assert (Hl2pt : l2 <> pagetable as_).
    { intros ->. destruct Ht as [Ht _]. congruence. }
    assert (Hvl2 : v <> l2) by (destruct Hv; congruence).
    eexists _, l2, t, _.
    split; [eapply vm_fault_as_map_l2; eauto; now repeat split|].
    unfold l1_table, l2_table. cbn [k_mem].
    split.
    { destruct Ht as [Ht Htl]. split; [|exact Htl].
      now rewrite !lookup_insert_ne by congruence. }
    split.
    { split; [exact Hl20|]. split; [apply lookup_insert_eq|].
      now rewrite length_insert. }
    split; [exact Hslot|].
    split; [apply list_lookup_insert_eq; now rewrite Hlen|].
    split; [rewrite lookup_insert_ne by congruence; apply lookup_insert_eq|].
    split; [intros q ? ? ?; now rewrite !lookup_insert_ne by congruence|].
    split; [intros i _; now rewrite Hpk|].
    split; [|auto].
    right. rewrite Hpk. split; [exact Hslot|].
    split; [exists ws; now repeat split|].
    unfold peek. rewrite Hlive. cbn [b_words]. split; [exact He|].
    intros j Hj. now apply list_lookup_insert_ne.
Qed.

(** X15: a fault that maps a page takes no other page away: whatever
    address had an entry in the table before the call has the same
    entry after it.  No assumption is made on the shape of the table
    beyond what the fault itself needs. *)
Theorem vm_fault_keeps_other_mappings
    (as_ : addrspace) (ft : fault) (fa : Z) (k : kernel) (r : region)
    (v : Z) (vjunk : list Z) (prest : list (Z * list Z)) :
  ft = VM_FAULT_READ \/ ft = VM_FAULT_WRITE ->
  find_region fa (region_list as_) = Some r ->
  mappable k (pagetable as_) fa v ->
  k_page_pool k = (v, vjunk) :: prest -> fresh k v ->
  exists k',
    vm_fault (proc_of as_) ft fa k = Some (OK, k') /\
    forall fa' e', pt_entry k (pagetable as_) fa' = Some e' -> e' <> 0 ->
                   pt_entry k' (pagetable as_) fa' = Some e'.
Proof.
  intros Hft Hr Hmap Hpool Hv. rewrite vm_fault_is_vm_fault_as by assumption.
  destruct (vm_fault_as_effect as_ fa k r v vjunk prest Hr Hmap Hpool Hv)
    as (k' & L & t' & ws' & Hrun & [Ht' Htl'] & (HL0 & HL & HLlen) & Hs1 & Hs2 & Hvz
        & Hother & Hslots & Hcase & HLpt & HLv & Hvpt).
  exists k'. split; [exact Hrun|].
  intros fa' e'. unfold pt_entry.
  set (i1 := Z.to_nat (pt1_bits fa)) in *. set (i2 := Z.to_nat (pt2_bits fa)) in *.
  set (i1' := Z.to_nat (pt1_bits fa')). set (i2' := Z.to_nat (pt2_bits fa')).
  destruct (peek k (pagetable as_) i1') as [l2'|] eqn:H1; [|discriminate].
  destruct (decide (l2' = 0)) as [|Hl2']; [discriminate|].
  intros He' Hne.
  assert (Hpk' : forall i, peek k' (pagetable as_) i = t' !! i).
  { intros i. unfold peek. now rewrite Ht'. }
  assert (HpL : forall j, peek k' L j = ws' !! j).
  { intros j. unfold peek. now rewrite HL. }
  assert (Hslot' : peek k' (pagetable as_) i1' = Some l2').
  { rewrite Hpk'. destruct (decide (i1' = i1)) as [Heq|Hneq].
    - rewrite Heq in *. destruct Hcase as [(H0 & _) | (H0 & _)]; congruence.
    - rewrite Hslots by assumption. exact H1. }
  rewrite Hslot'. destruct (decide (l2' = 0)) as [|_]; [contradiction|].
  assert (Hlive : is_Some (k_mem k !! l2')).
  { unfold peek in He'. destruct (k_mem k !! l2'); [eauto | discriminate]. }
  assert (Hl2v : l2' <> v).
  { intros ->. destruct Hv as [_ Hv]. rewrite Hv in Hlive. now destruct Hlive. }
  destruct (decide (l2' = L)) as [->|HneL].
  - rewrite HpL. destruct Hcase as [(_ & Hdead & _) | (_ & _ & He0 & Hsame)].
    + rewrite Hdead in Hlive. now destruct Hlive.
    + destruct (decide (i2' = i2)) as [Heq|Hneq].
      * rewrite Heq in He'. congruence.
      * rewrite Hsame by assumption. exact He'.
  - destruct (decide (l2' = pagetable as_)) as [->|Hnept].
    + rewrite Hpk'. destruct (decide (i2' = i1)) as [Heq|Hneq].
      * rewrite Heq in *. destruct Hcase as [(H0 & _) | (H0 & _)]; congruence.
      * rewrite Hslots by assumption. exact He'.
    + unfold peek. rewrite Hother by assumption. exact He'.
Qed.

(** X16: a fault that maps a page keeps the address space in order.
    If the address space is tidy before the call ([wf_as], with every
    second-level array reached from one slot), and the headers'
    translation takes the new entry back to the page that was
    allocated for it, the address space is tidy after the call: what
    [as_destroy] relies on survives every successful fault. *)
Theorem vm_fault_keeps_tidy
    (as_ : addrspace) (ft : fault) (fa : Z) (k : kernel) (r : region)
    (v : Z) (vjunk : list Z) (prest : list (Z * list Z)) :
  ft = VM_FAULT_READ \/ ft = VM_FAULT_WRITE ->
  tidy k as_ ->
  find_region fa (region_list as_) = Some r ->
  mappable k (pagetable as_) fa v ->
  k_page_pool k = (v, vjunk) :: prest -> fresh k v ->
  frame_of (new_entry v (region_dirty r)) = v ->
  exists k',
    vm_fault (proc_of as_) ft fa k = Some (OK, k') /\ tidy k' as_.
Proof.
  intros Hft [[W1 W2 W3 W4 W5 W6] Hdist] Hr Hmap Hpool Hv Hframe.
  rewrite vm_fault_is_vm_fault_as by assumption.
  destruct (vm_fault_as_effect as_ fa k r v vjunk prest Hr Hmap Hpool Hv)
    as (k' & L & t' & ws' & Hrun & [Ht' Htl'] & (HL0 & HL & HLlen) & Hs1 & Hs2 & Hvz
        & Hother & Hslots & Hcase & HLpt & HLv & Hvpt).
  exists k'. split; [exact Hrun|].
  set (i1 := Z.to_nat (pt1_bits fa)) in *. set (i2 := Z.to_nat (pt2_bits fa)) in *.
  set (pt := pagetable as_) in *.
  destruct W1 as (t & Ht & Htl). destruct Hv as [Hv0 Hvf].
  assert (Hpk' : forall i, peek k' pt i = t' !! i).
  { intros i. unfold peek. now rewrite Ht'. }
  assert (HpL : forall j, peek k' L j = ws' !! j).
  { intros j. unfold peek. now rewrite HL. }
  assert (HLk : k_mem k !! L = None \/ exists ws, k_mem k !! L = Some (Blk AHeap ws)).
  { destruct Hcase as [(_ & Hdead & _) | (_ & (ws & _ & Hws & _) & _)]; eauto. }
  assert (Hpage : forall q fw, k_mem k !! q = Some (Blk APage fw) -> q <> pt ->
                               k_mem k' !! q = Some (Blk APage fw)).
  { intros q fw Hq Hqpt. rewrite Hother; [exact Hq | exact Hqpt | |].
    - intros ->. destruct HLk as [HLk | (ws & HLk)]; congruence.
    - intros ->. congruence. }
  assert (Hheap : forall q w, k_mem k !! q = Some (Blk AHeap w) -> q <> L ->
                              k_mem k' !! q = Some (Blk AHeap w)).
  { intros q w Hq HqL. rewrite Hother; [exact Hq | | exact HqL |].
    - intros ->. congruence.
    - intros ->. congruence. }
  assert (HLout : (L ∉ map r_node (region_list as_)) /\ L <> as_self as_).
  { destruct Hcase as [(_ & Hdead & _) | (Hp & _)].
    - split.
      + intros Hin. destruct W5 as [_ W5]. rewrite Forall_forall in W5.
        destruct (W5 L Hin) as (w & Hw). congruence.
      + intros ->. destruct W6 as [(w & Hw) _]. congruence.
    - destruct (W2 i1 L Hp HL0) as (_ & Hout & Hself). split; assumption. }
  assert (F1 : forall i l2, peek k' pt i = Some l2 -> l2 <> 0 ->
             (i = i1 /\ l2 = L) \/ (i <> i1 /\ peek k pt i = Some l2 /\ l2 <> L)).
  { intros i l2 Hp Hl2. rewrite Hpk' in Hp.
    destruct (decide (i = i1)) as [->|Hne]; [left; split; congruence|].
    right. rewrite Hslots in Hp by assumption. split; [exact Hne|]. split; [exact Hp|].
    intros ->. destruct Hcase as [(_ & Hdead & _) | (HpL1 & _)].
    - destruct (W2 i L Hp HL0) as ((ws & _ & Hws & _) & _). congruence.
    - apply Hne. now apply (Hdist i i1 L). }
  assert (F3 : forall i j e, pte_at k' pt i j e ->
             (i = i1 /\ j = i2 /\ e = new_entry v (region_dirty r)) \/ pte_at k pt i j e).
  { intros i j e (l2 & Hp & Hl2 & He & Hne).
    destruct (F1 i l2 Hp Hl2) as [[-> ->] | (Hi & Hpk & Hl2L)].
    - rewrite HpL in He. destruct (decide (j = i2)) as [->|Hj].
      + left. split; [reflexivity|]. split; [reflexivity|]. congruence.
      + destruct Hcase as [(_ & _ & Hzero) | (Hp1 & _ & _ & Hsame)].
        * exfalso. apply Hne. now apply (Hzero j e).
        * right. exists L. rewrite Hsame in He by assumption. now repeat split.
    - right. exists l2. split; [exact Hpk|]. split; [exact Hl2|]. split; [|exact Hne].
      destruct (W2 i l2 Hpk Hl2) as ((ws & _ & Hws & _) & _).
      unfold peek in *. rewrite (Hheap l2 ws Hws Hl2L) in He. now rewrite Hws. }
  split; [constructor|]; fold pt.
  - exists t'. now split.
  - intros i l2 Hp Hl2.
    destruct (F1 i l2 Hp Hl2) as [[-> ->] | (Hi & Hpk & Hl2L)].
    + split; [exists ws'; now repeat split | exact HLout].
    + destruct (W2 i l2 Hpk Hl2) as ((ws & Hw0 & Hws & Hwl) & Hrest).
      split; [|exact Hrest]. exists ws. split; [exact Hw0|]. split; [|exact Hwl].
      now apply Hheap.
  - intros i j e Hpte. destruct (F3 i j e Hpte) as [(-> & -> & ->) | Hold].
    + rewrite Hframe. split; [exact Hvpt | eauto].
    + destruct (W3 i j e Hold) as (Hfpt & fw & Hfw). split; [exact Hfpt|].
      exists fw. now apply Hpage.
  - intros i j e i' j' e' Hpte Hpte' Heq.
    destruct (F3 i j e Hpte) as [(-> & -> & ->) | Hold];
      destruct (F3 i' j' e' Hpte') as [(-> & -> & ->) | Hold'].
    + now split.
    + exfalso. rewrite Hframe in Heq. destruct (W3 i' j' e' Hold') as (_ & fw & Hfw).
      congruence.
    + exfalso. rewrite Hframe in Heq. destruct (W3 i j e Hold) as (_ & fw & Hfw).
      congruence.
    + now apply (W4 i j e i' j' e').
  - destruct W5 as [Hnd Hlive]. split; [exact Hnd|].
    rewrite Forall_forall in Hlive |- *. intros n Hn.
    destruct (Hlive n Hn) as (w & Hw). exists w. apply Hheap; [exact Hw|].
    intros ->. now destruct HLout.
  - destruct W6 as [(w & Hw) Hout]. split; [|exact Hout].
    exists w. apply Hheap; [exact Hw|]. intros Heq. destruct HLout as [_ HLs]. congruence.
  - intros i i' l2 Hp Hp' Hl2.
    destruct (F1 i l2 Hp Hl2) as [[Ei El] | (Hi & Hpk & Hl2L)];
      destruct (F1 i' l2 Hp' Hl2) as [[Ei' El'] | (Hi' & Hpk2 & Hl2L')];
      try congruence.
    now apply (Hdist i i' l2).
Qed.

End FaultEffect.

(** ** Declaring a region keeps the address space in order *)

Section DefineTidy.
Context {mach : Machine}.

(** Allocating a block of no words at a dead address changes no word
    that can be read. *)
Lemma peek_alloc_empty k node pl hl tr q i :
  k_mem k !! node = None ->
  peek (Kernel (<[node := Blk AHeap []]> (k_mem k)) pl hl tr) q i = peek k q i.
Proof.
  intros Hdead. unfold peek. cbn [k_mem].
  destruct (decide (q = node)) as [->|Hne].
  - now rewrite lookup_insert_eq, Hdead.
  - now rewrite lookup_insert_ne by congruence.
Qed.

Lemma tidy_alloc_node k as_ node pl hl tr rg :
  tidy k as_ -> k_mem k !! node = None -> r_node rg = node ->
  tidy (Kernel (<[node := Blk AHeap []]> (k_mem k)) pl hl tr)
       (Addrspace (as_self as_) (rg :: region_list as_) (pagetable as_)).
Proof.
  intros [[W1 W2 W3 W4 W5 W6] Hdist] Hdead Hrg.
  set (k' := Kernel _ pl hl tr).
  assert (Hpk : forall q i, peek k' q i = peek k q i).
  { intros. now apply peek_alloc_empty. }
  assert (Hkeep : forall q b, k_mem k !! q = Some b -> k_mem k' !! q = Some b).
  { intros q b Hq. unfold k'. cbn [k_mem]. rewrite lookup_insert_ne; [exact Hq|].
    intros <-. congruence. }
  assert (Hpte : forall i j e, pte_at k' (pagetable as_) i j e ->
                               pte_at k (pagetable as_) i j e).
  { intros i j e (l2 & H). exists l2. now rewrite !Hpk in H. }
  assert (Hnew : forall q b, k_mem k !! q = Some b -> q <> node).
  { intros q b Hq ->. congruence. }
  split; [constructor|]; cbn [as_self pagetable region_list map].
  - destruct W1 as (t & Ht & Htl). exists t. split; [now apply Hkeep | exact Htl].
  - intros i l2 Hp Hl2. rewrite Hpk in Hp.
    destruct (W2 i l2 Hp Hl2) as ((ws & Hw0 & Hws & Hwl) & Hout & Hself).
    split; [exists ws; split; [exact Hw0|]; split; [now apply Hkeep | exact Hwl]|].
    split; [|exact Hself].
    rewrite not_elem_of_cons. split; [|exact Hout].
    rewrite Hrg. now apply (Hnew l2 _ Hws).
  - intros i j e H. apply Hpte in H. destruct (W3 i j e H) as (Hf & fw & Hfw).
    split; [exact Hf|]. exists fw. now apply Hkeep.
  - intros i j e i' j' e' H H'. apply (W4 i j e i' j' e'); now apply Hpte.
  - destruct W5 as [Hnd Hlive]. rewrite Forall_forall in Hlive. split.
    + apply NoDup_cons. split; [|exact Hnd].
      intros Hin. destruct (Hlive _ Hin) as (w & Hw). rewrite Hrg in Hw. congruence.
    + apply Forall_cons. split.
      * exists []. rewrite Hrg. unfold k'. cbn [k_mem]. apply lookup_insert_eq.
      * apply Forall_forall. intros n Hn. destruct (Hlive n Hn) as (w & Hw).
        exists w. now apply Hkeep.
  - destruct W6 as [(w & Hw) Hout]. split; [exists w; now apply Hkeep|].
    rewrite not_elem_of_cons. split; [|exact Hout].
    rewrite Hrg. now apply (Hnew _ _ Hw).
  - intros i i' l2 Hp Hp'. rewrite Hpk in Hp, Hp'. now apply Hdist.
Qed.

(** X17: declaring a region keeps the address space in order and
    leaves the page table alone.  When the block [kmalloc] is about to
    deliver is not in use, a call of [as_define_region] that returns 0
    on a tidy address space gives a tidy address space, with the same
    page table and the same entry for every address. *)
Theorem as_define_region_keeps_tidy
    (as_ : addrspace) (va sz rd wr ex : Z) (k : kernel)
    (as' : addrspace) (k' : kernel) :
  tidy k as_ ->
  (forall node junk rest, k_heap_pool k = (node, junk) :: rest ->
                          k_mem k !! node = None) ->
  as_define_region as_ va sz rd wr ex k = Some ((OK, as'), k') ->
  tidy k' as' /\
  pagetable as' = pagetable as_ /\ as_self as' = as_self as_ /\
  forall fa, pt_entry k' (pagetable as') fa = pt_entry k (pagetable as_) fa.
Proof.
  intros Htidy Hpool Hrun.
  apply as_define_region_ok_inv in Hrun
    as (node & junk & rest & Hhp & Hnode & -> & -> & _).
  pose proof (Hpool _ _ _ Hhp) as Hdead.
  split; [now apply tidy_alloc_node|].
  cbn [pagetable as_self]. split; [reflexivity|]. split; [reflexivity|].
  intros fa. unfold pt_entry. rewrite peek_alloc_empty by assumption.
  destruct (peek k (pagetable as_) (Z.to_nat (pt1_bits fa))) as [l2|]; [|reflexivity].
  destruct (decide (l2 = 0)); [reflexivity|]. now apply peek_alloc_empty.
Qed.

(** X18: [as_prepare_load] is not to be called twice.  The second call
    saves the permission that the first one forced, so that after
    [as_complete_load] every region is writable and stays so, whatever
    was declared; bases, sizes and the other permissions are kept, and
    no memory is touched. *)
Theorem prepare_load_twice_loses_permissions
    (curproc : option proc) (as_ : addrspace) (k : kernel) :
  exists as1 as2 as3 k3,
    as_prepare_load as_ k = Some ((OK, as1), k) /\
    as_prepare_load as1 k = Some ((OK, as2), k) /\
    as_complete_load curproc as2 k = Some ((OK, as3), k3) /\
    k_mem k3 = k_mem k /\
    Forall (fun r => writeable r = 1 /\ old_writeable r = 1) (region_list as3) /\
    map (fun r => (r_node r, vaddr r, memsize r, readable r, executable r))
        (region_list as3) =
    map (fun r => (r_node r, vaddr r, memsize r, readable r, executable r))
        (region_list as_).
Proof.
  destruct (as_complete_load_run curproc
    (Addrspace (as_self as_)
       (map prepare_region (map prepare_region (region_list as_))) (pagetable as_)) k)
    as (tr & Hrun).
  eexists _, _, _, _. split; [reflexivity|]. split; [reflexivity|].
  split; [exact Hrun|]. split; [reflexivity|].
  cbn [region_list]. rewrite !map_map. split.
  - apply Forall_map, Forall_true. intros r. now split.
  - reflexivity.
Qed.

End DefineTidy.

(** ** Destroying an address space with a dangling slot *)

Section Dangling.
Context {mach : Machine}.

(** A loop whose body cannot get past the index [i0] has no result. *)
Lemma for_do_stuck (P : kernel -> Prop) body (i0 : nat) n : forall i k,
  (i <= i0 < i + n)%nat -> P k ->
  (forall j k0 k1, P k0 -> body j k0 = Some (tt, k1) -> P k1) ->
  (forall k0, P k0 -> body i0 k0 = None) ->
  for_do n i body k = None.
Proof.
  induction n as [|n IH]; intros i k Hi HP Hstep Hstuck; [lia|].
  cbn [for_do]. unfold kbind.
  destruct (decide (i = i0)) as [->|Hne].
  - now rewrite Hstuck.
  - destruct (body i k) as [[[] k1]|] eqn:Hb; [|reflexivity].
    apply IH; [lia | eapply Hstep; eauto | exact Hstep | exact Hstuck].
Qed.

(** The walk of [as_destroy] only frees: what is live during the walk
    was live, with the same content, when it started. *)
Lemma free_kpages_shrinks x k k' q b :
  free_kpages x k = Some (tt, k') -> k_mem k' !! q = Some b -> k_mem k !! q = Some b.
Proof.
  unfold free_kpages. destruct (k_mem k !! x) as [bx|]; [|discriminate].
  destruct (b_kind bx) eqn:Hk; [|discriminate].
  intros [= <-]. unfold release. rewrite Hk. cbn [k_mem].
  intros H. apply lookup_delete_Some in H. tauto.
Qed.

Lemma destroy_frames_shrinks l1 i k k' :
  destroy_frames l1 i k = Some (tt, k') ->
  forall q b, k_mem k' !! q = Some b -> k_mem k !! q = Some b.
Proof.
  unfold destroy_frames. intros Hrun.
  apply (for_do_preserves
    (fun k0 => forall q b, k_mem k0 !! q = Some b -> k_mem k !! q = Some b)
    _ _ _ _ _ ) with (3 := Hrun); [|auto].
  intros j k0 k1 HP Hbody q b Hq.
  apply kbind_inv in Hbody as (l2 & ka & Hl & Hbody). apply load_inv in Hl as [-> _].
  apply kbind_inv in Hbody as (e & kb & Hl & Hbody). apply load_inv in Hl as [-> _].
  apply HP. destruct (decide (e <> 0)).
  - eapply free_kpages_shrinks; eauto.
  - injection Hbody as <-. exact Hq.
Qed.

Lemma as_destroy_dangling as_ k i l2 :
  (i < PAGETABLE_SIZE)%nat ->
  peek k (pagetable as_) i = Some l2 -> l2 <> 0 -> k_mem k !! l2 = None ->
  as_destroy as_ k = None.
Proof.
  intros Hi Hp Hl2 Hdead. unfold as_destroy.
  unfold kbind at 1.
  rewrite (for_do_stuck
    (fun k0 => forall q b, k_mem k0 !! q = Some b -> k_mem k !! q = Some b)
    _ i PAGETABLE_SIZE 0 k); [reflexivity | lia | auto | |].
  - intros j k0 k1 HP Hbody q b Hq.
    apply kbind_inv in Hbody as (w & ka & Hl & Hbody). apply load_inv in Hl as [-> _].
    apply HP. destruct (decide (w <> 0)).
    + eapply destroy_frames_shrinks; eauto.
    + injection Hbody as <-. exact Hq.
  - intros k0 HP. unfold kbind at 1. rewrite load_peek.
    destruct (peek k0 (pagetable as_) i) as [w|] eqn:Hw; [|reflexivity].
    assert (w = l2) as ->.
    { unfold peek in Hw, Hp. destruct (k_mem k0 !! pagetable as_) as [b|] eqn:Hb; [|discriminate].
      rewrite (HP _ _ Hb) in Hp. congruence. }
    destruct (decide (l2 <> 0)) as [_|]; [|contradiction].
    unfold destroy_frames.
    change PAGETABLE_SIZE with (S (Nat.pred PAGETABLE_SIZE)).
    cbn [for_do]. unfold kbind at 1. unfold kbind at 1.
    rewrite load_peek, Hw. unfold kbind at 1. rewrite load_peek.
    unfold peek. destruct (k_mem k0 !! l2) as [b|] eqn:Hb; [|reflexivity].
    rewrite (HP _ _ Hb) in Hdead. discriminate.
Qed.

(** X19: a fault that fails after it has allocated a second-level
    array poisons the address space for [as_destroy].  The slot keeps
    the address of the array that was freed, the walk of [as_destroy]
    takes the slot for a table and reads through it: the behaviour of
    the later [as_destroy] is undefined. *)
Theorem failed_fault_then_destroy_is_undefined
    (as_ : addrspace) (ft : fault) (fa : Z) (k : kernel) (t : list Z)
    (p : Z) (junk : list Z) (hrest : list (Z * list Z)) :
  ft = VM_FAULT_READ \/ ft = VM_FAULT_WRITE ->
  l1_table k (pagetable as_) t ->
  t !! Z.to_nat (pt1_bits fa) = Some 0 ->
  k_heap_pool k = (p, junk) :: hrest -> fresh k p ->
  find_region fa (region_list as_) = None \/ k_page_pool k = [] ->
  exists err k',
    vm_fault (proc_of as_) ft fa k = Some (err, k') /\ err <> OK /\
    as_destroy as_ k' = None.
Proof.
  intros Hft Ht Hslot Hhp Hp Hfail.
  pose proof (pt1_index_lt fa) as Hi1.
  assert (Hppt : p <> pagetable as_).
  { intros ->. destruct Hp as [_ Hp], Ht as [Ht _]. congruence. }
  rewrite vm_fault_is_vm_fault_as by assumption.
  assert (Hrun : exists err pp,
    vm_fault_as as_ fa k =
      Some (err,
            Kernel (<[pagetable as_ := Blk APage (<[Z.to_nat (pt1_bits fa) := p]> t)]> (k_mem k))
                   pp (hrest ++ [(p, replicate PT_SIZE 0)]) (k_trace k)) /\ err <> OK).
  { destruct (find_region fa (region_list as_)) as [r|] eqn:Hr.
    - destruct Hfail as [|Hpp]; [discriminate|].
      exists ENOMEM, []. split; [eapply vm_fault_as_rollback_nomem; eauto | discriminate].
    - exists EFAULT, (k_page_pool k).
      split; [eapply vm_fault_as_rollback_noregion; eauto | discriminate]. }
  destruct Hrun as (err & pp & Hrun & Herr).
  eexists err, _. split; [exact Hrun|]. split; [exact Herr|].
  destruct Ht as [Ht Htl], Hp as [Hp0 Hpf].
  apply (as_destroy_dangling as_ _ (Z.to_nat (pt1_bits fa)) p).
  - exact Hi1.
  - unfold peek. cbn [k_mem]. rewrite lookup_insert_eq. cbn [b_words].
    apply list_lookup_insert_eq. now rewrite Htl.
  - exact Hp0.
  - cbn [k_mem]. rewrite lookup_insert_ne by congruence. exact Hpf.
Qed.

End Dangling.

(** ** The region loop of [as_copy] *)


Section CopyRegions.
Context {mach : Machine}.

Lemma spec_region_aligned va sz :
  va mod PAGE_SIZE = 0 -> sz mod PAGE_SIZE = 0 ->
  spec_region_base va = va /\ spec_region_length va sz = sz.
Proof.
  unfold spec_region_base, spec_region_length, PAGE_SIZE. intros Hva Hsz.
  rewrite Hva. split; [lia|].
  replace (sz + 0 + 4096 - 1) with (sz + 4095) by lia.
  pose proof (Z.div_mod sz 4096 ltac:(lia)) as Hd. rewrite Hsz in Hd.
  assert (Hq : (sz + 4095) / 4096 = sz / 4096).
  { symmetry. apply (Z.div_unique _ _ _ 4095); lia. }
  rewrite Hq. lia.
Qed.

Lemma normalised_end c :
  0 <= MIPS_KSEG0 <= 2 ^ 32 - PAGE_SIZE -> normalised c ->
  region_end c = vaddr c + memsize c /\
  0 <= vaddr c < 2 ^ 32 /\ 0 <= memsize c < 2 ^ 32.
Proof.
  unfold normalised, region_end, PAGE_SIZE. intros Hk (H1 & H2 & _ & _ & H5).
  split; [apply u32_small|]; lia.
Qed.

(** The loop over the regions of the old address space, with [acc]
    already declared in the new one. *)
Lemma copy_regions_run a pt (l : list region) : forall acc k hp,
  0 <= MIPS_KSEG0 <= 2 ^ 32 - PAGE_SIZE ->
  Forall normalised l -> regions_apart l ->
  Forall (fun c => Forall (fun c' => region_end c' < vaddr c \/
                                     vaddr c + memsize c < vaddr c') acc) l ->
  k_heap_pool k = hp -> (length l <= length hp)%nat ->
  Forall (fun n => n <> 0) (map fst (take (length l) hp)) ->
  copy_regions l (Addrspace a acc pt) k =
    Some ((OK, Addrspace a
                 (rev (zip_with copy_of (map fst (take (length l) hp)) l) ++ acc) pt),
          Kernel (with_nodes (map fst (take (length l) hp)) (k_mem k))
                 (k_page_pool k) (drop (length l) hp) (k_trace k)).
Proof.
  induction l as [|c l IH]; intros acc k hp Hk Hnorm Hap Hacc Hhp Hlen Hnz.
  - cbn [copy_regions length take map zip_with rev app with_nodes foldl drop].
    unfold kret. rewrite <- Hhp. now destruct k.
  - destruct hp as [|[node junk] hp']; [cbn [length] in Hlen; lia|].
    cbn [length take map fst zip_with rev drop with_nodes foldl] in *.
    apply Forall_cons in Hnorm as [Hc Hnorm]. destruct Hap as [Hcl Hap].
    apply Forall_cons in Hacc as [Hcacc Hacc]. apply Forall_cons in Hnz as [Hnode Hnz].
    destruct (normalised_end c Hk Hc) as (Hend & Hva & Hsz).
    destruct Hc as (_ & _ & Hm1 & Hm2 & Huser).
    destruct (spec_region_aligned _ _ Hm1 Hm2) as [Hb Hl].
    cbn [copy_regions].
    pose proof (as_define_region_ok_run (Addrspace a acc pt) (vaddr c) (memsize c)
                  (readable c) (writeable c) (executable c) k node junk hp'
                  Hva Hsz Hk) as Hrun.
    rewrite Hb, Hl in Hrun.
    rewrite (kbind_some _ _ _ _ _ (Hrun Huser Hcacc Hhp Hnode)).
    cbn [as_self region_list pagetable]. fold (copy_of node c).
    rewrite (IH (copy_of node c :: acc) _ hp').
    + cbn [k_mem k_page_pool k_trace]. now rewrite <- app_assoc.
    + exact Hk.
    + exact Hnorm.
    + exact Hap.
    + rewrite Forall_forall in Hacc, Hcl, Hnorm |- *. intros c2 Hc2.
      apply Forall_cons. split; [|now apply Hacc].
      destruct (normalised_end c2 Hk (Hnorm c2 Hc2)) as (Hend2 & _).
      change (region_end (copy_of node c)) with (region_end c).
      change (vaddr (copy_of node c)) with (vaddr c).
      destruct (Hcl c2 Hc2) as [H | H]; lia.
    + reflexivity.
    + lia.
    + exact Hnz.
Qed.

(** X20: the first loop of [as_copy] gives the new address space one
    region for each region of the old one, with the same base, size and
    permissions; the list comes out in reverse order, and the saved
    permission of a copy is its current one, whatever the original had
    saved.  This holds when the regions of the old address space are
    whole pages in the user segment and apart from each other, as
    [as_define_region] leaves them, and [kmalloc] has a block for each
    of them.  The blocks are taken from the pool in order; nothing else
    is allocated and no page is touched. *)
Theorem as_copy_region_loop
    (l : list region) (newas : addrspace) (k : kernel) :
  0 <= MIPS_KSEG0 <= 2 ^ 32 - PAGE_SIZE ->
  Forall normalised l -> regions_apart l ->
  region_list newas = [] ->
  (length l <= length (k_heap_pool k))%nat ->
  Forall (fun n => n <> 0) (map fst (take (length l) (k_heap_pool k))) ->
  exists as' k',
    copy_regions l newas k = Some ((OK, as'), k') /\
    region_list as' =
      rev (zip_with copy_of (map fst (take (length l) (k_heap_pool k))) l) /\
    map (fun r => (vaddr r, memsize r, readable r, writeable r, executable r,
                   old_writeable r)) (region_list as') =
      rev (map (fun c => (vaddr c, memsize c, readable c, writeable c, executable c,
                          writeable c)) l) /\
    as_self as' = as_self newas /\ pagetable as' = pagetable newas /\
    k_mem k' = with_nodes (map fst (take (length l) (k_heap_pool k))) (k_mem k) /\
    k_heap_pool k' = drop (length l) (k_heap_pool k) /\
    k_page_pool k' = k_page_pool k /\ k_trace k' = k_trace k.
Proof.
  intros Hk Hnorm Hap Hnil Hlen Hnz.
  destruct newas as [a acc pt]. cbn [region_list] in Hnil. subst acc.
  eexists _, _. split.
  { apply (copy_regions_run a pt l [] k (k_heap_pool k)); try assumption;
      [|reflexivity].
    apply Forall_forall. intros c _. constructor. }
  cbn [region_list as_self pagetable k_mem k_heap_pool k_page_pool k_trace].
  rewrite app_nil_r. repeat split; try reflexivity.
  rewrite map_rev. f_equal.
  set (nodes := map fst (take (length l) (k_heap_pool k))).
  assert (Hn : (length l <= length nodes)%nat).
  { unfold nodes. rewrite length_map, length_take. lia. }
  clearbody nodes. clear -Hn. revert nodes Hn.
  induction l as [|c l IH]; intros [|n nodes] Hn; cbn [length] in Hn;
    try lia; try reflexivity.
  cbn [zip_with map]. f_equal. apply IH. lia.
Qed.

End CopyRegions.

(** ** [as_copy] when the region records run out *)

Section CopyFails.
Context {mach : Machine}.

Lemma NoDup_rev_list {A} (l : list A) : NoDup l -> NoDup (rev l).
Proof. intros H. now rewrite <- Permutation_rev. Qed.

Lemma elem_of_rev_list {A} (x : A) (l : list A) : x ∈ rev l <-> x ∈ l.
Proof. rewrite !list_elem_of_In. symmetry. apply in_rev. Qed.

Lemma lookup_with_nodes_out nodes : forall m q,
  q ∉ nodes -> with_nodes nodes m !! q = m !! q.
Proof.
  induction nodes as [|n nodes IH]; intros m q Hq; [reflexivity|].
  apply not_elem_of_cons in Hq as [Hqn Hq].
  unfold with_nodes in *. cbn [foldl]. rewrite IH by assumption.
  now apply lookup_insert_ne.
Qed.

Lemma lookup_with_nodes_in nodes : forall m n,
  n ∈ nodes -> with_nodes nodes m !! n = Some (Blk AHeap []).
Proof.
  induction nodes as [|n0 nodes IH]; intros m n Hn; [now apply elem_of_nil in Hn|].
  unfold with_nodes in *. cbn [foldl].
  destruct (decide (n ∈ nodes)) as [Hin|Hout]; [now apply IH|].
  apply elem_of_cons in Hn as [-> | Hn]; [|contradiction].
  change (with_nodes nodes (<[n0 := Blk AHeap []]> m) !! n0 = Some (Blk AHeap [])).
  rewrite lookup_with_nodes_out by assumption. apply lookup_insert_eq.
Qed.

Lemma as_define_region_nomem_run as_ va sz rd wr ex k :
  0 <= va < 2 ^ 32 -> 0 <= sz < 2 ^ 32 ->
  0 <= MIPS_KSEG0 <= 2 ^ 32 - PAGE_SIZE ->
  spec_region_base va + spec_region_length va sz <= MIPS_KSEG0 ->
  Forall (fun c => region_end c < spec_region_base va \/
                   spec_region_base va + spec_region_length va sz < vaddr c)
         (region_list as_) ->
  k_heap_pool k = [] ->
  as_define_region as_ va sz rd wr ex k = Some ((ENOMEM, as_), k).
Proof.
  intros Hva Hsz HK Hend Hfree Hpool.
  destruct (define_region_normalises va sz Hva Hsz HK Hend) as [Hb Hl].
  destruct (spec_region_base_range va ltac:(lia)) as [Hb0 _].
  destruct (spec_region_length_range va sz ltac:(lia) ltac:(lia)) as [Hl0 _].
  pose proof (Z.mod_pos_bound va PAGE_SIZE ltac:(reflexivity)) as Hoff.
  unfold as_define_region. cbv zeta. rewrite Hb, Hl.
  assert (He : u32 (spec_region_base va + spec_region_length va sz)
               = spec_region_base va + spec_region_length va sz).
  { apply u32_small. unfold PAGE_SIZE in *. lia. }
  rewrite He.
  destruct (decide (spec_region_base va + spec_region_length va sz > MIPS_KSEG0)); [lia|].
  assert (Hov : region_overlaps (spec_region_base va) (spec_region_length va sz)
                  (region_list as_) = false).
  { induction (region_list as_) as [|c l IH]; [reflexivity|].
    apply Forall_cons in Hfree as [Hc Hfree]. cbn [region_overlaps].
    rewrite He. unfold region_end in Hc.
    destruct Hc as [Hc | Hc].
    - rewrite (bool_decide_eq_false_2 (spec_region_base va <= _)) by lia.
      cbn [andb]. now apply IH.
    - rewrite (bool_decide_eq_false_2 (_ >= vaddr c)) by lia.
      rewrite andb_false_r. now apply IH. }
  rewrite Hov. unfold kbind, kmalloc. rewrite Hpool.
  destruct (decide (0 = 0)); [reflexivity | contradiction].
Qed.

(** The region loop when [kmalloc] has fewer blocks than there are
    regions: the regions it could copy are in the new address space. *)
Lemma copy_regions_nomem a pt (l : list region) : forall acc k hp,
  0 <= MIPS_KSEG0 <= 2 ^ 32 - PAGE_SIZE ->
  Forall normalised l -> regions_apart l ->
  Forall (fun c => Forall (fun c' => region_end c' < vaddr c \/
                                     vaddr c + memsize c < vaddr c') acc) l ->
  k_heap_pool k = hp -> (length hp < length l)%nat ->
  Forall (fun n => n <> 0) (map fst hp) ->
  copy_regions l (Addrspace a acc pt) k =
    Some ((ENOMEM, Addrspace a (rev (zip_with copy_of (map fst hp) l) ++ acc) pt),
          Kernel (with_nodes (map fst hp) (k_mem k)) (k_page_pool k) [] (k_trace k)).
Proof.
  induction l as [|c l IH]; intros acc k hp Hk Hnorm Hap Hacc Hhp Hlen Hnz;
    [cbn [length] in Hlen; lia|].
  apply Forall_cons in Hnorm as [Hc Hnorm]. destruct Hap as [Hcl Hap].
  apply Forall_cons in Hacc as [Hcacc Hacc].
  destruct (normalised_end c Hk Hc) as (Hend & Hva & Hsz).
  destruct Hc as (_ & _ & Hm1 & Hm2 & Huser).
  destruct (spec_region_aligned _ _ Hm1 Hm2) as [Hb Hl].
  cbn [copy_regions].
  destruct hp as [|[node junk] hp'].
  - pose proof (as_define_region_nomem_run (Addrspace a acc pt) (vaddr c) (memsize c)
                  (readable c) (writeable c) (executable c) k Hva Hsz Hk) as Hrun.
    rewrite Hb, Hl in Hrun.
    rewrite (kbind_some _ _ _ _ _ (Hrun Huser Hcacc Hhp)).
    cbn [map zip_with rev app with_nodes foldl]. unfold kret. rewrite <- Hhp.
    now destruct k.
  - cbn [length map fst zip_with rev with_nodes foldl] in *.
    apply Forall_cons in Hnz as [Hnode Hnz].
    pose proof (as_define_region_ok_run (Addrspace a acc pt) (vaddr c) (memsize c)
                  (readable c) (writeable c) (executable c) k node junk hp'
                  Hva Hsz Hk) as Hrun.
    rewrite Hb, Hl in Hrun.
    rewrite (kbind_some _ _ _ _ _ (Hrun Huser Hcacc Hhp Hnode)).
    cbn [as_self region_list pagetable]. fold (copy_of node c).
    rewrite (IH (copy_of node c :: acc) _ hp').
    + cbn [k_mem k_page_pool k_trace]. now rewrite <- app_assoc.
    + exact Hk.
    + exact Hnorm.
    + exact Hap.
    + rewrite Forall_forall in Hacc, Hcl, Hnorm |- *. intros c2 Hc2.
      apply Forall_cons. split; [|now apply Hacc].
      destruct (normalised_end c2 Hk (Hnorm c2 Hc2)) as (Hend2 & _).
      change (region_end (copy_of node c)) with (region_end c).
      change (vaddr (copy_of node c)) with (vaddr c).
      destruct (Hcl c2 Hc2) as [H | H]; lia.
    + reflexivity.
    + lia.
    + exact Hnz.
Qed.

(** The walk of [as_destroy] over a first-level table with no slot in
    use changes nothing. *)
Lemma destroy_walk_empty pt k :
  (forall i, (i < PAGETABLE_SIZE)%nat -> peek k pt i = Some 0) ->
  for_do PAGETABLE_SIZE 0 (fun i =>
    l2 <- load pt i ;;
    if decide (l2 <> 0) then destroy_frames pt i else kret tt) k = Some (tt, k).
Proof.
  intros Hz.
  destruct (for_do_inv (fun _ k0 => k0 = k)
    (fun i => l2 <- load pt i ;;
              if decide (l2 <> 0) then destroy_frames pt i else kret tt)
    PAGETABLE_SIZE 0 k eq_refl) as (k2 & Hrun & ->); [|exact Hrun].
  intros j k0 Hj ->. exists k. split; [|reflexivity].
  rewrite (kbind_some _ _ _ _ _ (load_ok _ _ _ _ (Hz j ltac:(lia)))).
  destruct (decide (0 <> 0)); [contradiction | reflexivity].
Qed.

(** The region loop of [as_destroy] over records of no words. *)
Lemma destroy_regions_empty_records rl : forall k0,
  NoDup (map r_node rl) ->
  Forall (fun n => k_mem k0 !! n = Some (Blk AHeap [])) (map r_node rl) ->
  exists k1, destroy_regions rl k0 = Some (tt, k1) /\
    (forall q, q ∉ map r_node rl -> k_mem k1 !! q = k_mem k0 !! q) /\
    (forall n, n ∈ map r_node rl -> k_mem k1 !! n = None) /\
    k_page_pool k1 = k_page_pool k0 /\
    k_heap_pool k1 = k_heap_pool k0 ++ map (fun r => (r_node r, [])) rl /\
    k_trace k1 = k_trace k0.
Proof.
  induction rl as [|c rl IH]; intros k0 Hnd Hlive.
  - exists k0. split; [reflexivity|]. split; [reflexivity|].
    split; [intros n Hn; now apply elem_of_nil in Hn|].
    cbn [map]. now rewrite app_nil_r.
  - cbn [map] in *. apply NoDup_cons in Hnd as [Hc Hnd].
    apply Forall_cons in Hlive as [Hb Hlive].
    cbn [destroy_regions].
    assert (Hfree : kfree (r_node c) k0 =
      Some (tt, Kernel (delete (r_node c) (k_mem k0)) (k_page_pool k0)
                       (k_heap_pool k0 ++ [(r_node c, [])]) (k_trace k0))).
    { unfold kfree. rewrite Hb. reflexivity. }
    rewrite (kbind_some _ _ _ _ _ Hfree).
    destruct (IH (Kernel (delete (r_node c) (k_mem k0)) (k_page_pool k0)
                         (k_heap_pool k0 ++ [(r_node c, [])]) (k_trace k0)) Hnd)
      as (k1 & Hrun & Hsame & Hgone & Hpp & Hhp & Htr).
    { cbn [k_mem]. rewrite Forall_forall in Hlive |- *. intros n Hn.
      rewrite lookup_delete_ne by (intros <-; contradiction).
      now apply Hlive. }
    cbn [k_mem k_page_pool k_heap_pool k_trace] in *.
    exists k1. split; [exact Hrun|]. split.
    { intros q Hq. apply not_elem_of_cons in Hq as [Hqc Hq].
      rewrite (Hsame q Hq). now apply lookup_delete_ne. }
    split.
    { intros n Hn. apply elem_of_cons in Hn as [-> | Hn]; [|now apply Hgone].
      rewrite (Hsame (r_node c) Hc). apply lookup_delete_eq. }
    split; [exact Hpp|]. split; [|exact Htr].
    rewrite Hhp, <- app_assoc. reflexivity.
Qed.

Lemma zip_copy_nodes nodes : forall l,
  (length nodes <= length l)%nat ->
  map r_node (zip_with copy_of nodes l) = nodes.
Proof.
  induction nodes as [|n nodes IH]; intros [|c l] Hlen; cbn [length] in Hlen;
    try lia; try reflexivity.
  cbn [zip_with map copy_of r_node]. f_equal. apply IH. lia.
Qed.

(** X21: [as_copy] gives back what it took when it runs out of region
    records.  When [kmalloc] has a block for the new address space but
    not for every region, [as_copy] returns ENOMEM and stores no
    address space, and the address space it had begun is destroyed:
    memory is afterwards what it was before the call, and the page and
    the blocks are back in their pools. *)
Theorem as_copy_out_of_region_records
    (old : addrspace) (k : kernel) (a : Z) (ja : list Z) (hp : list (Z * list Z))
    (pt : Z) (jp : list Z) (prest : list (Z * list Z)) :
  0 <= MIPS_KSEG0 <= 2 ^ 32 - PAGE_SIZE ->
  Forall normalised (region_list old) -> regions_apart (region_list old) ->
  k_heap_pool k = (a, ja) :: hp -> k_page_pool k = (pt, jp) :: prest ->
  (length hp < length (region_list old))%nat ->
  NoDup (a :: pt :: map fst hp) ->
  Forall (fresh k) (a :: pt :: map fst hp) ->
  exists k',
    as_copy old k = Some ((ENOMEM, None), k') /\
    k_mem k' = k_mem k /\
    k_page_pool k' = prest ++ [(pt, replicate PT_SIZE 0)] /\
    k_heap_pool k' = map (fun n => (n, [])) (rev (map fst hp)) ++ [(a, [])] /\
    k_trace k' = k_trace k.
Proof.
  intros Hk Hnorm Hap Hhp Hpp Hlen Hnd Hfresh.
  apply NoDup_cons in Hnd as [Ha_out Hnd]. apply NoDup_cons in Hnd as [Hpt_out Hnd].
  apply not_elem_of_cons in Ha_out as [Hapt Ha_out].
  apply Forall_cons in Hfresh as [Ha Hfresh]. apply Forall_cons in Hfresh as [Hpt Hfresh].
  set (nodes := map fst hp) in *.
  unfold as_copy.
  rewrite (kbind_some _ _ _ _ _
             (as_create_ok_run k a ja hp pt jp prest Hhp Ha Hpp Hpt Hapt)).
  set (m1 := <[pt := Blk APage (replicate PT_SIZE 0)]> (<[a := Blk AHeap []]> (k_mem k))).
  erewrite kbind_some.
  2:{ apply (copy_regions_nomem a pt (region_list old) [] _ hp); try assumption.
      - apply Forall_forall. intros c _. constructor.
      - reflexivity.
      - rewrite Forall_forall in Hfresh |- *. intros n Hn. now destruct (Hfresh n Hn). }
  cbv beta iota. cbn [k_mem k_page_pool k_trace]. rewrite app_nil_r. fold nodes.
  set (rl := rev (zip_with copy_of nodes (region_list old))).
  assert (Hrl : map r_node rl = rev nodes).
  { unfold rl. rewrite map_rev, zip_copy_nodes; [reflexivity|].
    unfold nodes. rewrite length_map. lia. }
  set (k2 := Kernel (with_nodes nodes m1) prest [] (k_trace k)).
  assert (Hm1pt : with_nodes nodes m1 !! pt = Some (Blk APage (replicate PT_SIZE 0))).
  { rewrite lookup_with_nodes_out by assumption. apply lookup_insert_eq. }
  assert (Hm1a : with_nodes nodes m1 !! a = Some (Blk AHeap [])).
  { rewrite lookup_with_nodes_out by assumption. unfold m1.
    rewrite lookup_insert_ne by congruence. apply lookup_insert_eq. }
  assert (Hwalk : for_do PAGETABLE_SIZE 0 (fun i =>
      l2 <- load pt i ;;
      if decide (l2 <> 0) then destroy_frames pt i else kret tt) k2 = Some (tt, k2)).
  { apply destroy_walk_empty. intros i Hi. unfold peek, k2. cbn [k_mem].
    rewrite Hm1pt. cbn [b_words]. now apply lookup_replicate_2. }
  set (k3 := Kernel (delete pt (with_nodes nodes m1))
                    (prest ++ [(pt, replicate PT_SIZE 0)]) [] (k_trace k)).
  assert (Hfreept : kfree pt k2 = Some (tt, k3)).
  { unfold kfree, k2. cbn [k_mem]. rewrite Hm1pt. reflexivity. }
  destruct (destroy_regions_empty_records rl k3) as (k4 & Hdr & Hsame & Hgone & Hpp4 & Hhp4 & Htr4).
  { rewrite Hrl. apply NoDup_rev_list. exact Hnd. }
  { rewrite Hrl. apply Forall_forall. intros n Hn.
    rewrite elem_of_rev_list in Hn.
    unfold k3. cbn [k_mem].
    rewrite lookup_delete_ne by (intros Heq; apply Hpt_out; now rewrite Heq).
    now apply lookup_with_nodes_in. }
  rewrite Hrl in Hsame, Hgone.
  assert (Hk4a : k_mem k4 !! a = Some (Blk AHeap [])).
  { rewrite Hsame by (rewrite elem_of_rev_list; exact Ha_out).
    unfold k3. cbn [k_mem]. rewrite lookup_delete_ne by congruence. exact Hm1a. }
  eexists. split.
  { erewrite kbind_some.
    2:{ unfold as_destroy. cbn [pagetable region_list as_self]. fold rl k2.
        rewrite (kbind_some _ _ _ _ _ Hwalk).
        rewrite (kbind_some _ _ _ _ _ Hfreept).
        rewrite (kbind_some _ _ _ _ _ Hdr).
        unfold kfree. rewrite Hk4a. reflexivity. }
    reflexivity. }
  unfold release. cbn [b_kind b_words k_mem k_page_pool k_heap_pool k_trace].
  rewrite Hpp4, Hhp4, Htr4. unfold k3. cbn [k_page_pool k_heap_pool k_trace app].
  split; [|split; [reflexivity|split; [|reflexivity]]].
  - apply map_eq. intros q.
    destruct (decide (q = a)) as [->|Hqa].
    { rewrite lookup_delete_eq. symmetry. now destruct Ha. }
    rewrite lookup_delete_ne by congruence.
    destruct (decide (q ∈ nodes)) as [Hin|Hout].
    { rewrite Hgone by (rewrite elem_of_rev_list; exact Hin).
      symmetry. rewrite Forall_forall in Hfresh. now destruct (Hfresh q Hin). }
    rewrite Hsame by (rewrite elem_of_rev_list; exact Hout).
    unfold k3. cbn [k_mem].
    destruct (decide (q = pt)) as [->|Hqpt].
    { rewrite lookup_delete_eq. symmetry. now destruct Hpt. }
    rewrite lookup_delete_ne by congruence.
    rewrite lookup_with_nodes_out by assumption. unfold m1.
    now rewrite !lookup_insert_ne by congruence.
  - rewrite <- Hrl, map_map. reflexivity.
Qed.

End CopyFails.

(** ** Cloning a page table *)


Section ClonePt.
Context {mach : Machine}.

Lemma for_ret_inv {R} (P : nat -> kernel -> Prop) (body : nat -> M (option R)) n :
  forall i k,
  P i k ->
  (forall j k0, (i <= j < i + n)%nat -> P j k0 ->
     exists k1, body j k0 = Some (None, k1) /\ P (S j) k1) ->
  exists k', for_ret n i body k = Some (None, k') /\ P (i + n)%nat k'.
Proof.
  induction n as [|n IH]; intros i k HP Hbody; cbn [for_ret].
  - exists k. split; [reflexivity|]. now rewrite Nat.add_0_r.
  - destruct (Hbody i k) as (k1 & Hb & HP1); [lia | assumption |].
    rewrite (kbind_some _ _ _ _ _ Hb). cbv beta iota.
    destruct (IH (S i) k1 HP1) as (k' & Hk' & HP').
    + intros j k0 Hj. apply Hbody. lia.
    + exists k'. split; [assumption|].
      now replace (i + S n)%nat with (S i + n)%nat by lia.
Qed.

Lemma vm_copy_entry_zero k old_pt new_pt i j l2o l2n kdn wsn :
  peek k old_pt i = Some l2o -> peek k l2o j = Some 0 ->
  peek k new_pt i = Some l2n -> k_mem k !! l2n = Some (Blk kdn wsn) ->
  (j < length wsn)%nat ->
  vm_copy_entry old_pt new_pt i j k =
    Some (None, set_mem (<[l2n := Blk kdn (<[j := 0]> wsn)]> (k_mem k)) k).
Proof.
  intros Ho He Hn Hl2n Hj. unfold vm_copy_entry.
  rewrite (kbind_some _ _ _ _ _ (load_ok _ _ _ _ Ho)).
  rewrite (kbind_some _ _ _ _ _ (load_ok _ _ _ _ He)).
  destruct (decide (0 <> 0)) as [|_]; [contradiction|].
  rewrite (kbind_some _ _ _ _ _ (load_ok _ _ _ _ Hn)).
  erewrite kbind_some; [|eapply store_ok; [exact Hl2n | exact Hj]].
  reflexivity.
Qed.

Lemma clone_of_mono k k0 k1 e c :
  clone_of k k0 e c ->
  (forall v w, k_mem k !! v = None -> k_mem k0 !! v = Some (Blk APage w) ->
               k_mem k1 !! v = Some (Blk APage w)) ->
  clone_of k k1 e c.
Proof.
  unfold clone_of. destruct (decide (e = 0)); [trivial|].
  intros (v & kd & w & Hc & Hv0 & Hvk & Hsrc & Hv) Hkeep.
  exists v, kd, w. split; [exact Hc|]. split; [exact Hv0|]. split; [exact Hvk|].
  split; [exact Hsrc|]. now apply Hkeep.
Qed.

Lemma cloned_mono k k0 k1 p l2 n :
  cloned k k0 p l2 n ->
  (forall q b, k_mem k0 !! q = Some b -> k_mem k !! q = None ->
               k_mem k1 !! q = Some b) ->
  k_mem k !! p = None ->
  cloned k k1 p l2 n.
Proof.
  intros (ws' & Hp & Hlen & Hdone) Hkeep Hpk.
  exists ws'. split; [now apply Hkeep|]. split; [exact Hlen|].
  intros j e Hj He. apply (clone_of_mono k k0); [now apply Hdone|].
  intros v w Hvk Hv. now apply Hkeep.
Qed.

Lemma live_entries_drop (ws : list Z) (j : nat) (e : Z) :
  ws !! j = Some e ->
  live_entries (drop j ws) =
    ((if decide (e = 0%Z) then 0 else 1) + live_entries (drop (S j) ws))%nat.
Proof. intros H. now rewrite (drop_S _ _ _ H). Qed.

Lemma pages_needed_drop k (t : list Z) (i : nat) (l2 : Z) :
  t !! i = Some l2 ->
  pages_needed k (drop i t) =
    ((if decide (l2 = 0%Z) then 0 else live_entries (l2_words k l2))
     + pages_needed k (drop (S i) t))%nat.
Proof. intros H. now rewrite (drop_S _ _ _ H). Qed.

Lemma pools_fresh_elem k k0 a :
  pools_fresh k k0 ->
  a ∈ map fst (k_heap_pool k0) ++ map fst (k_page_pool k0) ->
  a <> 0 /\ k_mem k0 !! a = None /\ k_mem k !! a = None.
Proof. intros [_ H] Ha. rewrite Forall_forall in H. now apply H. Qed.

(** Taking the first free page keeps the pools fresh, whatever is
    written to blocks in use and to the page. *)
Lemma pools_fresh_take_page k k0 v junk rest m1 tr :
  pools_fresh k k0 -> k_page_pool k0 = (v, junk) :: rest ->
  (forall q, k_mem k0 !! q = None -> q <> v -> m1 !! q = None) ->
  pools_fresh k (Kernel m1 rest (k_heap_pool k0) tr).
Proof.
  intros [Hnd Hfr] Hpp Hdead. rewrite Hpp in Hnd, Hfr. cbn [map fst] in Hnd, Hfr.
  assert (Hperm : map fst (k_heap_pool k0) ++ v :: map fst rest
                  ≡ₚ v :: (map fst (k_heap_pool k0) ++ map fst rest)).
  { symmetry. apply Permutation_middle. }
  rewrite Hperm in Hnd, Hfr.
  apply NoDup_cons in Hnd as [Hv Hnd]. apply Forall_cons in Hfr as [_ Hfr].
  split; cbn [k_heap_pool k_page_pool k_mem]; [exact Hnd|].
  rewrite Forall_forall in Hfr |- *. intros a Ha.
  destruct (Hfr a Ha) as (Ha0 & Hak0 & Hak).
  split; [exact Ha0|]. split; [|exact Hak].
  apply Hdead; [exact Hak0|]. intros ->. contradiction.
Qed.

Lemma pools_fresh_take_block k k0 p junk rest m1 tr :
  pools_fresh k k0 -> k_heap_pool k0 = (p, junk) :: rest ->
  (forall q, k_mem k0 !! q = None -> q <> p -> m1 !! q = None) ->
  pools_fresh k (Kernel m1 (k_page_pool k0) rest tr).
Proof.
  intros [Hnd Hfr] Hhp Hdead. rewrite Hhp in Hnd, Hfr. cbn [map fst app] in Hnd, Hfr.
  apply NoDup_cons in Hnd as [Hv Hnd]. apply Forall_cons in Hfr as [_ Hfr].
  split; cbn [k_heap_pool k_page_pool k_mem]; [exact Hnd|].
  rewrite Forall_forall in Hfr |- *. intros a Ha.
  destruct (Hfr a Ha) as (Ha0 & Hak0 & Hak).
  split; [exact Ha0|]. split; [|exact Hak].
  apply Hdead; [exact Hak0|]. intros ->. contradiction.
Qed.

Lemma pools_fresh_write k k0 m1 :
  pools_fresh k k0 ->
  (forall q, k_mem k0 !! q = None -> m1 !! q = None) ->
  pools_fresh k (set_mem m1 k0).
Proof.
  intros [Hnd Hfr] Hdead. split; cbn [set_mem k_heap_pool k_page_pool k_mem]; [exact Hnd|].
  rewrite Forall_forall in Hfr |- *. intros a Ha.
  destruct (Hfr a Ha) as (Ha0 & Hak0 & Hak).
  split; [exact Ha0|]. split; [now apply Hdead | exact Hak].
Qed.

Section Slot.
Variables (k ks : kernel) (old new : Z) (to tns ws : list Z) (i : nat) (p l2 : Z)
          (need : nat).
Hypothesis Hold : l1_table k old to.
Hypothesis Hon : old <> new.
Hypothesis Hslot : to !! i = Some l2.
Hypothesis Hl2 : l2_table k l2 ws.
Hypothesis Hsrc : forall j e, ws !! j = Some e -> e <> 0 ->
  copy_src e <> new /\
  exists kd w, k_mem k !! copy_src e = Some (Blk kd w) /\ (PAGE_WORDS <= length w)%nat.
Hypothesis Hext : forall q b, k_mem k !! q = Some b -> q <> new -> k_mem ks !! q = Some b.
Hypothesis Hnew : l1_table ks new tns.
Hypothesis Hnewk : exists tn, k_mem k !! new = Some (Blk APage tn).
Hypothesis Hp : tns !! i = Some p.
Hypothesis Hpk : k_mem k !! p = None.

Lemma vm_copy_entry_step j k0 :
  (j < PT_SIZE)%nat ->
  copy_slot_inv k ks p l2 need j k0 ->
  exists k1, vm_copy_entry old new i j k0 = Some (None, k1) /\
             copy_slot_inv k ks p l2 need (S j) k1.
Proof.
  intros Hj (Hframe & Hhp & (ws' & Hp' & Hlen' & Hdone) & Hfresh & Hcount).
  destruct Hl2 as (Hl20 & Hl2k & Hwslen). destruct Hold as [Holdk Htolen].
  destruct Hnew as [Hnewks Htnslen].
  assert (Hwords : l2_words k l2 = ws) by (unfold l2_words; now rewrite Hl2k).
  rewrite Hwords in Hcount.
  assert (Hpnew : p <> new).
  { intros ->. destruct Hnewk as [tn Hb]. congruence. }
  assert (Hkeep : forall q b, k_mem k !! q = Some b -> q <> new -> k_mem k0 !! q = Some b).
  { intros q b Hq Hqn. apply Hframe; [now apply Hext|]. intros ->. congruence. }
  assert (Hl2new : l2 <> new).
  { intros ->. destruct Hnewk as [tn Hb]. rewrite Hl2k in Hb. discriminate. }
  destruct (lookup_lt_is_Some_2 ws j ltac:(lia)) as [e He].
  assert (Ho0 : peek k0 old i = Some l2).
  { unfold peek. rewrite (Hkeep old _ Holdk Hon). exact Hslot. }
  assert (He0 : peek k0 l2 j = Some e).
  { unfold peek. rewrite (Hkeep l2 _ Hl2k Hl2new). exact He. }
  assert (Hn0 : peek k0 new i = Some p).
  { unfold peek. rewrite (Hframe new _ Hnewks (not_eq_sym Hpnew)). exact Hp. }
  assert (Hek : peek k l2 j = Some e) by (unfold peek; now rewrite Hl2k).
  rewrite (live_entries_drop ws j e He) in Hcount.
  unfold copy_slot_inv. rewrite Hwords.
  destruct (decide (e = 0)) as [->|Hne].
  - eexists. split.
    { eapply vm_copy_entry_zero; eauto. lia. }
    split; [|split; [|split; [|split]]].
    + intros q b Hq Hqp. unfold set_mem. cbn [k_mem].
      rewrite lookup_insert_ne by congruence. now apply Hframe.
    + exact Hhp.
    + exists (<[j := 0]> ws'). unfold set_mem. cbn [k_mem b_kind].
      split; [apply lookup_insert_eq|]. split; [now rewrite length_insert|].
      intros j' e' Hj' He'.
      destruct (decide (j' = j)) as [->|Hjj].
      * rewrite Hek in He'. injection He' as <-.
        unfold clone_of. destruct (decide (0 = 0)); [|contradiction].
        apply list_lookup_insert_eq. lia.
      * rewrite list_lookup_insert_ne by congruence.
        apply (clone_of_mono k k0); [apply Hdone; [lia | exact He']|].
        intros v w _ Hv. cbn [k_mem]. rewrite lookup_insert_ne; [exact Hv|].
        intros ->. congruence.
    + apply pools_fresh_write; [exact Hfresh|].
      intros q Hq. rewrite lookup_insert_ne; [exact Hq|]. intros ->. congruence.
    + cbn [set_mem k_page_pool]. lia.
  - destruct (k_page_pool k0) as [|[v junk] rest] eqn:Hpp; [cbn [length] in Hcount; lia|].
    destruct (pools_fresh_elem k k0 v Hfresh) as (Hv0 & Hvk0 & Hvk).
    { rewrite Hpp. cbn [map fst]. apply elem_of_app. right. apply list_elem_of_here. }
    destruct (Hsrc j e He Hne) as (Hsn & kd & w & Hsk & Hwlen).
    eexists. split.
    { apply (vm_copy_entry_clones k0 old new i j l2 AHeap ws e kd w p AHeap ws' v junk rest);
        [exact Ho0 | exact (Hkeep _ _ Hl2k Hl2new) | exact He | exact Hne
        | exact (Hkeep _ _ Hsk Hsn) | exact Hwlen | exact Hn0 | exact Hp' | lia
        | exact Hpp | split; assumption]. }
    assert (Hvp : v <> p) by (intros ->; congruence).
    split; [|split; [|split; [|split]]].
    + intros q b Hq Hqp. cbn [k_mem].
      rewrite lookup_insert_ne by congruence.
      rewrite lookup_insert_ne; [now apply Hframe|].
      intros ->. rewrite (Hframe _ _ Hq Hqp) in Hvk0. discriminate.
    + exact Hhp.
    + exists (<[j := new_entry v (Z.land e TLBLO_DIRTY)]> ws'). cbn [k_mem].
      split; [apply lookup_insert_eq|]. split; [now rewrite length_insert|].
      intros j' e' Hj' He'.
      destruct (decide (j' = j)) as [->|Hjj].
      * rewrite Hek in He'. injection He' as <-.
        unfold clone_of. destruct (decide (e = 0)); [contradiction|].
        exists v, kd, w. split; [apply list_lookup_insert_eq; lia|].
        split; [exact Hv0|]. split; [exact Hvk|]. split; [exact Hsk|].
        cbn [k_mem]. rewrite lookup_insert_ne by congruence. apply lookup_insert_eq.
      * rewrite list_lookup_insert_ne by congruence.
        apply (clone_of_mono k k0); [apply Hdone; [lia | exact He']|].
        intros v' w' _ Hv'. cbn [k_mem].
        rewrite lookup_insert_ne by (intros ->; congruence).
        rewrite lookup_insert_ne by (intros ->; congruence). exact Hv'.
    + apply (pools_fresh_take_page k k0 v junk rest); [exact Hfresh | exact Hpp |].
      intros q Hq Hqv. rewrite lookup_insert_ne by (intros ->; congruence).
      rewrite lookup_insert_ne by congruence. exact Hq.
    + cbn [k_page_pool length] in *. lia.
Qed.

End Slot.

(** One slot in use of the old table: allocate the new array, store its
    address, clone the entries. *)
Lemma vm_copy_slot_run k old new to i l2 ws need k0 tn0 :
  l1_table k old to -> old <> new ->
  (exists tn, k_mem k !! new = Some (Blk APage tn)) ->
  to !! i = Some l2 -> l2_table k l2 ws ->
  (forall j e, ws !! j = Some e -> e <> 0 ->
     copy_src e <> new /\
     exists kd w, k_mem k !! copy_src e = Some (Blk kd w) /\
                  (PAGE_WORDS <= length w)%nat) ->
  (forall q b, k_mem k !! q = Some b -> q <> new -> k_mem k0 !! q = Some b) ->
  l1_table k0 new tn0 -> (i < PT_SIZE)%nat ->
  pools_fresh k k0 ->
  (1 <= length (k_heap_pool k0))%nat ->
  (live_entries ws + need <= length (k_page_pool k0))%nat ->
  exists k1 p,
    vm_copy_slot old new i k0 = Some (None, k1) /\
    p <> 0 /\ k_mem k !! p = None /\
    (forall q b, k_mem k0 !! q = Some b -> q <> new -> k_mem k1 !! q = Some b) /\
    l1_table k1 new (<[i := p]> tn0) /\
    cloned k k1 p l2 PT_SIZE /\ pools_fresh k k1 /\
    length (k_heap_pool k0) = S (length (k_heap_pool k1)) /\
    (need <= length (k_page_pool k1))%nat.
Proof.
  intros Hold Hon Hnewk Hslot Hl2 Hsrc Hkeep Hnew0 Hi Hfresh Hhp1 Hcount.
  destruct (k_heap_pool k0) as [|[p junk] hrest] eqn:Hhp; [cbn [length] in Hhp1; lia|].
  destruct (pools_fresh_elem k k0 p Hfresh) as (Hp0 & Hpk0 & Hpk).
  { rewrite Hhp. cbn [map fst app]. apply list_elem_of_here. }
  pose proof Hold as [Holdk Htolen]. pose proof Hl2 as (Hl20 & Hl2k & Hwslen).
  pose proof Hnew0 as [Hnewk0 Htn0len].
  assert (Hpnew : p <> new) by (intros ->; congruence).
  assert (Ho0 : peek k0 old i = Some l2).
  { unfold peek. rewrite (Hkeep old _ Holdk Hon). exact Hslot. }
  set (kb := Kernel (<[new := Blk APage (<[i := p]> tn0)]>
                       (<[p := Blk AHeap (resize PT_SIZE 0 junk)]> (k_mem k0)))
                    (k_page_pool k0) hrest (k_trace k0)).
  assert (Hwords : l2_words k l2 = ws) by (unfold l2_words; now rewrite Hl2k).
  assert (Hnewb : l1_table kb new (<[i := p]> tn0)).
  { split; [apply lookup_insert_eq | now rewrite length_insert]. }
  assert (Hextb : forall q b, k_mem k !! q = Some b -> q <> new -> k_mem kb !! q = Some b).
  { intros q b Hq Hqn. unfold kb. cbn [k_mem].
    rewrite lookup_insert_ne by congruence.
    rewrite lookup_insert_ne by (intros ->; congruence). now apply Hkeep. }
  destruct (for_ret_inv (copy_slot_inv k kb p l2 need)
              (vm_copy_entry old new i) PT_SIZE 0 kb) as (k1 & Hrun & Hinv).
  { split; [auto|]. split; [reflexivity|]. split; [|split].
    - exists (resize PT_SIZE 0 junk). unfold kb. cbn [k_mem].
      split; [rewrite lookup_insert_ne by congruence; apply lookup_insert_eq|].
      split; [apply length_resize|]. intros j e Hj. lia.
    - apply (pools_fresh_take_block k k0 p junk hrest); [exact Hfresh | exact Hhp |].
      intros q Hq Hqp. rewrite lookup_insert_ne by (intros ->; congruence).
      rewrite lookup_insert_ne by congruence. exact Hq.
    - rewrite drop_0, Hwords. unfold kb. cbn [k_page_pool]. exact Hcount. }
  { intros j k2 Hj Hinv2.
    apply (vm_copy_entry_step k kb old new to (<[i := p]> tn0) ws i p l2 need);
      try assumption; [|lia].
    apply list_lookup_insert_eq. lia. }
  change (0 + PT_SIZE)%nat with PT_SIZE in Hinv.
  destruct Hinv as (Hframe & Hhpk1 & Hcl & Hfresh1 & Hcount1).
  exists k1, p. split.
  { unfold vm_copy_slot.
    rewrite (kbind_some _ _ _ _ _ (load_ok _ _ _ _ Ho0)).
    destruct (decide (l2 = 0)) as [|_]; [contradiction|].
    erewrite kbind_some; [|unfold kmalloc; rewrite Hhp; reflexivity].
    erewrite kbind_some.
    2:{ eapply store_ok.
        - cbn [k_mem]. rewrite lookup_insert_ne by congruence. exact Hnewk0.
        - cbn [b_words]. lia. }
    unfold set_mem. cbn [k_mem k_page_pool k_heap_pool k_trace b_kind b_words].
    exact Hrun. }
  split; [exact Hp0|]. split; [exact Hpk|]. split.
  { intros q b Hq Hqn. apply Hframe; [|intros ->; congruence].
    unfold kb. cbn [k_mem]. rewrite lookup_insert_ne by congruence.
    rewrite lookup_insert_ne by (intros ->; congruence). exact Hq. }
  split.
  { destruct Hnewb as [Hb Hlen]. split; [|exact Hlen].
    apply Hframe; [exact Hb | congruence]. }
  split; [exact Hcl|]. split; [exact Hfresh1|]. split.
  { rewrite Hhpk1. reflexivity. }
  rewrite Hwords, drop_ge in Hcount1 by lia. cbn [live_entries] in Hcount1. lia.
Qed.

Lemma vm_copy_pt_step k old new to i k0 :
  l1_table k old to -> old <> new ->
  (exists tn, k_mem k !! new = Some (Blk APage tn)) ->
  (forall i l2, to !! i = Some l2 -> l2 <> 0 -> exists ws, l2_table k l2 ws) ->
  (forall i j e, pte_at k old i j e ->
     copy_src e <> new /\
     exists kd w, k_mem k !! copy_src e = Some (Blk kd w) /\
                  (PAGE_WORDS <= length w)%nat) ->
  (i < PT_SIZE)%nat ->
  copy_pt_inv k new to i k0 ->
  exists k1, vm_copy_slot old new i k0 = Some (None, k1) /\
             copy_pt_inv k new to (S i) k1.
Proof.
  intros Hold Hon Hnewk Hl2 Hsrc Hi
    (Hkeep & (tn0 & Hnew0 & Hnull & Hdone) & Hfresh & Hc1 & Hc2).
  pose proof Hold as [Holdk Htolen].
  destruct (lookup_lt_is_Some_2 to i ltac:(lia)) as [s Hs].
  rewrite (live_entries_drop to i s Hs) in Hc1.
  rewrite (pages_needed_drop k to i s Hs) in Hc2.
  assert (Ho0 : peek k0 old i = Some s).
  { unfold peek. rewrite (Hkeep old _ Holdk Hon). exact Hs. }
  destruct (decide (s = 0)) as [->|Hsne].
  - exists k0. split.
    { unfold vm_copy_slot. rewrite (kbind_some _ _ _ _ _ (load_ok _ _ _ _ Ho0)).
      destruct (decide (0 = 0)); [reflexivity | contradiction]. }
    split; [exact Hkeep|]. split; [|split; [exact Hfresh|split; lia]].
    exists tn0. split; [exact Hnew0|]. split; [exact Hnull|].
    intros i' l2 Hi' Hl2' Hne'.
    destruct (decide (i' = i)) as [->|Hii]; [congruence|].
    apply Hdone; [lia | exact Hl2' | exact Hne'].
  - destruct (Hl2 i s Hs Hsne) as (ws & Hws).
    assert (Hwords : l2_words k s = ws).
    { unfold l2_words. destruct Hws as (_ & -> & _). reflexivity. }
    rewrite Hwords in Hc2.
    destruct (vm_copy_slot_run k old new to i s ws (pages_needed k (drop (S i) to)) k0 tn0)
      as (k1 & p & Hrun & Hp0 & Hpk & Hframe & Hnew1 & Hcl & Hfresh1 & Hhp1 & Hpp1);
      try assumption; try lia.
    { intros j e He Hne. apply (Hsrc i j e). exists s.
      unfold peek. rewrite Holdk. destruct Hws as (_ & -> & _). now repeat split. }
    exists k1. split; [exact Hrun|].
    split; [intros q b Hq Hqn; apply Hframe; [now apply Hkeep | exact Hqn]|].
    split; [|split; [exact Hfresh1|split; lia]].
    exists (<[i := p]> tn0). split; [exact Hnew1|]. split.
    { intros i' Hz. rewrite list_lookup_insert_ne by (intros <-; congruence).
      now apply Hnull. }
    intros i' l2 Hi' Hl2' Hne'.
    destruct (decide (i' = i)) as [->|Hii].
    + rewrite Hs in Hl2'. injection Hl2' as <-. exists p.
      split; [apply list_lookup_insert_eq; destruct Hnew0 as [_ ->]; exact Hi|].
      split; [exact Hp0|]. split; [exact Hpk|]. exact Hcl.
    + destruct (Hdone i' l2 ltac:(lia) Hl2' Hne') as (p' & Hp' & Hp'0 & Hp'k & Hcl').
      exists p'. split; [rewrite list_lookup_insert_ne by congruence; exact Hp'|].
      split; [exact Hp'0|]. split; [exact Hp'k|].
      apply (cloned_mono k k0); [exact Hcl' | | exact Hp'k].
      intros q b Hq Hqk. apply Hframe; [exact Hq|].
      intros ->. destruct Hnewk as [tn Htn]. congruence.
Qed.

(** [vm_copy_pt] on a table in order, when there is memory for every
    array and every page. *)
Lemma vm_copy_pt_run k old new to tn :
  l1_table k old to -> l1_table k new tn -> old <> new ->
  (forall i, to !! i = Some 0 -> tn !! i = Some 0) ->
  (forall i l2, to !! i = Some l2 -> l2 <> 0 -> exists ws, l2_table k l2 ws) ->
  (forall i j e, pte_at k old i j e ->
     copy_src e <> new /\
     exists kd w, k_mem k !! copy_src e = Some (Blk kd w) /\
                  (PAGE_WORDS <= length w)%nat) ->
  pools_fresh k k ->
  (live_entries to <= length (k_heap_pool k))%nat ->
  (pages_needed k to <= length (k_page_pool k))%nat ->
  exists k',
    vm_copy_pt old new k = Some (OK, k') /\
    (forall q b, k_mem k !! q = Some b -> q <> new -> k_mem k' !! q = Some b) /\
    (forall fa, match pt_entry k old fa with
                | None => pt_entry k' new fa = None
                | Some e => clone_of k k' e (pt_entry k' new fa)
                end) /\
    pools_fresh k k'.
Proof.
  intros Hold Hnew Hon Hnull Hl2 Hsrc Hfresh Hc1 Hc2.
  assert (Hnewk : exists tn, k_mem k !! new = Some (Blk APage tn)).
  { exists tn. now destruct Hnew. }
  destruct (for_ret_inv (copy_pt_inv k new to) (vm_copy_slot old new) PT_SIZE 0 k)
    as (k' & Hrun & Hinv).
  { split; [auto|]. split; [|split; [exact Hfresh|split; rewrite drop_0; assumption]].
    exists tn. split; [exact Hnew|]. split; [exact Hnull|]. intros i' l2 Hi'. lia. }
  { intros i k0 Hi Hinv0. apply vm_copy_pt_step; try assumption. lia. }
  change (0 + PT_SIZE)%nat with PT_SIZE in Hinv.
  destruct Hinv as (Hkeep & (tn' & [Hnew' Hlen'] & Hnull' & Hdone) & Hfresh' & _).
  exists k'. split.
  { unfold vm_copy_pt. rewrite (kbind_some _ _ _ _ _ Hrun). reflexivity. }
  split; [exact Hkeep|]. split; [|exact Hfresh'].
  intros fa. pose proof (pt1_index_lt fa) as Hi1. pose proof (pt2_index_lt fa) as Hi2.
  destruct Hold as [Holdk Htolen].
  unfold pt_entry at 1. unfold peek at 1. rewrite Holdk. cbn [b_words].
  destruct (lookup_lt_is_Some_2 to (Z.to_nat (pt1_bits fa)) ltac:(lia)) as [s Hs].
  rewrite Hs.
  assert (Hpk' : forall i, peek k' new i = tn' !! i).
  { intros i. unfold peek. now rewrite Hnew'. }
  destruct (decide (s = 0)) as [->|Hsne].
  - unfold pt_entry. rewrite Hpk', (Hnull' _ Hs).
    destruct (decide (0 = 0)); [reflexivity | contradiction].
  - destruct (Hl2 _ s Hs Hsne) as (ws & Hw0 & Hwk & Hwlen).
    destruct (lookup_lt_is_Some_2 ws (Z.to_nat (pt2_bits fa)) ltac:(lia)) as [e He].
    assert (Hek : peek k s (Z.to_nat (pt2_bits fa)) = Some e).
    { unfold peek. now rewrite Hwk. }
    rewrite Hek.
    destruct (Hdone _ s Hi1 Hs Hsne) as (p & Hp & Hp0 & Hpk & (ws' & Hws' & Hlen'' & Hcl)).
    unfold pt_entry. rewrite Hpk', Hp.
    destruct (decide (p = 0)) as [|_]; [contradiction|].
    unfold peek. rewrite Hws'. cbn [b_words]. now apply Hcl.
Qed.

(** X22: [vm_copy_pt] clones a page table that is in order, when there
    is memory for it.  Let the old first-level table lead to live
    second-level arrays whose entries name live pages, let the new
    table be NULL wherever the old one is, and let the pools hold a
    block for every array and a page for every entry in use, none of
    them in use already.  Then the call returns 0, and for every
    address: if the old table has no array for it, neither has the new
    one; if its entry is the sentinel, so is the new entry; otherwise
    the new entry is valid, has the dirty bit of the old entry, and
    names a page that was free and now holds the words of the old
    page.  No block that was in use is changed, the new first-level
    table apart. *)
Theorem vm_copy_pt_clones_table
    (k : kernel) (old new : Z) (to tn : list Z) :
  l1_table k old to -> l1_table k new tn -> old <> new ->
  (forall i, to !! i = Some 0 -> tn !! i = Some 0) ->
  (forall i l2, to !! i = Some l2 -> l2 <> 0 -> exists ws, l2_table k l2 ws) ->
  (forall i j e, pte_at k old i j e ->
     copy_src e <> new /\
     exists kd w, k_mem k !! copy_src e = Some (Blk kd w) /\
                  (PAGE_WORDS <= length w)%nat) ->
  pools_fresh k k ->
  (live_entries to <= length (k_heap_pool k))%nat ->
  (pages_needed k to <= length (k_page_pool k))%nat ->
  exists k',
    vm_copy_pt old new k = Some (OK, k') /\
    (forall q b, k_mem k !! q = Some b -> q <> new -> k_mem k' !! q = Some b) /\
    (forall fa, match pt_entry k old fa with
                | None => pt_entry k' new fa = None
                | Some e => clone_of k k' e (pt_entry k' new fa)
                end).
Proof.
  intros Hold Hnew Hon Hnull Hl2 Hsrc Hfresh Hc1 Hc2.
  destruct (vm_copy_pt_run k old new to tn Hold Hnew Hon Hnull Hl2 Hsrc Hfresh Hc1 Hc2)
    as (k' & Hrun & Hkeep & Hcl & _).
  exists k'. auto.
Qed.

End ClonePt.

(** ** [as_copy] when there is memory *)

Section CopyAll.
Context {mach : Machine}.

Lemma zip_copy_shape nodes : forall l,
  (length l <= length nodes)%nat ->
  map (fun r => (vaddr r, memsize r, readable r, writeable r, executable r,
                 old_writeable r)) (zip_with copy_of nodes l) =
  map (fun c => (vaddr c, memsize c, readable c, writeable c, executable c,
                 writeable c)) l.
Proof.
  induction nodes as [|n nodes IH]; intros [|c l] Hlen; cbn [length] in Hlen;
    try lia; try reflexivity.
  cbn [zip_with map]. f_equal. apply IH. lia.
Qed.

Lemma pages_needed_ext k k2 t :
  (forall l2, l2 ∈ t -> l2 <> 0 -> l2_words k2 l2 = l2_words k l2) ->
  pages_needed k2 t = pages_needed k t.
Proof.
  induction t as [|s t IH]; intros H; [reflexivity|].
  cbn [pages_needed]. rewrite IH by (intros l2 Hin; apply H; now right).
  destruct (decide (s = 0)); [reflexivity|].
  rewrite H; [reflexivity | now left | assumption].
Qed.

(** X23: [as_copy] gives the child what the parent has, when the parent
    is in order and there is memory.  Let the regions of the parent be
    whole pages in the user segment and apart from each other, let its
    page table lead to live arrays and live pages, and let the pools
    hold, none of it in use: a block for the address space, one for
    each region and one for each second-level array, a page for the
    first-level table and one for each page of the parent.  Then
    [as_copy] returns 0 and stores an address space that has the
    regions of the parent (in reverse order, with the saved permission
    reset), no array where the parent has none, the sentinel where the
    parent has the sentinel, and for every page of the parent a page of
    its own with the same words and the same dirty bit.  No block of
    the parent is changed. *)
Theorem as_copy_clones_address_space
    (old : addrspace) (k : kernel) (to : list Z)
    (a : Z) (ja : list Z) (hp : list (Z * list Z))
    (pt : Z) (jp : list Z) (pp : list (Z * list Z)) :
  0 <= MIPS_KSEG0 <= 2 ^ 32 - PAGE_SIZE ->
  Forall normalised (region_list old) -> regions_apart (region_list old) ->
  l1_table k (pagetable old) to ->
  (forall i l2, to !! i = Some l2 -> l2 <> 0 -> exists ws, l2_table k l2 ws) ->
  (forall i j e, pte_at k (pagetable old) i j e ->
     exists kd w, k_mem k !! copy_src e = Some (Blk kd w) /\
                  (PAGE_WORDS <= length w)%nat) ->
  k_heap_pool k = (a, ja) :: hp -> k_page_pool k = (pt, jp) :: pp ->
  pools_fresh k k ->
  (length (region_list old) + live_entries to <= length hp)%nat ->
  (pages_needed k to <= length pp)%nat ->
  exists newas k',
    as_copy old k = Some ((OK, Some newas), k') /\
    as_self newas = a /\ pagetable newas = pt /\
    map (fun r => (vaddr r, memsize r, readable r, writeable r, executable r,
                   old_writeable r)) (region_list newas) =
      rev (map (fun c => (vaddr c, memsize c, readable c, writeable c, executable c,
                          writeable c)) (region_list old)) /\
    (forall q b, k_mem k !! q = Some b -> k_mem k' !! q = Some b) /\
    (forall fa, match pt_entry k (pagetable old) fa with
                | None => pt_entry k' (pagetable newas) fa = None
                | Some e => clone_of k k' e (pt_entry k' (pagetable newas) fa)
                end).
Proof.
  intros Hk Hnorm Hap Hold Hl2 Hsrc Hhp Hpp Hfresh Hc1 Hc2.
  set (l := region_list old) in *. set (n := length l) in *.
  set (nodes := map fst (take n hp)).
  (* the free addresses, sorted out *)
  destruct Hfresh as [Hnd Hfr]. rewrite Hhp, Hpp in Hnd, Hfr.
  cbn [map fst app] in Hnd, Hfr.
  rewrite <- (take_drop n hp) in Hnd, Hfr. rewrite map_app in Hnd, Hfr.
  fold nodes in Hnd, Hfr.
  set (hrest := map fst (drop n hp)) in *.
  apply NoDup_cons in Hnd as [Ha_out Hnd]. apply Forall_cons in Hfr as [Ha Hfr].
  rewrite <- app_assoc in Hnd, Hfr, Ha_out.
  apply NoDup_app in Hnd as (Hnd_nodes & Hnodes_out & Hnd).
  apply Forall_app in Hfr as [Hfr_nodes Hfr].
  assert (Hperm : hrest ++ pt :: map fst pp ≡ₚ pt :: (hrest ++ map fst pp)).
  { symmetry. apply Permutation_middle. }
  rewrite Hperm in Hnd, Hfr.
  apply NoDup_cons in Hnd as [Hpt_out Hnd]. apply Forall_cons in Hfr as [Hpt Hfr].
  assert (Ha_nodes : a ∉ nodes).
  { intros Hin. apply Ha_out. apply elem_of_app. now left. }
  assert (Hapt : a <> pt).
  { intros ->. apply Ha_out. apply elem_of_app. right.
    apply elem_of_app. right. apply list_elem_of_here. }
  assert (Hpt_nodes : pt ∉ nodes).
  { intros Hin. apply (Hnodes_out pt Hin). apply elem_of_app. right.
    apply list_elem_of_here. }
  destruct Ha as (Ha0 & Hak & _). destruct Hpt as (Hpt0 & Hptk & _).
  rewrite Forall_forall in Hfr_nodes, Hfr.
  (* as_create *)
  pose proof (as_create_ok_run k a ja hp pt jp pp Hhp (conj Ha0 Hak) Hpp
                (conj Hpt0 Hptk) Hapt) as Hcreate.
  set (m1 := <[pt := Blk APage (replicate PT_SIZE 0)]> (<[a := Blk AHeap []]> (k_mem k))).
  set (k1 := Kernel m1 pp hp (k_trace k)) in Hcreate.
  (* the regions *)
  assert (Hnlen : (n <= length hp)%nat) by lia.
  pose proof (copy_regions_run a pt l [] k1 hp Hk Hnorm Hap) as Hregs.
  fold n nodes in Hregs. rewrite app_nil_r in Hregs.
  assert (Hregs' := Hregs
    ltac:(apply Forall_forall; intros c _; constructor) eq_refl Hnlen
    ltac:(apply Forall_forall; intros x Hx; now destruct (Hfr_nodes x Hx))).
  clear Hregs. cbn [k_mem k_page_pool k_trace k1] in Hregs'.
  set (k2 := Kernel (with_nodes nodes m1) pp (drop n hp) (k_trace k)) in *.
  set (rl := rev (zip_with copy_of nodes l)) in *.
  (* what the two steps keep *)
  assert (Hm2 : forall q, q <> a -> q <> pt -> q ∉ nodes ->
                          k_mem k2 !! q = k_mem k !! q).
  { intros q Hqa Hqpt Hqn. unfold k2. cbn [k_mem].
    rewrite lookup_with_nodes_out by assumption. unfold m1.
    now rewrite !lookup_insert_ne by congruence. }
  assert (Hext : forall q b, k_mem k !! q = Some b -> k_mem k2 !! q = Some b).
  { intros q b Hq. rewrite Hm2; [exact Hq | | |].
    - intros ->. congruence.
    - intros ->. congruence.
    - intros Hin. destruct (Hfr_nodes q Hin) as (_ & Hdead & _). congruence. }
  assert (Hback : forall q b b', k_mem k !! q = Some b -> k_mem k2 !! q = Some b' ->
                                 b' = b).
  { intros q b b' Hq Hq'. rewrite (Hext q b Hq) in Hq'. congruence. }
  pose proof Hold as [Holdk Htolen].
  assert (Hopt : pagetable old <> pt) by (intros Heq; rewrite Heq in Holdk; congruence).
  assert (Hpeek_old : forall i, peek k2 (pagetable old) i = peek k (pagetable old) i).
  { intros i. unfold peek. now rewrite (Hext _ _ Holdk), Holdk. }
  assert (Hpeek_l2 : forall i l2 j, to !! i = Some l2 -> l2 <> 0 ->
                                    peek k2 l2 j = peek k l2 j).
  { intros i l2 j Hs Hne. destruct (Hl2 i l2 Hs Hne) as (ws & _ & Hws & _).
    unfold peek. now rewrite (Hext _ _ Hws), Hws. }
  assert (Hentry : forall fa, pt_entry k2 (pagetable old) fa = pt_entry k (pagetable old) fa).
  { intros fa. unfold pt_entry. rewrite Hpeek_old.
    destruct (peek k (pagetable old) (Z.to_nat (pt1_bits fa))) as [s|] eqn:Hs;
      [|reflexivity].
    destruct (decide (s = 0)); [reflexivity|].
    apply (Hpeek_l2 (Z.to_nat (pt1_bits fa))); [|assumption].
    unfold peek in Hs. now rewrite Holdk in Hs. }
  assert (Hpte : forall i j e, pte_at k2 (pagetable old) i j e ->
                               pte_at k (pagetable old) i j e).
  { intros i j e (l2 & H1 & Hne & H2 & He). exists l2.
    rewrite Hpeek_old in H1. split; [exact H1|]. split; [exact Hne|].
    split; [|exact He]. rewrite <- (Hpeek_l2 i l2 j); [exact H2 | | exact Hne].
    unfold peek in H1. now rewrite Holdk in H1. }
  (* the page table *)
  destruct (vm_copy_pt_run k2 (pagetable old) pt to (replicate PT_SIZE 0))
    as (k' & Hclone & Hkeep & Hcl & _).
  { split; [now apply Hext | exact Htolen]. }
  { split; [|apply length_replicate]. unfold k2. cbn [k_mem].
    rewrite lookup_with_nodes_out by assumption. apply lookup_insert_eq. }
  { exact Hopt. }
  { intros i Hz. apply lookup_replicate_2. apply lookup_lt_Some in Hz. lia. }
  { intros i l2 Hs Hne. destruct (Hl2 i l2 Hs Hne) as (ws & Hw0 & Hws & Hwl).
    exists ws. split; [exact Hw0|]. split; [now apply Hext | exact Hwl]. }
  { intros i j e Hp. destruct (Hsrc i j e (Hpte i j e Hp)) as (kd & w & Hs & Hwl).
    split; [intros Heq; rewrite Heq in Hs; congruence|].
    exists kd, w. split; [now apply Hext | exact Hwl]. }
  { split; cbn [k_heap_pool k_page_pool k2]; fold hrest; [exact Hnd|].
    apply Forall_forall. intros x Hx. destruct (Hfr x Hx) as (Hx0 & Hxk & _).
    split; [exact Hx0|].
    assert (k_mem k2 !! x = None) as Hx2; [|now split].
    rewrite Hm2; [exact Hxk | | |].
    - intros ->. apply Ha_out. apply elem_of_app. right.
      rewrite Hperm. now right.
    - intros ->. contradiction.
    - intros Hin. apply (Hnodes_out x Hin). rewrite Hperm. now right. }
  { cbn [k_heap_pool k2]. rewrite length_drop. lia. }
  { cbn [k_page_pool k2]. rewrite (pages_needed_ext k k2); [exact Hc2|].
    intros l2 Hin Hne. apply list_elem_of_lookup in Hin as [i Hs].
    destruct (Hl2 i l2 Hs Hne) as (ws & _ & Hws & _).
    unfold l2_words. now rewrite (Hext _ _ Hws), Hws. }
  exists (Addrspace a rl pt), k'. split.
  { unfold as_copy. rewrite (kbind_some _ _ _ _ _ Hcreate). cbv beta iota.
    rewrite (kbind_some _ _ _ _ _ Hregs'). cbv beta iota.
    cbn [pagetable]. rewrite (kbind_some _ _ _ _ _ Hclone). reflexivity. }
  cbn [as_self pagetable region_list].
  split; [reflexivity|]. split; [reflexivity|]. split.
  { unfold rl. rewrite map_rev. f_equal. apply zip_copy_shape.
    unfold nodes. rewrite length_map, length_take. lia. }
  split.
  { intros q b Hq. apply Hkeep; [now apply Hext|]. intros ->. congruence. }
  intros fa. specialize (Hcl fa). rewrite Hentry in Hcl.
  destruct (pt_entry k (pagetable old) fa) as [e|] eqn:He; [|exact Hcl].
  unfold clone_of in *. destruct (decide (e = 0)) as [|Hne]; [exact Hcl|].
  destruct Hcl as (v & kd & w & Hc & Hv0 & Hv2 & Hs2 & Hv').
  assert (Hp : pte_at k (pagetable old) (Z.to_nat (pt1_bits fa))
                 (Z.to_nat (pt2_bits fa)) e).
  { unfold pt_entry in He.
    destruct (peek k (pagetable old) (Z.to_nat (pt1_bits fa))) as [s|] eqn:Hs;
      [|discriminate].
    destruct (decide (s = 0)); [discriminate|]. exists s. now repeat split. }
  destruct (Hsrc _ _ _ Hp) as (kd0 & w0 & Hs0 & _).
  pose proof (Hback _ _ _ Hs0 Hs2) as Hb. injection Hb as -> ->.
  exists v, kd0, w0. split; [exact Hc|]. split; [exact Hv0|]. split.
  { destruct (k_mem k !! v) as [b|] eqn:Hvk; [|reflexivity].
    rewrite (Hext _ _ Hvk) in Hv2. discriminate. }
  split; [exact Hs0 | exact Hv'].
Qed.

End CopyAll.

(** ** Where the handler puts the entry of a user address *)

Section FaultIndex.
Context {mach : Machine}.

(** C6: the handler does not index the page table with the high 10
    bits of the fault address.  With the kernel's macro
    ([KVADDR_TO_PADDR(v) = v - MIPS_KSEG0] in 32 bits,
    [MIPS_KSEG0 = 0x80000000]) a READ or WRITE fault at a user address
    [fa] that maps a page puts the second-level array in first-level
    slot [fa / 2^22 + 512] and the entry at second-level index
    [(fa / 2^12) mod 1024]; the slot of the high 10 bits of [fa],
    [fa / 2^22], is left as it was. *)
Theorem vm_fault_indexes_translated_address
    (as_ : addrspace) (ft : fault) (fa : Z) (k : kernel) (r : region)
    (v : Z) (vjunk : list Z) (prest : list (Z * list Z)) :
  MIPS_KSEG0 = 0x80000000 ->
  KVADDR_TO_PADDR fa = fa - MIPS_KSEG0 ->
  0 <= fa < MIPS_KSEG0 ->
  ft = VM_FAULT_READ \/ ft = VM_FAULT_WRITE ->
  find_region fa (region_list as_) = Some r ->
  mappable k (pagetable as_) fa v ->
  k_page_pool k = (v, vjunk) :: prest -> fresh k v ->
  exists k' l2,
    vm_fault (proc_of as_) ft fa k = Some (OK, k') /\
    peek k' (pagetable as_) (Z.to_nat (fa / 2 ^ 22 + 512)) = Some l2 /\ l2 <> 0 /\
    peek k' l2 (Z.to_nat ((fa / 2 ^ 12) mod 1024))
      = Some (new_entry v (region_dirty r)) /\
    peek k' (pagetable as_) (Z.to_nat (fa / 2 ^ 22))
      = peek k (pagetable as_) (Z.to_nat (fa / 2 ^ 22)).
Proof.
  intros HK HM Hfa Hft Hr Hmap Hpool Hv.
  rewrite vm_fault_is_vm_fault_as by assumption.
  destruct (fault_address_split fa HK HM ltac:(lia)) as [H1 H2].
  assert (Hhigh : 0 <= fa / 2 ^ 22 < 512).
  { rewrite HK in Hfa. change (2 ^ 22) with 4194304.
    Z.div_mod_to_equations. lia. }
  rewrite Z.mod_small in H1 by lia.
  destruct (vm_fault_as_effect as_ fa k r v vjunk prest Hr Hmap Hpool Hv)
    as (k' & L & t' & ws' & Hrun & [Ht' _] & (HL0 & HL & _) & Hs1 & Hs2 & _
        & _ & Hslots & _).
  rewrite H1 in Hs1, Hslots. rewrite H2 in Hs2.
  exists k', L. split; [exact Hrun|].
  split; [unfold peek; rewrite Ht'; exact Hs1|]. split; [exact HL0|].
  split; [unfold peek; rewrite HL; exact Hs2|].
  unfold peek at 1. rewrite Ht'. cbn [b_words]. apply Hslots.
  intros Heq. apply Z2Nat.inj in Heq; lia.
Qed.

End FaultIndex.

(** ** The MIPS machine: instances and counterexamples

    From here on the machine is [sys161].  The states [k_code] and
    [k_code_mapped] are reached from [boot] by the functions of the
    file. *)

#[local] Existing Instance sys161.

(** [as_create] and the declaration of the code segment lead from
    [boot] to [code_as] in [k_code]. *)
Lemma k_code_reached :
  (n <- as_create ;;
   match n with
   | Some a => as_define_region a 0x1000 0x2000 1 0 1
   | None => undef
   end) boot = Some ((OK, code_as), k_code).
Proof. vm_compute. reflexivity. Qed.

(** A READ fault at [0x1000] then maps the first page of the segment,
    read-only. *)
Lemma k_code_mapped_reached :
  vm_fault (proc_of code_as) VM_FAULT_READ 0x1000 k_code = Some (OK, k_code_mapped 0).
Proof. vm_compute. reflexivity. Qed.

(** [as_create] and [as_define_stack] lead from [boot] to [stack_as],
    in the same kernel state. *)
Lemma k_stack_reached :
  (n <- as_create ;;
   match n with
   | Some a => as_define_stack a
   | None => undef
   end) boot = Some ((OK, stack_as, 0x80000000), k_code).
Proof. vm_compute. reflexivity. Qed.


(** In [k_code] the first-level slot of [0x1000] is absent, and both
    allocators have memory. *)
Lemma k_code_mappable_1000 : mappable k_code 0x80010000 0x1000 0x80011000.
Proof.
  exists (replicate 1024 0). split; [split; reflexivity|]. left.
  split; [reflexivity|].
  exists 0x80022000, [], [(0x80023000, []); (0x80024000, []); (0x80025000, []);
                          (0x80026000, []); (0x80027000, [])].
  repeat split; (reflexivity || lia).
Defined.

(** *** C1 *)



(** *** C10 *)

(** A WRITE fault at [0x1234], on the resident page [0x1000], for an
    address space whose region list is empty. *)
Lemma vm_fault_resident_ignores_regions_witness :
  vm_fault (proc_of (Addrspace 0x80020000 [] 0x80010000)) VM_FAULT_WRITE 0x1234
           (k_code_mapped 0) =
    Some (OK, Kernel (k_mem (k_code_mapped 0)) (k_page_pool (k_code_mapped 0))
                     (k_heap_pool (k_code_mapped 0))
                     (k_trace (k_code_mapped 0)
                        ++ [EvSplHigh; EvTlbRandom (Z.land 0x1234 PAGE_FRAME) 0x11200; EvSplx])).
Proof.
  apply (vm_fault_resident_ignores_regions 0x80020000 0x80010000 [] VM_FAULT_WRITE
           0x1234 (k_code_mapped 0) 0x11200).
  - right. reflexivity.
  - vm_compute. reflexivity.
  - lia.
Defined.

(** *** C3 *)

(** A READ fault at [0x40000000], which no region of [code_as]
    contains: first-level slot 768 is left pointing at the freed block
    [0x80022000]. *)
Lemma vm_fault_failed_rollback_leaves_slot_witness :
  exists err k',
    vm_fault (proc_of code_as) VM_FAULT_READ 0x40000000 k_code = Some (err, k') /\
    err = match find_region 0x40000000 (region_list code_as) with
          | Some _ => ENOMEM
          | None => EFAULT
          end /\
    peek k_code (pagetable code_as) (Z.to_nat (pt1_bits 0x40000000)) = Some 0 /\
    peek k' (pagetable code_as) (Z.to_nat (pt1_bits 0x40000000)) = Some 0x80022000 /\
    0x80022000 <> 0 /\ k_mem k' !! 0x80022000 = None /\
    vm_fault (proc_of code_as) VM_FAULT_READ 0x40000000 k' = None.
Proof.
  apply (vm_fault_failed_rollback_leaves_slot code_as VM_FAULT_READ 0x40000000 k_code
           (replicate 1024 0) 0x80022000 []
           [(0x80023000, []); (0x80024000, []); (0x80025000, []);
            (0x80026000, []); (0x80027000, [])]).
  - left. reflexivity.
  - split; reflexivity.
  - reflexivity.
  - reflexivity.
  - split; [lia | reflexivity].
  - left. reflexivity.
Defined.

(** *** C6 *)

(** The high 10 bits of [0x00400000] are 1; the indices the handler
    computes for it are 513 and 0. *)
Example fault_address_split_0x400000 :
  Z.shiftr 0x00400000 22 = 1 /\ pt1_bits 0x00400000 = 513 /\ pt2_bits 0x00400000 = 0.
Proof. repeat split; reflexivity. Qed.

(** [data_as] in [k_data] is reached from [code_as] in [k_code] by
    declaring the data page. *)
Lemma k_data_reached :
  as_define_region code_as 0x400000 0x1000 1 1 0 k_code = Some ((OK, data_as), k_data).
Proof. vm_compute. reflexivity. Qed.

(** In [k_data] the page of [0x00400000] can be mapped: the slot the
    handler looks at is NULL and both allocators have memory. *)
Lemma k_data_mappable_400000 : mappable k_data 0x80010000 0x400000 0x80011000.
Proof.
  exists (replicate 1024 0). split; [split; reflexivity|]. left.
  split; [reflexivity|].
  exists 0x80023000, [], [(0x80024000, []); (0x80025000, []);
                          (0x80026000, []); (0x80027000, [])].
  repeat split; (reflexivity || lia).
Defined.

(** C6 at [data_as], [k_data] and a READ at [0x00400000]. *)
Lemma vm_fault_indexes_translated_address_witness :
  exists k' l2,
    vm_fault (proc_of data_as) VM_FAULT_READ 0x400000 k_data = Some (OK, k') /\
    peek k' (pagetable data_as) (Z.to_nat (0x400000 / 2 ^ 22 + 512)) = Some l2 /\
    l2 <> 0 /\
    peek k' l2 (Z.to_nat ((0x400000 / 2 ^ 12) mod 1024))
      = Some (new_entry 0x80011000 (region_dirty data_region)) /\
    peek k' (pagetable data_as) (Z.to_nat (0x400000 / 2 ^ 22))
      = peek k_data (pagetable data_as) (Z.to_nat (0x400000 / 2 ^ 22)).
Proof.
  apply (vm_fault_indexes_translated_address data_as VM_FAULT_READ 0x400000 k_data
           data_region 0x80011000 [] [(0x80012000, [])]).
  - reflexivity.
  - reflexivity.
  - split; [discriminate | reflexivity].
  - left. reflexivity.
  - reflexivity.
  - exact k_data_mappable_400000.
  - reflexivity.
  - split; [lia | reflexivity].
Defined.

(** The same fault evaluated: the second-level array is put in slot
    513, and slot 1, the one of the high 10 bits of [0x00400000], stays
    NULL, before the fault and after it. *)
Example vm_fault_at_0x400000 :
  exists k',
    vm_fault (proc_of data_as) VM_FAULT_READ 0x400000 k_data = Some (OK, k') /\
    peek k' (pagetable data_as) 513 = Some 0x80023000 /\
    peek k' 0x80023000 0 = Some 0x11600 /\
    peek k_data (pagetable data_as) 1 = Some 0 /\
    peek k' (pagetable data_as) 1 = Some 0.
Proof. eexists. split; [vm_compute; reflexivity|]. repeat split; vm_compute; reflexivity. Qed.

(** *** C8 *)

(** C8, counterexample: the range declared, [0x7ffff000 .. 0x80001000],
    overlaps the stack region [0x7fff0000 .. 0x80000000] by the test of
    the claim, and [as_define_region] returns EFAULT, not EINVAL. *)
Lemma define_region_overlap_counterexample :
  stack_region ∈ region_list stack_as /\
  spec_region_base 0x7ffff000 = 0x7ffff000 /\
  spec_region_length 0x7ffff000 0x2000 = 0x2000 /\
  0x7ffff000 <= vaddr stack_region + memsize stack_region /\
  0x7ffff000 + 0x2000 >= vaddr stack_region /\
  as_define_region stack_as 0x7ffff000 0x2000 1 1 0 k_code = Some ((EFAULT, stack_as), k_code) /\
  EFAULT <> EINVAL.
Proof.
  split; [apply list_elem_of_here|].
  repeat split; try (vm_compute; congruence).
Qed.

(** A region declared at [0x3000], where the code segment ends: the
    shared boundary counts as an overlap. *)
Lemma define_region_overlap_is_einval_witness :
  as_define_region code_as 0x3000 0x1000 1 1 0 k_code = Some ((EINVAL, code_as), k_code).
Proof.
  apply (define_region_overlap_is_einval code_as 0x3000 0x1000 1 1 0 k_code code_region).
  - lia.
  - lia.
  - vm_compute. split; congruence.
  - vm_compute. congruence.
  - apply list_elem_of_here.
  - vm_compute. split; congruence.
  - vm_compute. congruence.
  - vm_compute. congruence.
Defined.

(** *** C7 *)



(** *** C4 *)

(** The two tables of [code_as] in [k_code_mapped 0]. *)
Lemma k_code_mapped_l1 i :
  peek (k_code_mapped 0) 0x80010000 i = (<[512%nat := 0x80022000]> (replicate 1024 0)) !! i.
Proof. unfold peek, k_code_mapped. cbn [k_mem]. now rewrite lookup_insert_eq. Qed.

Lemma k_code_mapped_l2 j :
  peek (k_code_mapped 0) 0x80022000 j = (<[1%nat := 0x11200]> (replicate 1024 0)) !! j.
Proof.
  unfold peek, k_code_mapped. cbn [k_mem].
  rewrite !lookup_insert_ne by lia. now rewrite lookup_insert_eq.
Qed.

(** Slot 512 is the one first-level slot in use, *)
Lemma k_code_mapped_slot i l2 :
  peek (k_code_mapped 0) 0x80010000 i = Some l2 -> l2 <> 0 ->
  i = 512%nat /\ l2 = 0x80022000.
Proof.
  rewrite k_code_mapped_l1. intros H Hne.
  apply list_lookup_insert_Some in H as [(<- & <- & _) | (_ & H)]; [auto|].
  apply lookup_replicate in H as [-> _]. contradiction.
Qed.

(** and the entry of [0x1000] the one entry in use. *)
Lemma k_code_mapped_pte i j e :
  pte_at (k_code_mapped 0) 0x80010000 i j e ->
  i = 512%nat /\ j = 1%nat /\ e = 0x11200.
Proof.
  intros (l2 & H1 & Hl2 & H2 & He).
  destruct (k_code_mapped_slot i l2 H1 Hl2) as [-> ->].
  rewrite k_code_mapped_l2 in H2.
  apply list_lookup_insert_Some in H2 as [(<- & <- & _) | (_ & H2)]; [auto|].
  apply lookup_replicate in H2 as [-> _]. contradiction.
Qed.

(** [code_as] is well formed in [k_code_mapped 0]. *)
Lemma code_as_wf : wf_as (k_code_mapped 0) code_as.
Proof.
  split.
  - exists (<[512%nat := 0x80022000]> (replicate 1024 0)). split; reflexivity.
  - intros i l2 H1 Hl2. destruct (k_code_mapped_slot i l2 H1 Hl2) as [-> ->].
    split; [|split].
    + exists (<[1%nat := 0x11200]> (replicate 1024 0)).
      repeat split; (reflexivity || lia).
    + change (0x80022000 ∉ [0x80021000]). intros H.
      apply list_elem_of_singleton in H. discriminate.
    + discriminate.
  - intros i j e Hpte. destruct (k_code_mapped_pte i j e Hpte) as (-> & -> & ->).
    split; [discriminate|]. exists (replicate 1024 0). reflexivity.
  - intros i j e i' j' e' Hpte Hpte' _.
    destruct (k_code_mapped_pte i j e Hpte) as (-> & -> & ->).
    destruct (k_code_mapped_pte i' j' e' Hpte') as (-> & -> & ->). auto.
  - split.
    + apply NoDup_singleton.
    + apply Forall_singleton. exists []. reflexivity.
  - split.
    + exists []. reflexivity.
    + change (0x80020000 ∉ [0x80021000]). intros H.
      apply list_elem_of_singleton in H. discriminate.
Defined.

(** [as_destroy] on [code_as] in [k_code_mapped 0]. *)
Lemma as_destroy_leaks_second_level_witness :
  exists k',
    as_destroy code_as (k_code_mapped 0) = Some (tt, k') /\
    (forall i j e, pte_at (k_code_mapped 0) (pagetable code_as) i j e ->
                   k_mem k' !! frame_of e = None) /\
    k_mem k' !! pagetable code_as = None /\
    (forall n, n ∈ map r_node (region_list code_as) -> k_mem k' !! n = None) /\
    k_mem k' !! as_self code_as = None /\
    (forall i l2, peek (k_code_mapped 0) (pagetable code_as) i = Some l2 -> l2 <> 0 ->
       exists ws, l2_table (k_code_mapped 0) l2 ws /\ k_mem k' !! l2 = Some (Blk AHeap ws)).
Proof. exact (as_destroy_leaks_second_level code_as (k_code_mapped 0) code_as_wf). Defined.

(** The same call evaluated: after [as_destroy] the second-level array
    at [0x80022000] is the one block left in memory. *)
Example as_destroy_code_as :
  exists k',
    as_destroy code_as (k_code_mapped 0) = Some (tt, k') /\
    k_mem k' = <[0x80022000 := Blk AHeap (<[1%nat := 0x11200]> (replicate 1024 0))]> ∅.
Proof. eexists. split; vm_compute; reflexivity. Qed.

(** *** C2 and C5 *)

(** [as_copy] of [code_as] in [k_code_mapped 0], where the frame
    provider has one page: [as_create] takes it, the clone of the page
    at [0x1000] finds none and returns ENOMEM, and [as_copy] returns 0
    with [child_as]. *)
Lemma as_copy_ignores_clone_failure_witness :
  exists k3,
    vm_copy_pt (pagetable code_as) (pagetable child_as)
      (Kernel (<[0x80012000 := Blk APage (replicate 1024 0)]>
                 (<[0x80023000 := Blk AHeap []]>
                    (<[0x80024000 := Blk AHeap []]> (k_mem (k_code_mapped 0)))))
              [] [(0x80025000, []); (0x80026000, []); (0x80027000, [])]
              (k_trace (k_code_mapped 0))) = Some (ENOMEM, k3) /\
    as_copy code_as (k_code_mapped 0) = Some ((OK, Some child_as), k3).
Proof.
  eexists. split; [vm_compute; reflexivity|].
  eapply (as_copy_ignores_clone_failure code_as (k_code_mapped 0) _ _ _ _ _ ENOMEM).
  - vm_compute. reflexivity.
  - vm_compute. reflexivity.
  - vm_compute. reflexivity.
Defined.

(** C5: in [k_code_mapped 0] the frame provider has one page left.
    [as_copy] of [code_as], whose page at [0x1000] is resident, uses it
    for the first-level table of the copy; the clone of the page then
    fails, and [as_copy] returns 0 with an address space that has no
    mapping at [0x1000]. *)
Theorem as_copy_success_without_mapping :
  exists k',
    pt_entry (k_code_mapped 0) (pagetable code_as) 0x1000 = Some 0x11200 /\
    as_copy code_as (k_code_mapped 0) = Some ((OK, Some child_as), k') /\
    pt_entry k' (pagetable child_as) 0x1000 = Some 0 /\
    k_page_pool k' = [].
Proof.
  eexists. split; [vm_compute; reflexivity|].
  split; [vm_compute; reflexivity|].
  split; vm_compute; reflexivity.
Qed.

(** With memory for the whole clone, [as_copy] does what C5 describes:
    the copy maps [0x1000] to another frame ([0x13000], not [0x11000])
    with the same dirty bit, and the new frame holds the words of the
    source frame. *)
Example as_copy_with_memory :
  exists k',
    as_copy code_as k_parent = Some ((OK, Some child_as), k') /\
    pt_entry k_parent (pagetable code_as) 0x1000 = Some 0x11600 /\
    pt_entry k' (pagetable child_as) 0x1000 = Some 0x13600 /\
    k_mem k' !! 0x80011000 = Some (Blk APage (<[3%nat := 0xdeadbeef]> (replicate 1024 0))) /\
    k_mem k' !! 0x80013000 = Some (Blk APage (<[3%nat := 0xdeadbeef]> (replicate 1024 0))).
Proof.
  eexists. split; [vm_compute; reflexivity|].
  repeat split; vm_compute; reflexivity.
Qed.

(** The other allocation of the clone: when [kmalloc] has nothing left
    for the second-level array (here after the two blocks for the new
    address space and its region), [vm_copy_pt] stores through the null
    pointer it got. *)
Example as_copy_null_second_level :
  as_copy code_as
    (Kernel (k_mem (k_code_mapped 0)) [(0x80012000, []); (0x80013000, [])]
            [(0x80023000, []); (0x80024000, [])] []) = None.
Proof. vm_compute. reflexivity. Qed.

(** ** An entry and its page on the MIPS machine *)

Lemma land_low_PAGE_FRAME low : 0 <= low < PAGE_SIZE -> Z.land low PAGE_FRAME = 0.
Proof.
  intros H. rewrite land_PAGE_FRAME by (unfold PAGE_SIZE in H; lia).
  rewrite Z.div_small by exact H. reflexivity.
Qed.

Lemma land_page_PAGE_FRAME p :
  0 <= p < 2 ^ 32 -> p mod PAGE_SIZE = 0 -> Z.land p PAGE_FRAME = p.
Proof.
  intros H Hm. rewrite land_PAGE_FRAME by exact H.
  pose proof (Z.div_mod p PAGE_SIZE ltac:(discriminate)) as Hd. lia.
Qed.

Lemma lor_page_low p low :
  0 <= p < 2 ^ 32 -> p mod PAGE_SIZE = 0 -> 0 <= low < PAGE_SIZE ->
  Z.lor p low = p + low.
Proof.
  intros Hp Hm Hl.
  assert (Hdisj : Z.land p low = 0).
  { rewrite <- (land_page_PAGE_FRAME p Hp Hm), <- Z.land_assoc.
    rewrite (Z.land_comm PAGE_FRAME low), (land_low_PAGE_FRAME low Hl).
    apply Z.land_0_r. }
  rewrite <- Z.lxor_lor by exact Hdisj. symmetry. now apply Z.add_nocarry_lxor.
Qed.

(** X24: on the MIPS machine an entry names its page.  For a page
    [v] of [kseg0] and any dirty bits within the offset part, the entry
    [vm_add_l2_entry] and [vm_copy_pt] build for [v] leads back to [v],
    both by the address [as_destroy] frees and by the address
    [vm_copy_pt] copies from: the page that is freed, and the page that
    is copied, is the page that was allocated. *)
Theorem sys161_entry_names_its_page (v dirty : Z) :
  MIPS_KSEG0 <= v < 2 ^ 32 -> v mod PAGE_SIZE = 0 ->
  0 <= dirty < PAGE_SIZE ->
  frame_of (new_entry v dirty) = v /\ copy_src (new_entry v dirty) = v.
Proof.
  cbn [MIPS_KSEG0 sys161]. intros Hv Hm Hd.
  unfold frame_of, copy_src, new_entry.
  cbn [KVADDR_TO_PADDR PADDR_TO_KVADDR TLBLO_VALID sys161].
  set (p := v - 0x80000000).
  assert (Hp : 0 <= p < 2 ^ 31) by (unfold p; lia).
  assert (Hpm : p mod PAGE_SIZE = 0).
  { unfold p. replace (v - 0x80000000) with (v + (- 524288) * PAGE_SIZE)
      by (unfold PAGE_SIZE; lia).
    rewrite Z.mod_add by discriminate. exact Hm. }
  rewrite (u32_small p) by lia.
  rewrite (land_page_PAGE_FRAME p) by (try exact Hpm; lia).
  rewrite <- Z.lor_assoc.
  set (low := Z.lor dirty 0x200).
  assert (Hlow : 0 <= low < PAGE_SIZE).
  { assert (H0 : 0 <= low) by (apply Z.lor_nonneg; lia).
    split; [exact H0|]. unfold PAGE_SIZE in *. change 4096 with (2 ^ 12).
    destruct (Z.eq_dec low 0) as [->|Hnz]; [reflexivity|].
    apply Z.log2_lt_pow2; [lia|]. unfold low.
    rewrite Z.log2_lor by lia. apply Z.max_lub_lt; [|reflexivity].
    destruct (Z.eq_dec dirty 0) as [->|Hdnz]; [reflexivity|].
    apply Z.log2_lt_pow2; lia. }
  rewrite (lor_page_low p low) by (try assumption; lia).
  assert (Hdiv : (v + low) / PAGE_SIZE = v / PAGE_SIZE /\ (p + low) / PAGE_SIZE = p / PAGE_SIZE).
  { pose proof (Z.div_mod v PAGE_SIZE ltac:(discriminate)) as Hdv.
    pose proof (Z.div_mod p PAGE_SIZE ltac:(discriminate)) as Hdp.
    split; symmetry; apply (Z.div_unique _ _ _ low); lia. }
  destruct Hdiv as [Hdv Hdp].
  pose proof (Z.div_mod v PAGE_SIZE ltac:(discriminate)) as Hv'.
  pose proof (Z.div_mod p PAGE_SIZE ltac:(discriminate)) as Hp'.
  split.
  - replace (p + low + 0x80000000) with (v + low) by (unfold p; lia).
    rewrite (u32_small (v + low)) by (unfold PAGE_SIZE in *; lia).
    rewrite land_PAGE_FRAME by (unfold PAGE_SIZE in *; lia).
    rewrite Hdv. lia.
  - rewrite land_PAGE_FRAME by (unfold PAGE_SIZE in *; lia).
    rewrite Hdp. replace (PAGE_SIZE * (p / PAGE_SIZE)) with p by lia.
    replace (p + 0x80000000) with v by (unfold p; lia).
    apply u32_small. lia.
Qed.

(** ** The further properties at concrete states *)


(** [empty_as] in [k_created] is what [as_create] gives from [boot];
    declaring the code segment leads on to [code_as] in [k_code]. *)
Lemma k_created_reached : as_create boot = Some (Some empty_as, k_created).
Proof. vm_compute. reflexivity. Qed.

Lemma k_created_code :
  as_define_region empty_as 0x1000 0x2000 1 0 1 k_created = Some ((OK, code_as), k_code).
Proof. vm_compute. reflexivity. Qed.

Lemma sys161_kseg0 : 0 <= MIPS_KSEG0 <= 2 ^ 32 - PAGE_SIZE.
Proof. vm_compute. split; discriminate. Qed.

Lemma code_region_apart : regions_apart (region_list code_as).
Proof. split; constructor. Qed.

(** *** Regions *)

(** X1 at [code_as] and [0x1000]. *)
Lemma find_region_unambiguous_witness :
  (forall r, find_region 0x1000 (region_list code_as) = Some r <->
             r ∈ region_list code_as /\ region_has r 0x1000) /\
  (find_region 0x1000 (region_list code_as) = None <->
   forall r, r ∈ region_list code_as -> ~ region_has r 0x1000).
Proof.
  apply (find_region_unambiguous 0x1000 (region_list code_as)).
  exact code_region_apart.
Defined.

(** The code segment lies in the user segment. *)
Lemma code_region_in_user : Forall in_user (region_list code_as).
Proof. apply Forall_singleton. vm_compute. repeat split; discriminate. Qed.

(** X2: a data page at [0x400000] declared after the code segment. *)
Lemma as_define_region_keeps_apart_witness :
  exists as' k',
    as_define_region code_as 0x400000 0x1000 1 1 0 k_code = Some ((OK, as'), k') /\
    regions_apart (region_list as') /\ Forall in_user (region_list as') /\
    tail (region_list as') = region_list code_as /\
    forall i j a b fa,
      region_list as' !! i = Some a -> region_list as' !! j = Some b ->
      vaddr a <= fa <= vaddr a + memsize a ->
      vaddr b <= fa <= vaddr b + memsize b -> i = j.
Proof.
  exists data_as, k_data. split; [exact k_data_reached|].
  apply (as_define_region_keeps_apart code_as 0x400000 0x1000 1 1 0 k_code k_data).
  - exact sys161_kseg0.
  - exact code_region_apart.
  - exact code_region_in_user.
  - vm_compute. reflexivity.
  - exact k_data_reached.
Defined.

(** Without the proviso on wrap-around none of X2, X5 and X6 holds of
    the code.  The range [0xfffff000 .. 0x100001000] ends at [0x1000]
    in 32 bits: it is declared with success, although it lies in the
    kernel segment; it is declared with success a second time; and a
    fault inside it is answered with EFAULT. *)
Example as_define_region_wrapping_range :
  exists as1 k1 as2 k2 k3,
    as_define_region empty_as 0xfffff000 0x2000 1 1 0 k_created = Some ((OK, as1), k1) /\
    map (fun r => (vaddr r, memsize r)) (region_list as1) = [(0xfffff000, 0x2000)] /\
    as_define_region as1 0xfffff000 0x2000 1 1 0 k1 = Some ((OK, as2), k2) /\
    map (fun r => (vaddr r, memsize r)) (region_list as2)
      = [(0xfffff000, 0x2000); (0xfffff000, 0x2000)] /\
    vm_fault (proc_of as1) VM_FAULT_READ 0xfffff800 k1 = Some (EFAULT, k3).
Proof.
  eexists _, _, _, _, _. split; [vm_compute; reflexivity|].
  split; [reflexivity|]. split; [vm_compute; reflexivity|].
  split; [reflexivity|]. vm_compute. reflexivity.
Qed.

(** X3: a declaration that overlaps the code segment. *)
Lemma as_define_region_error_changes_nothing_witness :
  exists as' k',
    as_define_region code_as 0x1000 0x10 1 1 0 k_code = Some ((EINVAL, as'), k') /\
    as' = code_as /\ k' = k_code.
Proof.
  eexists _, _. split; [vm_compute; reflexivity|].
  apply (as_define_region_error_changes_nothing code_as 0x1000 0x10 1 1 0 k_code _ EINVAL).
  - cbn [k_code k_heap_pool map fst].
    repeat (apply Forall_cons; split; [discriminate|]). constructor.
  - vm_compute. reflexivity.
  - discriminate.
Defined.

(** X4: thirty-two bytes at [0x400010] are recorded as the page at
    [0x400000]. *)
Lemma as_define_region_records_range_witness :
  exists r as' k',
    as_define_region code_as 0x400010 0x20 1 1 0 k_code = Some ((OK, as'), k') /\
    region_list as' = r :: region_list code_as /\
    pagetable as' = pagetable code_as /\ as_self as' = as_self code_as /\
    vaddr r <= 0x400010 /\ 0x400010 + 0x20 <= vaddr r + memsize r /\
    vaddr r mod PAGE_SIZE = 0 /\ memsize r mod PAGE_SIZE = 0 /\
    0x400010 - vaddr r < PAGE_SIZE /\ vaddr r + memsize r < 0x400010 + 0x20 + PAGE_SIZE /\
    vaddr r + memsize r <= MIPS_KSEG0 /\
    readable r = 1 /\ writeable r = 1 /\ executable r = 0 /\
    old_writeable r = 1 /\ r_node r = 0x80022000 /\
    k_mem k' = <[0x80022000 := Blk AHeap []]> (k_mem k_code) /\
    k_page_pool k' = k_page_pool k_code /\
    k_heap_pool k' = [(0x80023000, []); (0x80024000, []); (0x80025000, []);
                      (0x80026000, []); (0x80027000, [])].
Proof.
  apply (as_define_region_records_range code_as 0x400010 0x20 1 1 0 k_code
           0x80022000 []
           [(0x80023000, []); (0x80024000, []); (0x80025000, []);
            (0x80026000, []); (0x80027000, [])]).
  - lia.
  - lia.
  - exact sys161_kseg0.
  - vm_compute. discriminate.
  - apply Forall_singleton. left. vm_compute. reflexivity.
  - reflexivity.
  - discriminate.
Defined.


(** X6: the code segment declared a second time, with other
    permissions. *)
Lemma as_define_region_twice_is_einval_witness :
  as_define_region code_as 0x1000 0x2000 0 1 0 k_code = Some ((EINVAL, code_as), k_code).
Proof.
  apply (as_define_region_twice_is_einval empty_as code_as 0x1000 0x2000 1 0 1 0 1 0
           k_created k_code).
  - lia.
  - lia.
  - exact sys161_kseg0.
  - vm_compute. discriminate.
  - exact k_created_code.
Defined.

Lemma sys161_stack_ok : stack_ok.
Proof. vm_compute. repeat split; (reflexivity || discriminate). Qed.

(** X7: the stack of [empty_as]. *)
Lemma as_define_stack_declares_stack_witness :
  exists r as' k',
    as_define_stack empty_as k_created = Some ((OK, as', USERSTACK), k') /\
    region_list as' = r :: region_list empty_as /\
    vaddr r = USERSTACK - PAGE_SIZE * NUM_STACK_PAGES /\
    memsize r = PAGE_SIZE * NUM_STACK_PAGES /\
    readable r = 1 /\ writeable r = 1 /\ executable r = 0 /\
    (forall fa, USERSTACK - PAGE_SIZE * NUM_STACK_PAGES <= fa < USERSTACK ->
                find_region fa (region_list as') = Some r) /\
    as_define_stack as' k' = Some ((EINVAL, as', USERSTACK), k').
Proof.
  apply (as_define_stack_declares_stack empty_as k_created 0x80021000 []
           [(0x80022000, []); (0x80023000, []);
            (0x80024000, []); (0x80025000, []); (0x80026000, []); (0x80027000, [])]).
  - exact sys161_stack_ok.
  - constructor.
  - reflexivity.
  - discriminate.
Defined.

(** *** Creation *)

(** X9 at [boot]. *)
Lemma as_create_gives_empty_space_witness :
  exists as_ k',
    as_create boot = Some (Some as_, k') /\
    as_self as_ = 0x80020000 /\ pagetable as_ = 0x80010000 /\ region_list as_ = [] /\
    (forall i, (i < PT_SIZE)%nat -> peek k' 0x80010000 i = Some 0) /\
    (forall fa, pt_entry k' 0x80010000 fa = None) /\
    tidy k' as_ /\
    (forall q, q <> 0x80020000 -> q <> 0x80010000 -> k_mem k' !! q = k_mem boot !! q) /\
    k_page_pool k' = [(0x80011000, []); (0x80012000, [])] /\
    k_heap_pool k' = [(0x80021000, []); (0x80022000, []); (0x80023000, []);
                      (0x80024000, []); (0x80025000, []); (0x80026000, []);
                      (0x80027000, [])] /\
    k_trace k' = k_trace boot.
Proof.
  apply (as_create_gives_empty_space boot 0x80020000 []
           [(0x80021000, []); (0x80022000, []); (0x80023000, []);
            (0x80024000, []); (0x80025000, []); (0x80026000, []); (0x80027000, [])]
           0x80010000 [] [(0x80011000, []); (0x80012000, [])]).
  - reflexivity.
  - split; [discriminate | reflexivity].
  - reflexivity.
  - split; [discriminate | reflexivity].
  - discriminate.
Defined.

(** X10: [kmalloc] has a block, the frame provider has no page. *)
Lemma as_create_out_of_memory_witness :
  exists k',
    as_create (Kernel ∅ [] [(0x80020000, [])] []) = Some (None, k') /\
    k_mem k' = k_mem (Kernel ∅ [] [(0x80020000, [])] []) /\
    k_page_pool k' = k_page_pool (Kernel ∅ [] [(0x80020000, [])] []) /\
    k_trace k' = k_trace (Kernel ∅ [] [(0x80020000, [])] []) /\
    map fst (k_heap_pool k') ≡ₚ map fst (k_heap_pool (Kernel ∅ [] [(0x80020000, [])] [])).
Proof.
  apply (as_create_out_of_memory (Kernel ∅ [] [(0x80020000, [])] [])).
  right. split; [reflexivity|].
  exists 0x80020000, [], []. split; [reflexivity|].
  split; [discriminate | reflexivity].
Defined.

(** X11 at [boot]. *)
Lemma as_create_then_destroy_witness :
  exists as_ k' k'',
    as_create boot = Some (Some as_, k') /\
    as_destroy as_ k' = Some (tt, k'') /\
    k_mem k'' = k_mem boot /\
    k_page_pool k'' = [(0x80011000, []); (0x80012000, [])]
                        ++ [(0x80010000, replicate PT_SIZE 0)] /\
    k_heap_pool k'' = [(0x80021000, []); (0x80022000, []); (0x80023000, []);
                       (0x80024000, []); (0x80025000, []); (0x80026000, []);
                       (0x80027000, [])] ++ [(0x80020000, [])] /\
    k_trace k'' = k_trace boot.
Proof.
  apply (as_create_then_destroy boot 0x80020000 []
           [(0x80021000, []); (0x80022000, []); (0x80023000, []);
            (0x80024000, []); (0x80025000, []); (0x80026000, []); (0x80027000, [])]
           0x80010000 [] [(0x80011000, []); (0x80012000, [])]).
  - reflexivity.
  - split; [discriminate | reflexivity].
  - reflexivity.
  - split; [discriminate | reflexivity].
  - discriminate.
Defined.

(** *** Faults *)

(** X12: [0x5000] shares the second-level array of [0x1000] and lies
    in no region. *)
Lemma vm_fault_failure_changes_nothing_witness :
  (find_region 0x5000 (region_list code_as) = None ->
     vm_fault (proc_of code_as) VM_FAULT_READ 0x5000 (k_code_mapped 0)
       = Some (EFAULT, k_code_mapped 0)) /\
  (find_region 0x5000 (region_list code_as) <> None ->
   k_page_pool (k_code_mapped 0) = [] ->
     vm_fault (proc_of code_as) VM_FAULT_READ 0x5000 (k_code_mapped 0)
       = Some (ENOMEM, k_code_mapped 0)).
Proof.
  apply (vm_fault_failure_changes_nothing code_as VM_FAULT_READ 0x5000 (k_code_mapped 0)
           0x80022000).
  - left. reflexivity.
  - vm_compute. reflexivity.
  - discriminate.
  - vm_compute. reflexivity.
Defined.

(** X13: [k_code] with no block left for [kmalloc]. *)
Lemma vm_fault_no_table_memory_witness :
  vm_fault (proc_of code_as) VM_FAULT_READ 0x1000
           (Kernel (k_mem k_code) (k_page_pool k_code) [] [])
    = Some (ENOMEM, Kernel (k_mem k_code) (k_page_pool k_code) [] []).
Proof.
  apply (vm_fault_no_table_memory code_as VM_FAULT_READ 0x1000
           (Kernel (k_mem k_code) (k_page_pool k_code) [] []) (replicate 1024 0)).
  - left. reflexivity.
  - split; reflexivity.
  - reflexivity.
  - reflexivity.
Defined.

(** X14: a READ at [0x1000], then a WRITE at [0x1ffc] on the same
    page. *)
Lemma vm_fault_second_fault_is_resident_witness :
  exists k1 k2,
    vm_fault (proc_of code_as) VM_FAULT_READ 0x1000 k_code = Some (OK, k1) /\
    vm_fault (proc_of code_as) VM_FAULT_WRITE 0x1ffc k1 = Some (OK, k2) /\
    k_mem k2 = k_mem k1 /\ k_page_pool k2 = k_page_pool k1 /\
    k_heap_pool k2 = k_heap_pool k1 /\
    k_trace k2 = k_trace k1 ++
      [EvSplHigh;
       EvTlbRandom (Z.land 0x1ffc PAGE_FRAME) (new_entry 0x80011000 (region_dirty code_region));
       EvSplx].
Proof.
  apply (vm_fault_second_fault_is_resident code_as VM_FAULT_READ VM_FAULT_WRITE
           0x1000 0x1ffc k_code code_region 0x80011000 [] [(0x80012000, [])]).
  - left. reflexivity.
  - right. reflexivity.
  - discriminate.
  - reflexivity.
  - exact k_code_mappable_1000.
  - reflexivity.
  - split; [discriminate | reflexivity].
  - vm_compute. reflexivity.
  - vm_compute. reflexivity.
Defined.

(** In [k_code_mapped 0] the second page of the code segment can be
    mapped: its second-level array is there, its entry is the
    sentinel. *)
Lemma k_code_mapped_mappable_2000 :
  mappable (k_code_mapped 0) 0x80010000 0x2000 0x80012000.
Proof.
  exists (<[512%nat := 0x80022000]> (replicate 1024 0)).
  split; [split; reflexivity|]. right.
  exists 0x80022000, (<[1%nat := 0x11200]> (replicate 1024 0)).
  split; [reflexivity|]. split; [|reflexivity].
  split; [discriminate|]. split; reflexivity.
Defined.

(** [code_as] is tidy in [k_code_mapped 0]. *)
Lemma code_as_tidy : tidy (k_code_mapped 0) code_as.
Proof.
  split; [exact code_as_wf|].
  intros i i' l2 H H' Hne.
  destruct (k_code_mapped_slot i l2 H Hne) as [-> _].
  destruct (k_code_mapped_slot i' l2 H' Hne) as [-> _]. reflexivity.
Defined.

(** X15: a WRITE at [0x2000], with the page of [0x1000] resident. *)
Lemma vm_fault_keeps_other_mappings_witness :
  exists k',
    vm_fault (proc_of code_as) VM_FAULT_WRITE 0x2000 (k_code_mapped 0) = Some (OK, k') /\
    forall fa' e', pt_entry (k_code_mapped 0) (pagetable code_as) fa' = Some e' ->
                   e' <> 0 ->
                   pt_entry k' (pagetable code_as) fa' = Some e'.
Proof.
  apply (vm_fault_keeps_other_mappings code_as VM_FAULT_WRITE 0x2000 (k_code_mapped 0)
           code_region 0x80012000 [] []).
  - right. reflexivity.
  - reflexivity.
  - exact k_code_mapped_mappable_2000.
  - reflexivity.
  - split; [discriminate | reflexivity].
Defined.

(** X16: the same fault. *)
Lemma vm_fault_keeps_tidy_witness :
  exists k',
    vm_fault (proc_of code_as) VM_FAULT_WRITE 0x2000 (k_code_mapped 0) = Some (OK, k') /\
    tidy k' code_as.
Proof.
  apply (vm_fault_keeps_tidy code_as VM_FAULT_WRITE 0x2000 (k_code_mapped 0)
           code_region 0x80012000 [] []).
  - right. reflexivity.
  - exact code_as_tidy.
  - reflexivity.
  - exact k_code_mapped_mappable_2000.
  - reflexivity.
  - split; [discriminate | reflexivity].
  - vm_compute. reflexivity.
Defined.

(** X17: a data page declared with the page of [0x1000] resident. *)
Lemma as_define_region_keeps_tidy_witness :
  exists as' k',
    as_define_region code_as 0x400000 0x1000 1 1 0 (k_code_mapped 0)
      = Some ((OK, as'), k') /\
    tidy k' as' /\
    pagetable as' = pagetable code_as /\ as_self as' = as_self code_as /\
    forall fa, pt_entry k' (pagetable as') fa
               = pt_entry (k_code_mapped 0) (pagetable code_as) fa.
Proof.
  eexists _, _. split; [vm_compute; reflexivity|].
  apply (as_define_region_keeps_tidy code_as 0x400000 0x1000 1 1 0 (k_code_mapped 0)).
  - exact code_as_tidy.
  - intros node junk rest H. unfold k_code_mapped in H. cbn [k_heap_pool] in H.
    injection H as <- _ _. reflexivity.
  - vm_compute. reflexivity.
Defined.

(** X19: the fault of the C3 witness, and [as_destroy] after it. *)
Lemma failed_fault_then_destroy_is_undefined_witness :
  exists err k',
    vm_fault (proc_of code_as) VM_FAULT_READ 0x40000000 k_code = Some (err, k') /\
    err <> OK /\ as_destroy code_as k' = None.
Proof.
  apply (failed_fault_then_destroy_is_undefined code_as VM_FAULT_READ 0x40000000 k_code
           (replicate 1024 0) 0x80022000 []
           [(0x80023000, []); (0x80024000, []); (0x80025000, []);
            (0x80026000, []); (0x80027000, [])]).
  - left. reflexivity.
  - split; reflexivity.
  - reflexivity.
  - reflexivity.
  - split; [discriminate | reflexivity].
  - left. reflexivity.
Defined.

(** *** Copies *)

Lemma code_region_normalised : Forall normalised (region_list code_as).
Proof.
  apply Forall_singleton. unfold normalised.
  vm_compute. repeat split; (reflexivity || discriminate).
Qed.

(** X20: the region loop for [code_as], with two blocks free. *)
Lemma as_copy_region_loop_witness :
  exists as' k',
    copy_regions (region_list code_as) (Addrspace 0x80023000 [] 0x80012000)
      (Kernel (k_mem (k_code_mapped 0)) [] [(0x80024000, []); (0x80025000, [])] [])
      = Some ((OK, as'), k') /\
    region_list as' =
      rev (zip_with copy_of
             (map fst (take (length (region_list code_as))
                            [(0x80024000, @nil Z); (0x80025000, @nil Z)]))
             (region_list code_as)) /\
    map (fun r => (vaddr r, memsize r, readable r, writeable r, executable r,
                   old_writeable r)) (region_list as') =
      rev (map (fun c => (vaddr c, memsize c, readable c, writeable c, executable c,
                          writeable c)) (region_list code_as)) /\
    as_self as' = 0x80023000 /\ pagetable as' = 0x80012000 /\
    k_mem k' = with_nodes (map fst (take (length (region_list code_as))
                                         [(0x80024000, @nil Z); (0x80025000, @nil Z)]))
                          (k_mem (k_code_mapped 0)) /\
    k_heap_pool k' = drop (length (region_list code_as))
                          [(0x80024000, @nil Z); (0x80025000, @nil Z)] /\
    k_page_pool k' = [] /\ k_trace k' = [].
Proof.
  apply (as_copy_region_loop (region_list code_as) (Addrspace 0x80023000 [] 0x80012000)
           (Kernel (k_mem (k_code_mapped 0)) [] [(0x80024000, []); (0x80025000, [])] [])).
  - exact sys161_kseg0.
  - exact code_region_normalised.
  - exact code_region_apart.
  - reflexivity.
  - cbn [region_list code_as k_heap_pool length]. lia.
  - cbn [region_list code_as k_heap_pool length take map fst].
    apply Forall_singleton. discriminate.
Defined.

(** X21: [as_copy] of [code_as] with one block free: the region cannot
    be copied. *)
Lemma as_copy_out_of_region_records_witness :
  exists k',
    as_copy code_as (Kernel (k_mem (k_code_mapped 0)) [(0x80012000, [])]
                            [(0x80023000, [])] [])
      = Some ((ENOMEM, None), k') /\
    k_mem k' = k_mem (k_code_mapped 0) /\
    k_page_pool k' = [] ++ [(0x80012000, replicate PT_SIZE 0)] /\
    k_heap_pool k' = map (fun n => (n, [])) (rev (map fst (@nil (Z * list Z))))
                        ++ [(0x80023000, [])] /\
    k_trace k' = [].
Proof.
  apply (as_copy_out_of_region_records code_as
           (Kernel (k_mem (k_code_mapped 0)) [(0x80012000, [])] [(0x80023000, [])] [])
           0x80023000 [] [] 0x80012000 [] []).
  - exact sys161_kseg0.
  - exact code_region_normalised.
  - exact code_region_apart.
  - reflexivity.
  - reflexivity.
  - cbn [region_list code_as length]. lia.
  - cbn [map]. apply NoDup_cons. split.
    + intros H. apply list_elem_of_singleton in H. discriminate.
    + apply NoDup_singleton.
  - cbn [map].
    repeat (apply Forall_cons; split; [split; [discriminate | reflexivity]|]).
    constructor.
Defined.

(** The table of [code_as], the same in [k_fork] and in [k_clone]. *)
Lemma code_table_arrays (k : kernel) i l2 :
  k_mem k !! 0x80022000 = Some (Blk AHeap (<[1%nat := 0x11200]> (replicate 1024 0))) ->
  (<[512%nat := 0x80022000]> (replicate 1024 0)) !! i = Some l2 -> l2 <> 0 ->
  exists ws, l2_table k l2 ws.
Proof.
  intros Hk H Hne.
  apply list_lookup_insert_Some in H as [(_ & <- & _) | (_ & H)].
  - exists (<[1%nat := 0x11200]> (replicate 1024 0)).
    split; [discriminate|]. split; [exact Hk | reflexivity].
  - apply lookup_replicate in H as [-> _]. contradiction.
Qed.

Lemma code_table_pte (k : kernel) i j e :
  k_mem k !! 0x80010000 = Some (Blk APage (<[512%nat := 0x80022000]> (replicate 1024 0))) ->
  k_mem k !! 0x80022000 = Some (Blk AHeap (<[1%nat := 0x11200]> (replicate 1024 0))) ->
  pte_at k 0x80010000 i j e -> i = 512%nat /\ j = 1%nat /\ e = 0x11200.
Proof.
  intros H1 H2 (l2 & Hs & Hne & He & He0). unfold peek in Hs. rewrite H1 in Hs.
  cbn [b_words] in Hs.
  apply list_lookup_insert_Some in Hs as [(<- & <- & _) | (_ & Hs)].
  - unfold peek in He. rewrite H2 in He. cbn [b_words] in He.
    apply list_lookup_insert_Some in He as [(<- & <- & _) | (_ & He)]; [auto|].
    apply lookup_replicate in He as [-> _]. contradiction.
  - apply lookup_replicate in Hs as [-> _]. contradiction.
Qed.

(** X22: the table of [code_as] cloned into the table at
    [0x80012000]. *)
Lemma vm_copy_pt_clones_table_witness :
  exists k',
    vm_copy_pt 0x80010000 0x80012000 k_clone = Some (OK, k') /\
    (forall q b, k_mem k_clone !! q = Some b -> q <> 0x80012000 ->
                 k_mem k' !! q = Some b) /\
    (forall fa, match pt_entry k_clone 0x80010000 fa with
                | None => pt_entry k' 0x80012000 fa = None
                | Some e => clone_of k_clone k' e (pt_entry k' 0x80012000 fa)
                end).
Proof.
  apply (vm_copy_pt_clones_table k_clone 0x80010000 0x80012000
           (<[512%nat := 0x80022000]> (replicate 1024 0)) (replicate 1024 0)).
  - split; reflexivity.
  - split; reflexivity.
  - discriminate.
  - intros i H. apply lookup_replicate_2. apply lookup_lt_Some in H.
    rewrite length_insert, length_replicate in H. exact H.
  - intros i l2. apply code_table_arrays. reflexivity.
  - intros i j e Hp.
    destruct (code_table_pte k_clone i j e eq_refl eq_refl Hp) as (-> & -> & ->).
    split; [vm_compute; discriminate|].
    exists APage, (replicate 1024 0). split; [reflexivity|].
    rewrite length_replicate. unfold PAGE_WORDS. lia.
  - split.
    + cbn [k_clone k_heap_pool k_page_pool map fst app].
      apply (bool_decide_unpack _). vm_compute. exact I.
    + cbn [k_clone k_heap_pool k_page_pool map fst app].
      repeat (apply Forall_cons; split;
              [split; [discriminate | split; reflexivity]|]).
      constructor.
  - apply Nat.leb_le. vm_compute. reflexivity.
  - apply Nat.leb_le. vm_compute. reflexivity.
Defined.

(** X23: [as_copy] of [code_as] in [k_fork]. *)
Lemma as_copy_clones_address_space_witness :
  exists newas k',
    as_copy code_as k_fork = Some ((OK, Some newas), k') /\
    as_self newas = 0x80023000 /\ pagetable newas = 0x80012000 /\
    map (fun r => (vaddr r, memsize r, readable r, writeable r, executable r,
                   old_writeable r)) (region_list newas) =
      rev (map (fun c => (vaddr c, memsize c, readable c, writeable c, executable c,
                          writeable c)) (region_list code_as)) /\
    (forall q b, k_mem k_fork !! q = Some b -> k_mem k' !! q = Some b) /\
    (forall fa, match pt_entry k_fork (pagetable code_as) fa with
                | None => pt_entry k' (pagetable newas) fa = None
                | Some e => clone_of k_fork k' e (pt_entry k' (pagetable newas) fa)
                end).
Proof.
  apply (as_copy_clones_address_space code_as k_fork
           (<[512%nat := 0x80022000]> (replicate 1024 0))
           0x80023000 []
           [(0x80024000, []); (0x80025000, []); (0x80026000, []); (0x80027000, [])]
           0x80012000 [] [(0x80013000, [])]).
  - exact sys161_kseg0.
  - exact code_region_normalised.
  - exact code_region_apart.
  - split; reflexivity.
  - intros i l2. apply code_table_arrays. reflexivity.
  - intros i j e Hp.
    destruct (code_table_pte k_fork i j e eq_refl eq_refl Hp) as (-> & -> & ->).
    exists APage, (replicate 1024 0). split; [reflexivity|].
    rewrite length_replicate. unfold PAGE_WORDS. lia.
  - reflexivity.
  - reflexivity.
  - split.
    + cbn [k_fork k_code_mapped k_heap_pool k_page_pool map fst app].
      apply (bool_decide_unpack _). vm_compute. exact I.
    + cbn [k_fork k_code_mapped k_heap_pool k_page_pool map fst app].
      repeat (apply Forall_cons; split;
              [split; [discriminate | split; reflexivity]|]).
      constructor.
  - apply Nat.leb_le. vm_compute. reflexivity.
  - apply Nat.leb_le. vm_compute. reflexivity.
Defined.

(** X24 at the page [0x80011000], with the dirty bit. *)
Lemma sys161_entry_names_its_page_witness :
  frame_of (new_entry 0x80011000 0x400) = 0x80011000 /\
  copy_src (new_entry 0x80011000 0x400) = 0x80011000.
Proof.
  apply (sys161_entry_names_its_page 0x80011000 0x400).
  - vm_compute. split; [discriminate | reflexivity].
  - reflexivity.
  - vm_compute. split; [discriminate | reflexivity].
Defined.
